(** * Chunk extraction and chunk-size optimisation of the IWSDK ingestion
    pipeline: a shallow embedding and its verified properties.

    Sources embedded here:
    - [ingestion/parsers/typescript_parser.py]  (chunk record, class heritage
      resolution, ECS / WebXR pattern detection),
    - [ingestion/chunkers/ast_chunker.py]        (the chunk-size optimizer),
    - [storage/vector_store.py]                  (metadata serialisation).

    Modelling conventions.
    - Python [int] is [Z]; Python [str] is [string], a sequence of 8-bit
      characters, so [len] counts characters; [str.lower] lower-cases the
      letters [A-Z], which is what Python does on the ASCII identifiers and
      keywords the pipeline matches against.
    - Python [set] of strings is [gset string]; where the code iterates over a
      set ([",".join(s)], [list(s)]) the iteration order is a parameter
      [set_order], since Python leaves it unspecified.
    - [dict] is [gmap]; the insertion-ordered dictionary used for grouping by
      file is an association list, because its order is observable.
    - Reading a file, [open(p).readlines()], is a parameter
      [read_lines : string -> option (list string)]; [None] stands for any
      exception raised while reading. *)

From Stdlib Require Import ZArith String Ascii List Bool Lia Sorted Permutation.
From Stdlib Require DecimalString DecimalZ DecimalPos QArith.
From stdpp Require Import base decidable option list gmap strings sorting.

Open Scope string_scope.
Open Scope Z_scope.

#[local] Set Warnings "-clear-no-such-hyp".

(** ** Python string primitives *)

Module PyStr.

Definition lower_ascii (c : ascii) : ascii :=
  let n := nat_of_ascii c in
  if (Nat.leb 65 n && Nat.leb n 90)%bool then ascii_of_nat (n + 32) else c.

(** [s.lower()] *)
Fixpoint lower (s : string) : string :=
  match s with
  | EmptyString => EmptyString
  | String c r => String (lower_ascii c) (lower r)
  end.

(** [s.startswith(p)] *)
Definition startswith (s p : string) : bool := String.prefix p s.

(** [s[n:]] for a non-negative literal [n] *)
Fixpoint drop (n : nat) (s : string) : string :=
  match n, s with
  | O, _ => s
  | S _, EmptyString => EmptyString
  | S k, String _ r => drop k r
  end.

(** [sub in s] *)
Fixpoint contains (s sub : string) : bool :=
  if String.prefix sub s then true
  else match s with
       | EmptyString => false
       | String _ r => contains r sub
       end.

Definition is_digit (c : ascii) : bool :=
  let n := nat_of_ascii c in (Nat.leb 48 n && Nat.leb n 57)%bool.

(** [s.rstrip('0123456789')] *)
Fixpoint rstrip_digits (s : string) : string :=
  match s with
  | EmptyString => EmptyString
  | String c r =>
      match rstrip_digits r with
      | EmptyString => if is_digit c then EmptyString else String c EmptyString
      | r' => String c r'
      end
  end.

(** [sep.join(parts)] *)
Definition join (sep : string) (parts : list string) : string :=
  String.concat sep parts.

(** [len(s)] *)
Definition len (s : string) : Z := Z.of_nat (String.length s).

End PyStr.

(** ** Python list slicing [l[a:b]], with Python's treatment of negative and
    out-of-range bounds. *)

Definition py_index_norm (len i : Z) : Z :=
  if i <? 0 then Z.max 0 (i + len) else Z.min i len.

Definition py_slice {A} (l : list A) (a b : Z) : list A :=
  let n := Z.of_nat (length l) in
  let a' := py_index_norm n a in
  let b' := py_index_norm n b in
  take (Z.to_nat (b' - a')) (drop (Z.to_nat a') l).

(** ** The chunk record ([TypeScriptChunk]) *)

Record TypeScriptChunk := mkChunk {
  content : string;
  chunk_type : string;
  name : string;
  start_line : Z;
  end_line : Z;
  file_path : string;
  language : string;
  module_path : option string;
  class_name : option string;
  imports : list string;
  exports : list string;
  type_parameters : list string;
  decorators : list string;
  calls : gset string;
  extends : gset string;
  implements : gset string;
  uses_types : gset string;
  ecs_component : bool;
  ecs_system : bool;
  webxr_api_usage : gset string;
  three_js_usage : gset string;
  semantic_labels : gset string;
  (** the [metadata] attribute that [_merge_chunks] attaches dynamically:
      [(merged_count, original_chunks)] *)
  metadata : option (Z * list string)
}.

(** The dataclass constructor as the code calls it: the seven positional
    fields and [imports]; every other field takes its default. *)
Definition new_chunk (content chunk_type name : string) (start_line end_line : Z)
    (file_path language : string) (imports : list string) : TypeScriptChunk :=
  {| content := content; chunk_type := chunk_type; name := name;
     start_line := start_line; end_line := end_line;
     file_path := file_path; language := language;
     module_path := None; class_name := None;
     imports := imports; exports := []; type_parameters := []; decorators := [];
     calls := ∅; extends := ∅; implements := ∅; uses_types := ∅;
     ecs_component := false; ecs_system := false;
     webxr_api_usage := ∅; three_js_usage := ∅;
     semantic_labels := ∅; metadata := None |}.

Definition set_calls (s : gset string) (c : TypeScriptChunk) : TypeScriptChunk :=
  {| content := content c; chunk_type := chunk_type c; name := name c;
     start_line := start_line c; end_line := end_line c;
     file_path := file_path c; language := language c;
     module_path := module_path c; class_name := class_name c;
     imports := imports c; exports := exports c;
     type_parameters := type_parameters c; decorators := decorators c;
     calls := s; extends := extends c; implements := implements c;
     uses_types := uses_types c;
     ecs_component := ecs_component c; ecs_system := ecs_system c;
     webxr_api_usage := webxr_api_usage c; three_js_usage := three_js_usage c;
     semantic_labels := semantic_labels c; metadata := metadata c |}.

Definition set_extends (s : gset string) (c : TypeScriptChunk) : TypeScriptChunk :=
  {| content := content c; chunk_type := chunk_type c; name := name c;
     start_line := start_line c; end_line := end_line c;
     file_path := file_path c; language := language c;
     module_path := module_path c; class_name := class_name c;
     imports := imports c; exports := exports c;
     type_parameters := type_parameters c; decorators := decorators c;
     calls := calls c; extends := s; implements := implements c;
     uses_types := uses_types c;
     ecs_component := ecs_component c; ecs_system := ecs_system c;
     webxr_api_usage := webxr_api_usage c; three_js_usage := three_js_usage c;
     semantic_labels := semantic_labels c; metadata := metadata c |}.

Definition set_implements (s : gset string) (c : TypeScriptChunk) : TypeScriptChunk :=
  {| content := content c; chunk_type := chunk_type c; name := name c;
     start_line := start_line c; end_line := end_line c;
     file_path := file_path c; language := language c;
     module_path := module_path c; class_name := class_name c;
     imports := imports c; exports := exports c;
     type_parameters := type_parameters c; decorators := decorators c;
     calls := calls c; extends := extends c; implements := s;
     uses_types := uses_types c;
     ecs_component := ecs_component c; ecs_system := ecs_system c;
     webxr_api_usage := webxr_api_usage c; three_js_usage := three_js_usage c;
     semantic_labels := semantic_labels c; metadata := metadata c |}.

Definition set_uses_types (s : gset string) (c : TypeScriptChunk) : TypeScriptChunk :=
  {| content := content c; chunk_type := chunk_type c; name := name c;
     start_line := start_line c; end_line := end_line c;
     file_path := file_path c; language := language c;
     module_path := module_path c; class_name := class_name c;
     imports := imports c; exports := exports c;
     type_parameters := type_parameters c; decorators := decorators c;
     calls := calls c; extends := extends c; implements := implements c;
     uses_types := s;
     ecs_component := ecs_component c; ecs_system := ecs_system c;
     webxr_api_usage := webxr_api_usage c; three_js_usage := three_js_usage c;
     semantic_labels := semantic_labels c; metadata := metadata c |}.

Definition set_ecs_component (b : bool) (c : TypeScriptChunk) : TypeScriptChunk :=
  {| content := content c; chunk_type := chunk_type c; name := name c;
     start_line := start_line c; end_line := end_line c;
     file_path := file_path c; language := language c;
     module_path := module_path c; class_name := class_name c;
     imports := imports c; exports := exports c;
     type_parameters := type_parameters c; decorators := decorators c;
     calls := calls c; extends := extends c; implements := implements c;
     uses_types := uses_types c;
     ecs_component := b; ecs_system := ecs_system c;
     webxr_api_usage := webxr_api_usage c; three_js_usage := three_js_usage c;
     semantic_labels := semantic_labels c; metadata := metadata c |}.

Definition set_ecs_system (b : bool) (c : TypeScriptChunk) : TypeScriptChunk :=
  {| content := content c; chunk_type := chunk_type c; name := name c;
     start_line := start_line c; end_line := end_line c;
     file_path := file_path c; language := language c;
     module_path := module_path c; class_name := class_name c;
     imports := imports c; exports := exports c;
     type_parameters := type_parameters c; decorators := decorators c;
     calls := calls c; extends := extends c; implements := implements c;
     uses_types := uses_types c;
     ecs_component := ecs_component c; ecs_system := b;
     webxr_api_usage := webxr_api_usage c; three_js_usage := three_js_usage c;
     semantic_labels := semantic_labels c; metadata := metadata c |}.

Definition set_webxr_api_usage (s : gset string) (c : TypeScriptChunk) : TypeScriptChunk :=
  {| content := content c; chunk_type := chunk_type c; name := name c;
     start_line := start_line c; end_line := end_line c;
     file_path := file_path c; language := language c;
     module_path := module_path c; class_name := class_name c;
     imports := imports c; exports := exports c;
     type_parameters := type_parameters c; decorators := decorators c;
     calls := calls c; extends := extends c; implements := implements c;
     uses_types := uses_types c;
     ecs_component := ecs_component c; ecs_system := ecs_system c;
     webxr_api_usage := s; three_js_usage := three_js_usage c;
     semantic_labels := semantic_labels c; metadata := metadata c |}.

Definition set_three_js_usage (s : gset string) (c : TypeScriptChunk) : TypeScriptChunk :=
  {| content := content c; chunk_type := chunk_type c; name := name c;
     start_line := start_line c; end_line := end_line c;
     file_path := file_path c; language := language c;
     module_path := module_path c; class_name := class_name c;
     imports := imports c; exports := exports c;
     type_parameters := type_parameters c; decorators := decorators c;
     calls := calls c; extends := extends c; implements := implements c;
     uses_types := uses_types c;
     ecs_component := ecs_component c; ecs_system := ecs_system c;
     webxr_api_usage := webxr_api_usage c; three_js_usage := s;
     semantic_labels := semantic_labels c; metadata := metadata c |}.

Definition set_semantic_labels (s : gset string) (c : TypeScriptChunk) : TypeScriptChunk :=
  {| content := content c; chunk_type := chunk_type c; name := name c;
     start_line := start_line c; end_line := end_line c;
     file_path := file_path c; language := language c;
     module_path := module_path c; class_name := class_name c;
     imports := imports c; exports := exports c;
     type_parameters := type_parameters c; decorators := decorators c;
     calls := calls c; extends := extends c; implements := implements c;
     uses_types := uses_types c;
     ecs_component := ecs_component c; ecs_system := ecs_system c;
     webxr_api_usage := webxr_api_usage c; three_js_usage := three_js_usage c;
     semantic_labels := s; metadata := metadata c |}.

Definition set_metadata (m : option (Z * list string)) (c : TypeScriptChunk) : TypeScriptChunk :=
  {| content := content c; chunk_type := chunk_type c; name := name c;
     start_line := start_line c; end_line := end_line c;
     file_path := file_path c; language := language c;
     module_path := module_path c; class_name := class_name c;
     imports := imports c; exports := exports c;
     type_parameters := type_parameters c; decorators := decorators c;
     calls := calls c; extends := extends c; implements := implements c;
     uses_types := uses_types c;
     ecs_component := ecs_component c; ecs_system := ecs_system c;
     webxr_api_usage := webxr_api_usage c; three_js_usage := three_js_usage c;
     semantic_labels := semantic_labels c; metadata := m |}.

(** [chunk.semantic_labels.add(l)] *)
Definition add_label (l : string) (c : TypeScriptChunk) : TypeScriptChunk :=
  set_semantic_labels (semantic_labels c ∪ {[ l ]}) c.

(** [chunk.end_line - chunk.start_line + 1] *)
Definition chunk_size (c : TypeScriptChunk) : Z := end_line c - start_line c + 1.

(** ** Chunking configuration ([ChunkingConfig]) *)

Record ChunkingConfig := mkConfig {
  MIN_CHUNK_SIZE : Z;
  MAX_CHUNK_SIZE : Z;
  TARGET_CHUNK_SIZE : Z;
  CONTEXT_LINES : Z
}.

Definition default_config : ChunkingConfig :=
  {| MIN_CHUNK_SIZE := 15; MAX_CHUNK_SIZE := 100;
     TARGET_CHUNK_SIZE := 50; CONTEXT_LINES := 3 |}.

(** ** The chunk-size optimizer ([ASTChunker]) *)

Definition newline : string := String (ascii_of_nat 10) EmptyString.

Definition lifecycle_prefixes : list string :=
  ["on"; "handle"; "init"; "update"; "cleanup"; "destroy"].

(** [ASTChunker._are_related]: the getter/setter tests return at once; the
    lifecycle loop and the base-name loop return [True] at their first hit. *)
Definition _are_related (name1 name2 : string) : bool :=
  let name1_lower := PyStr.lower name1 in
  let name2_lower := PyStr.lower name2 in
  if PyStr.startswith name1_lower "get" && PyStr.startswith name2_lower "set" then
    String.eqb (PyStr.drop 3 name1_lower) (PyStr.drop 3 name2_lower)
  else if PyStr.startswith name1_lower "set" && PyStr.startswith name2_lower "get" then
    String.eqb (PyStr.drop 3 name1_lower) (PyStr.drop 3 name2_lower)
  else if existsb (fun prefix =>
                     PyStr.startswith name1_lower prefix &&
                     PyStr.startswith name2_lower prefix) lifecycle_prefixes
  then true
  else if existsb (fun name =>
                     let base := PyStr.rstrip_digits name in
                     PyStr.contains name1_lower base &&
                     PyStr.contains name2_lower base) [name1_lower; name2_lower]
  then true
  else false.

(** [x in ['interface', 'type']] *)
Definition is_interface_or_type (t : string) : bool :=
  existsb (String.eqb t) ["interface"; "type"].

(** the set literal [{a, b}] of two indices *)
Definition pair_set (a b : nat) : gset nat := {[ a ]} ∪ {[ b ]}.

Section ASTChunker.

Variable config : ChunkingConfig.
(** [open(path, 'r').readlines()]; [None] when the read raises. *)
Variable read_lines : string -> option (list string).
(** the order in which [list(s)] enumerates a set *)
Variable set_order : gset string -> list string.

(** [ASTChunker._should_merge] *)
Definition _should_merge (chunk1 chunk2 : TypeScriptChunk) : bool :=
  if negb (String.eqb (file_path chunk1) (file_path chunk2)) then false
  else
    let gap := start_line chunk2 - end_line chunk1 in
    if gap >? 5 then false
    else
      let combined_size := end_line chunk2 - start_line chunk1 + 1 in
      if combined_size >? MAX_CHUNK_SIZE config then false
      else if String.eqb (chunk_type chunk1) (chunk_type chunk2)
              && (_are_related (name chunk1) (name chunk2)
                  || (String.eqb (chunk_type chunk1) "function"
                      && bool_decide (class_name chunk1 = class_name chunk2)))
      then true
      else if is_interface_or_type (chunk_type chunk1)
              && is_interface_or_type (chunk_type chunk2)
      then true
      else false.

(** [ASTChunker._merge_chunks] *)
Definition _merge_chunks (chunk1 chunk2 : TypeScriptChunk) : TypeScriptChunk :=
  let '(first, second) :=
    if start_line chunk1 <? start_line chunk2
    then (chunk1, chunk2) else (chunk2, chunk1) in
  let merged_content :=
    match read_lines (file_path first) with
    | Some lines =>
        let start_idx := start_line first - 1 in
        let end_idx := end_line second in
        PyStr.join "" (py_slice lines start_idx end_idx)
    | None => content first ++ newline ++ content second
    end in
  let merged :=
    new_chunk merged_content
      (chunk_type first ++ "_group")
      (name first ++ "_and_" ++ name second)
      (start_line first) (end_line second)
      (file_path first) (language first)
      (set_order (list_to_set (imports first ++ imports second))) in
  let merged := set_calls (calls first ∪ calls second) merged in
  let merged := set_extends (extends first ∪ extends second) merged in
  let merged := set_implements (implements first ∪ implements second) merged in
  let merged := set_uses_types (uses_types first ∪ uses_types second) merged in
  let merged :=
    set_semantic_labels (semantic_labels first ∪ semantic_labels second) merged in
  let merged := add_label "merged_chunk" merged in
  let merged := set_ecs_component (ecs_component first || ecs_component second) merged in
  let merged := set_ecs_system (ecs_system first || ecs_system second) merged in
  let merged :=
    set_webxr_api_usage (webxr_api_usage first ∪ webxr_api_usage second) merged in
  let merged :=
    set_three_js_usage (three_js_usage first ∪ three_js_usage second) merged in
  set_metadata (Some (2, [name first; name second])) merged.

(** [ASTChunker._expand_with_context] *)
Definition _expand_with_context (chunk : TypeScriptChunk) : TypeScriptChunk :=
  match read_lines (file_path chunk) with
  | None => chunk
  | Some lines =>
      let total_lines := Z.of_nat (length lines) in
      let current_size := end_line chunk - start_line chunk + 1 in
      let needed := MIN_CHUNK_SIZE config - current_size in
      let expand_before := needed / 2 in
      let expand_after := needed - expand_before in
      let new_start := Z.max 1 (start_line chunk - expand_before) in
      let new_end := Z.min total_lines (end_line chunk + expand_after) in
      let expanded_content := PyStr.join "" (py_slice lines (new_start - 1) new_end) in
      let expanded :=
        new_chunk expanded_content (chunk_type chunk) (name chunk)
          new_start new_end (file_path chunk) (language chunk) (imports chunk) in
      let expanded := set_calls (calls chunk) expanded in
      let expanded := set_extends (extends chunk) expanded in
      let expanded := set_implements (implements chunk) expanded in
      let expanded := set_uses_types (uses_types chunk) expanded in
      let expanded :=
        set_semantic_labels (semantic_labels chunk ∪ {[ "expanded_context" ]}) expanded in
      let expanded := set_ecs_component (ecs_component chunk) expanded in
      let expanded := set_ecs_system (ecs_system chunk) expanded in
      let expanded := set_webxr_api_usage (webxr_api_usage chunk) expanded in
      set_three_js_usage (three_js_usage chunk) expanded
  end.

(** [ASTChunker._try_merge_small_chunk]; [chunks[index]] is always in
    range at the call site. *)
Definition _try_merge_small_chunk (chunks : list TypeScriptChunk)
    (index : nat) (consumed : gset nat) : option (TypeScriptChunk * gset nat) :=
  match chunks !! index with
  | None => None
  | Some current =>
      let forward :=
        if bool_decide (index < length chunks - 1)%nat
           && bool_decide ((index + 1)%nat ∉ consumed)
        then
          match chunks !! (index + 1)%nat with
          | Some next_chunk =>
              if _should_merge current next_chunk
              then Some (_merge_chunks current next_chunk,
                         pair_set index (index + 1)%nat)
              else None
          | None => None
          end
        else None in
      match forward with
      | Some r => Some r
      | None =>
          if bool_decide (0 < index)%nat
             && bool_decide ((index - 1)%nat ∉ consumed)
          then
            match chunks !! (index - 1)%nat with
            | Some prev =>
                if _should_merge prev current
                then Some (_merge_chunks prev current,
                           pair_set (index - 1)%nat index)
                else None
            | None => None
            end
          else None
      end
  end.

(** The state of the scan in [_optimize_file_chunks].  [st_chunks] is the
    input list as a store: the oversized branch adds its label to the chunk
    object itself, so the list the scan reads later holds the labelled
    chunk. *)
Record scan_state := mkScan {
  st_chunks : list TypeScriptChunk;
  st_consumed : gset nat;
  st_optimized : list TypeScriptChunk
}.

(** One iteration of the [while] loop at index [i].  Every path through the
    loop body ends in [i += 1], so the loop visits [0, 1, ..., len-1] in
    turn. *)
Definition scan_step (st : scan_state) (i : nat) : scan_state :=
  if bool_decide (i ∈ st_consumed st) then st
  else
    match st_chunks st !! i with
    | None => st
    | Some chunk =>
        let chunk_size := end_line chunk - start_line chunk + 1 in
        if chunk_size <? MIN_CHUNK_SIZE config then
          match _try_merge_small_chunk (st_chunks st) i (st_consumed st) with
          | Some (merged_chunk, consumed_indices) =>
              mkScan (st_chunks st)
                     (st_consumed st ∪ consumed_indices)
                     (st_optimized st ++ [merged_chunk])
          | None =>
              let expanded := _expand_with_context chunk in
              mkScan (st_chunks st) (st_consumed st)
                     (st_optimized st ++ [expanded])
          end
        else if chunk_size >? MAX_CHUNK_SIZE config then
          let chunk' := add_label "large_chunk" chunk in
          mkScan (<[ i := chunk' ]> (st_chunks st))
                 (st_consumed st ∪ {[ i ]})
                 (st_optimized st ++ [chunk'])
        else
          mkScan (st_chunks st)
                 (st_consumed st ∪ {[ i ]})
                 (st_optimized st ++ [chunk])
    end.

Definition scan_init (chunks : list TypeScriptChunk) : scan_state :=
  mkScan chunks ∅ [].

Definition scan (chunks : list TypeScriptChunk) : scan_state :=
  fold_left scan_step (seq 0 (length chunks)) (scan_init chunks).

(** [ASTChunker._optimize_file_chunks]: the returned list. *)
Definition _optimize_file_chunks (chunks : list TypeScriptChunk)
  : list TypeScriptChunk :=
  st_optimized (scan chunks).

(** The validation at the end of [_optimize_file_chunks]:
    [len(consumed) != len(chunks)] triggers the warning, which prints
    [set(range(len(chunks))) - consumed]. *)
Definition consumed_after (chunks : list TypeScriptChunk) : gset nat :=
  st_consumed (scan chunks).

Definition validation_warns (chunks : list TypeScriptChunk) : bool :=
  negb (Nat.eqb (size (consumed_after chunks)) (length chunks)).

Definition unconsumed (chunks : list TypeScriptChunk) : gset nat :=
  list_to_set (seq 0 (length chunks)) ∖ consumed_after chunks.

(** [by_file]: the insertion-ordered dictionary from file path to the
    chunks of that file, in order of arrival. *)
Fixpoint by_file_add (by_file : list (string * list TypeScriptChunk))
    (chunk : TypeScriptChunk) : list (string * list TypeScriptChunk) :=
  match by_file with
  | [] => [(file_path chunk, [chunk])]
  | (k, v) :: rest =>
      if String.eqb k (file_path chunk)
      then (k, (v ++ [chunk])%list) :: rest
      else (k, v) :: by_file_add rest chunk
  end.

Definition group_by_file (chunks : list TypeScriptChunk)
  : list (string * list TypeScriptChunk) :=
  fold_left by_file_add chunks [].

(** [file_chunks.sort(key=lambda c: c.start_line)]: Python's sort is
    stable, and a stable sort has one result; insertion sort computes it. *)
Fixpoint insert_by_start (x : TypeScriptChunk) (l : list TypeScriptChunk)
  : list TypeScriptChunk :=
  match l with
  | [] => [x]
  | y :: r =>
      if start_line x <=? start_line y then x :: y :: r
      else y :: insert_by_start x r
  end.

Definition sort_by_start (l : list TypeScriptChunk) : list TypeScriptChunk :=
  foldr insert_by_start [] l.

(** [ASTChunker.optimize_chunks] *)
Definition optimize_chunks (chunks : list TypeScriptChunk)
  : list TypeScriptChunk :=
  match chunks with
  | [] => chunks
  | _ =>
      fold_left
        (fun optimized '(_, file_chunks) =>
           (optimized ++ _optimize_file_chunks (sort_by_start file_chunks))%list)
        (group_by_file chunks) []
  end.

End ASTChunker.

(** ** The parser ([TypeScriptParser]) over tree-sitter nodes *)

(** A tree-sitter node: its kind, byte span, row span and children; a child
    may carry a field name ([child_by_field_name]). *)
#[local] Set Warnings "-register-all".

Inductive Node : Type :=
  mkNode (type : string) (start_byte end_byte : nat) (start_row end_row : nat)
         (children : list (option string * Node)).

Definition node_type (n : Node) : string :=
  match n with mkNode t _ _ _ _ _ => t end.
Definition start_byte (n : Node) : nat :=
  match n with mkNode _ s _ _ _ _ => s end.
Definition end_byte (n : Node) : nat :=
  match n with mkNode _ _ e _ _ _ => e end.
Definition start_row (n : Node) : nat :=
  match n with mkNode _ _ _ r _ _ => r end.
Definition end_row (n : Node) : nat :=
  match n with mkNode _ _ _ _ r _ => r end.
Definition fielded_children (n : Node) : list (option string * Node) :=
  match n with mkNode _ _ _ _ _ c => c end.

(** [node.children] *)
Definition children (n : Node) : list Node := map snd (fielded_children n).

(** [node.child_by_field_name(f)] *)
Definition child_by_field_name (n : Node) (f : string) : option Node :=
  snd <$> List.find (fun fc => bool_decide (fst fc = Some f)) (fielded_children n).

(** [TypeScriptParser._get_node_text] for a present node:
    [source_code[node.start_byte:node.end_byte]] *)
Definition _get_node_text (node : Node) (source_code : string) : string :=
  String.substring (start_byte node) (end_byte node - start_byte node) source_code.

(** [TypeScriptParser._find_nodes_by_type]: the node itself when it matches,
    then the matches below each child, in order. *)
Fixpoint _find_nodes_by_type (node : Node) (ty : string) : list Node :=
  match node with
  | mkNode t _ _ _ _ cs =>
      (if String.eqb t ty then [node] else [])
      ++ (fix over_children (l : list (option string * Node)) : list Node :=
            match l with
            | [] => []
            | (_, child) :: r => _find_nodes_by_type child ty ++ over_children r
            end) cs
  end%list.

(** [chunk.extends.add(x)] *)
Definition add_extends (x : string) (c : TypeScriptChunk) : TypeScriptChunk :=
  set_extends (extends c ∪ {[ x ]}) c.

(** [chunk.implements.add(x)] *)
Definition add_implements (x : string) (c : TypeScriptChunk) : TypeScriptChunk :=
  set_implements (implements c ∪ {[ x ]}) c.

(** Body of the loop over [extends_node.children] in [_parse_class]. *)
Definition extends_child_step (source_code : string)
    (chunk : TypeScriptChunk) (child : Node) : TypeScriptChunk :=
  if existsb (String.eqb (node_type child)) ["identifier"; "type_identifier"] then
    let parent_class := _get_node_text child source_code in
    add_extends parent_class chunk
  else if String.eqb (node_type child) "call_expression" then
    match child_by_field_name child "function" with
    | Some func_node =>
        let func_name := _get_node_text func_node source_code in
        add_extends func_name chunk
    | None => chunk
    end
  else if String.eqb (node_type child) "member_expression" then
    let member_text := _get_node_text child source_code in
    add_extends member_text chunk
  else chunk.

(** Body of the loop over the heritage nodes in [_parse_class]. *)
Definition heritage_step (source_code : string)
    (chunk : TypeScriptChunk) (heritage : Node) : TypeScriptChunk :=
  let chunk :=
    fold_left
      (fun chunk extends_node =>
         fold_left (extends_child_step source_code) (children extends_node) chunk)
      (_find_nodes_by_type heritage "extends_clause") chunk in
  fold_left
    (fun chunk implements_node =>
       fold_left
         (fun chunk type_node =>
            add_implements (_get_node_text type_node source_code) chunk)
         (_find_nodes_by_type implements_node "type_identifier") chunk)
    (_find_nodes_by_type heritage "implements_clause") chunk.

(** [TypeScriptParser._detect_ecs_patterns] *)
Definition _detect_ecs_patterns (chunk : TypeScriptChunk) : TypeScriptChunk :=
  let content_lower := PyStr.lower (content chunk) in
  let chunk :=
    if PyStr.contains content_lower "implements component"
       || PyStr.contains content_lower "extends componentbase"
    then add_label "ecs_component" (set_ecs_component true chunk)
    else chunk in
  let chunk :=
    if PyStr.contains content_lower "extends system"
       || PyStr.contains content_lower "implements isystem"
       || bool_decide ("createSystem" ∈ extends chunk)
    then add_label "ecs_system" (set_ecs_system true chunk)
    else chunk in
  if PyStr.contains (PyStr.lower (name chunk)) "transform" then
    add_label "transform_component" chunk
  else if PyStr.contains (PyStr.lower (name chunk)) "physics" then
    add_label "physics_component" chunk
  else chunk.

Definition webxr_apis : list string :=
  ["XRSession"; "XRFrame"; "XRReferenceSpace"; "XRViewerPose";
   "XRInputSource"; "XRHand"; "requestSession"; "requestAnimationFrame"].

Definition threejs_patterns : list string :=
  ["THREE."; "Scene"; "Mesh"; "Material"; "Geometry"].

(** [TypeScriptParser._detect_webxr_patterns] *)
Definition _detect_webxr_patterns (chunk : TypeScriptChunk) : TypeScriptChunk :=
  let chunk :=
    fold_left
      (fun chunk api =>
         if PyStr.contains (content chunk) api
         then add_label "webxr_api"
                (set_webxr_api_usage (webxr_api_usage chunk ∪ {[ api ]}) chunk)
         else chunk)
      webxr_apis chunk in
  fold_left
    (fun chunk pattern =>
       if PyStr.contains (content chunk) pattern
       then add_label "threejs_usage"
              (set_three_js_usage (three_js_usage chunk ∪ {[ pattern ]}) chunk)
       else chunk)
    threejs_patterns chunk.

(** [TypeScriptParser._parse_class] *)
Definition _parse_class (class_node : Node) (source_code file_path language : string)
    (imports : list string) : TypeScriptChunk :=
  let name_node := child_by_field_name class_node "name" in
  let class_name :=
    match name_node with
    | Some n => _get_node_text n source_code
    | None => "UnknownClass"
    end in
  let content := _get_node_text class_node source_code in
  let chunk :=
    new_chunk content "class" class_name
      (Z.of_nat (start_row class_node) + 1) (Z.of_nat (end_row class_node) + 1)
      file_path language imports in
  let heritage_nodes := _find_nodes_by_type class_node "class_heritage" in
  let chunk := fold_left (heritage_step source_code) heritage_nodes chunk in
  let chunk := _detect_ecs_patterns chunk in
  _detect_webxr_patterns chunk.

(** ** Metadata for the vector store ([VectorStore._create_metadata]) *)

(** The values a Python metadata dictionary can hold. *)
Inductive MetaValue :=
| MStr (s : string)
| MInt (z : Z)
| MBool (b : bool)
| MList (l : list string).

Section VectorStore.

(** the order in which a set is enumerated by [",".join(s)] and [list(s)] *)
Variable set_order : gset string -> list string.
(** [Path(p).parts] of the standard library *)
Variable path_parts : string -> list string.

(** [parts[parts.index('src'):]] when ['src'] occurs in [parts] *)
Fixpoint from_src (parts : list string) : option (list string) :=
  match parts with
  | [] => None
  | p :: r => if String.eqb p "src" then Some parts else from_src r
  end.

Definition truthy (o : option string) : bool :=
  match o with
  | Some s => negb (String.eqb s "")
  | None => false
  end.

Definition set_nonempty (s : gset string) : bool := negb (bool_decide (s = ∅)).

(** [sorted(s)] on a set of strings *)
Definition sorted_strings (s : gset string) : list string :=
  merge_sort String.le (set_order s).

Definition put_if (b : bool) (k : string) (v : MetaValue)
    (m : gmap string MetaValue) : gmap string MetaValue :=
  if b then <[ k := v ]> m else m.

(** [VectorStore._create_metadata] *)
Definition _create_metadata (chunk : TypeScriptChunk) (source : option string)
  : gmap string MetaValue :=
  let file_parts := path_parts (file_path chunk) in
  let rel_path :=
    match from_src file_parts with
    | Some tail => PyStr.join "/" tail
    | None => file_path chunk
    end in
  let metadata : gmap string MetaValue :=
    <[ "size" := MInt (end_line chunk - start_line chunk + 1) ]>
    (<[ "language" := MStr (language chunk) ]>
    (<[ "end_line" := MInt (end_line chunk) ]>
    (<[ "start_line" := MInt (start_line chunk) ]>
    (<[ "file_path" := MStr rel_path ]>
    (<[ "name" := MStr (name chunk) ]>
    (<[ "chunk_type" := MStr (chunk_type chunk) ]> ∅)))))) in
  let metadata :=
    match source with
    | Some s => put_if (truthy source) "source" (MStr s) metadata
    | None => metadata
    end in
  let metadata :=
    match class_name chunk with
    | Some cn => put_if (truthy (class_name chunk)) "class_name" (MStr cn) metadata
    | None => metadata
    end in
  let metadata :=
    match module_path chunk with
    | Some mp => put_if (truthy (module_path chunk)) "module_path" (MStr mp) metadata
    | None => metadata
    end in
  let metadata :=
    put_if (set_nonempty (semantic_labels chunk)) "labels"
      (MStr (PyStr.join "," (sorted_strings (semantic_labels chunk)))) metadata in
  let metadata :=
    put_if (set_nonempty (extends chunk)) "extends"
      (MStr (PyStr.join "," (set_order (extends chunk)))) metadata in
  let metadata :=
    put_if (set_nonempty (implements chunk)) "implements"
      (MStr (PyStr.join "," (set_order (implements chunk)))) metadata in
  let metadata :=
    match imports chunk with
    | [] => metadata
    | _ =>
        let imports_str := PyStr.join "," (take 5 (imports chunk)) in
        put_if (PyStr.len imports_str <? 1000) "imports" (MStr imports_str) metadata
    end in
  let metadata :=
    if set_nonempty (calls chunk) then
      let calls_list := take 10 (set_order (calls chunk)) in
      let calls_str := PyStr.join "," calls_list in
      put_if (PyStr.len calls_str <? 1000) "calls" (MStr calls_str) metadata
    else metadata in
  let metadata :=
    if set_nonempty (webxr_api_usage chunk) then
      let webxr_list := take 5 (set_order (webxr_api_usage chunk)) in
      <[ "webxr_api" := MStr (PyStr.join "," webxr_list) ]> metadata
    else metadata in
  let metadata := <[ "ecs_component" := MBool (ecs_component chunk) ]> metadata in
  <[ "ecs_system" := MBool (ecs_system chunk) ]> metadata.

End VectorStore.

(** * Further embedded code *)

(** ** [str(n)] for a Python integer: its decimal numeral *)

Definition py_str (z : Z) : string :=
  DecimalString.NilZero.string_of_int (Z.to_int z).

(** ** The rest of the chunker: [analyze_chunks] *)

(** [ASTChunker._count_by_type] *)
Definition _count_by_type (chunks : list TypeScriptChunk) : gmap string Z :=
  fold_left
    (fun (counts : gmap string Z) chunk =>
       <[ chunk_type chunk := default 0 (counts !! chunk_type chunk) + 1 ]> counts)
    chunks ∅.

(** [min(sizes)] and [max(sizes)] on a non-empty list *)
Definition list_min (x : Z) (l : list Z) : Z := fold_left Z.min l x.
Definition list_max (x : Z) (l : list Z) : Z := fold_left Z.max l x.

(** [sum(1 for s in sizes if p(s))] *)
Definition count_if (p : Z -> bool) (l : list Z) : Z :=
  Z.of_nat (length (List.filter p l)).

(** The dictionary [analyze_chunks] returns.  [avg_size] is the exact
    quotient [sum(sizes) / len(sizes)], which Python rounds to a float. *)
Record ChunkStats := mkStats {
  total_chunks : Z;
  min_size : Z;
  max_size : Z;
  avg_size : QArith_base.Q;
  under_min : Z;
  over_max : Z;
  optimal : Z;
  by_type : gmap string Z
}.

(** [ASTChunker.analyze_chunks]; [None] is the empty dictionary returned for
    an empty list. *)
Definition analyze_chunks (config : ChunkingConfig)
    (chunks : list TypeScriptChunk) : option ChunkStats :=
  match chunks with
  | [] => None
  | c0 :: rest =>
      let sizes := map (fun c => end_line c - start_line c + 1) chunks in
      let s0 := end_line c0 - start_line c0 + 1 in
      let rest_sizes := map (fun c => end_line c - start_line c + 1) rest in
      Some {|
        total_chunks := Z.of_nat (length chunks);
        min_size := list_min s0 rest_sizes;
        max_size := list_max s0 rest_sizes;
        avg_size :=
          QArith_base.Qmake (fold_left Z.add sizes 0) (Pos.of_nat (length sizes));
        under_min := count_if (fun s => s <? MIN_CHUNK_SIZE config) sizes;
        over_max := count_if (fun s => s >? MAX_CHUNK_SIZE config) sizes;
        optimal :=
          count_if (fun s => (MIN_CHUNK_SIZE config <=? s)
                             && (s <=? MAX_CHUNK_SIZE config)) sizes;
        by_type := _count_by_type chunks
      |}
  end.

(** ** The rest of the parser *)

(** [chunk.calls.add(x)] *)
Definition add_calls (x : string) (c : TypeScriptChunk) : TypeScriptChunk :=
  set_calls (calls c ∪ {[ x ]}) c.

(** [TypeScriptParser._extract_function_calls] *)
Definition _extract_function_calls (node : Node) (source_code : string)
    (chunk : TypeScriptChunk) : TypeScriptChunk :=
  fold_left
    (fun chunk call_node =>
       match child_by_field_name call_node "function" with
       | Some func_node => add_calls (_get_node_text func_node source_code) chunk
       | None => chunk
       end)
    (_find_nodes_by_type node "call_expression") chunk.

(** [TypeScriptParser._extract_imports] *)
Definition _extract_imports (root_node : Node) (source_code : string)
  : list string :=
  map (fun import_node => _get_node_text import_node source_code)
      (_find_nodes_by_type root_node "import_statement").

(** [TypeScriptParser._extract_exports] *)
Definition _extract_exports (root_node : Node) (source_code : string)
  : list string :=
  map (fun export_node => _get_node_text export_node source_code)
      (_find_nodes_by_type root_node "export_statement").

(** [TypeScriptParser._find_top_level_functions] *)
Definition _find_top_level_functions (root_node : Node) : list Node :=
  fold_left
    (fun functions child =>
       if existsb (String.eqb (node_type child))
            ["function_declaration"; "function"; "export_statement"]
       then
         if String.eqb (node_type child) "export_statement"
         then
           fold_left
             (fun functions subchild =>
                if String.eqb (node_type subchild) "function_declaration"
                then (functions ++ [subchild])%list else functions)
             (children child) functions
         else (functions ++ [child])%list
       else functions)
    (children root_node) [].

(** [TypeScriptParser._parse_function] *)
Definition _parse_function (func_node : Node)
    (source_code file_path language : string) (imports : list string)
  : TypeScriptChunk :=
  let name_node := child_by_field_name func_node "name" in
  let func_name :=
    match name_node with
    | Some n => _get_node_text n source_code
    | None => "anonymous"
    end in
  let content := _get_node_text func_node source_code in
  let chunk :=
    new_chunk content "function" func_name
      (Z.of_nat (start_row func_node) + 1) (Z.of_nat (end_row func_node) + 1)
      file_path language imports in
  let chunk := _extract_function_calls func_node source_code chunk in
  _detect_webxr_patterns chunk.

(** [TypeScriptParser._parse_interface] *)
Definition _parse_interface (interface_node : Node)
    (source_code file_path language : string) : TypeScriptChunk :=
  let name_node := child_by_field_name interface_node "name" in
  let interface_name :=
    match name_node with
    | Some n => _get_node_text n source_code
    | None => "UnknownInterface"
    end in
  let content := _get_node_text interface_node source_code in
  let chunk :=
    new_chunk content "interface" interface_name
      (Z.of_nat (start_row interface_node) + 1)
      (Z.of_nat (end_row interface_node) + 1)
      file_path language [] in
  let heritage_nodes := _find_nodes_by_type interface_node "extends_type_clause" in
  fold_left
    (fun chunk heritage =>
       fold_left
         (fun chunk type_node =>
            add_extends (_get_node_text type_node source_code) chunk)
         (_find_nodes_by_type heritage "type_identifier") chunk)
    heritage_nodes chunk.

(** [TypeScriptParser._parse_type_alias] *)
Definition _parse_type_alias (type_node : Node)
    (source_code file_path language : string) : TypeScriptChunk :=
  let name_node := child_by_field_name type_node "name" in
  let type_name :=
    match name_node with
    | Some n => _get_node_text n source_code
    | None => "UnknownType"
    end in
  let content := _get_node_text type_node source_code in
  new_chunk content "type" type_name
    (Z.of_nat (start_row type_node) + 1) (Z.of_nat (end_row type_node) + 1)
    file_path language [].

(** [_find_nodes_by_type] with each match paired with its [parent] in the
    tree that is searched; the root has none. *)
Fixpoint find_with_parent (parent : option Node) (node : Node) (ty : string)
  : list (option Node * Node) :=
  match node with
  | mkNode t _ _ _ _ cs =>
      (if String.eqb t ty then [(parent, node)] else [])
      ++ (fix over_children (l : list (option string * Node))
            : list (option Node * Node) :=
            match l with
            | [] => []
            | (_, child) :: r =>
                find_with_parent (Some node) child ty ++ over_children r
            end) cs
  end%list.

(** Body of the loop over the declarators in
    [_extract_ecs_factory_patterns]: the chunk appended for one declarator,
    or [None] where the code says [continue]. *)
Definition factory_chunk (source_code file_path language : string)
    (imports : list string) (parent : option Node) (var_statement : Node)
    (declarator : Node) : option TypeScriptChunk :=
  match child_by_field_name declarator "name" with
  | None => None
  | Some name_node =>
      let var_name := _get_node_text name_node source_code in
      match child_by_field_name declarator "value" with
      | None => None
      | Some value_node =>
          if negb (String.eqb (node_type value_node) "call_expression") then None
          else
            match child_by_field_name value_node "function" with
            | None => None
            | Some func_node =>
                let func_name := _get_node_text func_node source_code in
                let is_component := PyStr.contains func_name "createComponent" in
                let is_system := PyStr.contains func_name "createSystem" in
                if negb (is_component || is_system) then None
                else
                  let content_node :=
                    match parent with
                    | Some p =>
                        if String.eqb (node_type p) "export_statement"
                        then p else var_statement
                    | None => var_statement
                    end in
                  let content := _get_node_text content_node source_code in
                  let chunk :=
                    new_chunk content
                      (if is_component then "component" else "system")
                      var_name
                      (Z.of_nat (start_row content_node) + 1)
                      (Z.of_nat (end_row content_node) + 1)
                      file_path language imports in
                  let chunk :=
                    if is_component
                    then add_extends "Component"
                           (add_label "ecs_component"
                              (set_ecs_component true chunk))
                    else add_extends "System"
                           (add_label "ecs_system" (set_ecs_system true chunk)) in
                  let chunk :=
                    _extract_function_calls value_node source_code chunk in
                  Some (_detect_webxr_patterns chunk)
            end
      end
  end.

(** [TypeScriptParser._extract_ecs_factory_patterns] *)
Definition _extract_ecs_factory_patterns (root_node : Node)
    (source_code file_path language : string) (imports : list string)
  : list TypeScriptChunk :=
  fold_left
    (fun chunks '(parent, var_statement) =>
       fold_left
         (fun chunks declarator =>
            match factory_chunk source_code file_path language imports
                    parent var_statement declarator with
            | Some chunk => (chunks ++ [chunk])%list
            | None => chunks
            end)
         (_find_nodes_by_type var_statement "variable_declarator") chunks)
    (find_with_parent None root_node "lexical_declaration") [].

(** What [parse_file] returns or raises. *)
Inductive ParseResult :=
| FileNotFoundError
| ValueError (suffix : string)
| Parsed (chunks : list TypeScriptChunk).

Section ParseFile.

(** the file's bytes when [path.exists()], else [None] *)
Variable file_bytes : string -> option string.
(** [Path(p).suffix] *)
Variable path_suffix : string -> string.
(** [parser.parse(source_code).root_node] for the two grammars *)
Variable ts_parse : string -> Node.
Variable js_parse : string -> Node.

(** The extraction passes of [parse_file] on a parsed tree, in the order the
    code runs them. *)
Definition extract_chunks (root_node : Node)
    (source_code file_path language : string) : list TypeScriptChunk :=
  let imports := _extract_imports root_node source_code in
  let exports := _extract_exports root_node source_code in
  let chunks :=
    map (fun class_node =>
           _parse_class class_node source_code file_path language imports)
        (_find_nodes_by_type root_node "class_declaration") in
  let chunks :=
    (chunks ++
     map (fun func_node =>
            _parse_function func_node source_code file_path language imports)
         (_find_top_level_functions root_node))%list in
  let chunks :=
    (chunks ++
     map (fun interface_node =>
            _parse_interface interface_node source_code file_path language)
         (_find_nodes_by_type root_node "interface_declaration"))%list in
  let chunks :=
    (chunks ++
     map (fun type_node =>
            _parse_type_alias type_node source_code file_path language)
         (_find_nodes_by_type root_node "type_alias_declaration"))%list in
  (chunks ++
   _extract_ecs_factory_patterns root_node source_code file_path language
     imports)%list.

(** [TypeScriptParser.parse_file] *)
Definition parse_file (file_path : string) : ParseResult :=
  match file_bytes file_path with
  | None => FileNotFoundError
  | Some source_code =>
      let suffix := path_suffix file_path in
      if String.eqb suffix ".ts" || String.eqb suffix ".tsx" then
        Parsed (extract_chunks (ts_parse source_code) source_code
                  file_path "typescript")
      else if String.eqb suffix ".js" || String.eqb suffix ".jsx" then
        Parsed (extract_chunks (js_parse source_code) source_code
                  file_path "javascript")
      else ValueError suffix
  end.

End ParseFile.

(** ** The rest of the vector store: ids and [add_chunks] *)

Section VectorStoreIds.

(** [Path(p).parts] and [Path(p).name] of the standard library *)
Variable path_parts : string -> list string.
Variable path_name : string -> string.

(** [VectorStore._generate_id] *)
Definition _generate_id (chunk : TypeScriptChunk) (index : nat)
    (source : option string) : string :=
  let file_parts := path_parts (file_path chunk) in
  let rel_path :=
    match from_src file_parts with
    | Some tail => PyStr.join "/" tail
    | None => path_name (file_path chunk)
    end in
  let source_prefix :=
    match source with
    | Some s => if truthy source then s ++ ":" else ""
    | None => ""
    end in
  let chunk_id :=
    source_prefix ++ rel_path ++ ":" ++ chunk_type chunk ++ ":" ++ name chunk
    ++ ":L" ++ py_str (start_line chunk) in
  chunk_id ++ ":" ++ py_str (Z.of_nat index).

End VectorStoreIds.

(** What [add_chunks] does: raise, return at once, or hand one batch to the
    collection. *)
Inductive AddResult (W : Type) :=
| AddValueError
| AddNothing
| AddBatch (ids : list string) (vectors : list W)
           (metadatas : list (gmap string MetaValue)) (documents : list string).

Arguments AddValueError {W}.
Arguments AddNothing {W}.
Arguments AddBatch {W} ids vectors metadatas documents.

Section AddChunks.

Variable set_order : gset string -> list string.
Variable path_parts : string -> list string.
Variable path_name : string -> string.
(** embeddings and [embedding.tolist()] *)
Context {V W : Type}.
Variable tolist : V -> W.

(** The four lists the loop of [add_chunks] fills. *)
Definition add_loop_step (source : option string)
    (acc : list string * list W * list (gmap string MetaValue) * list string)
    (item : nat * (TypeScriptChunk * V))
  : list string * list W * list (gmap string MetaValue) * list string :=
  let '(ids, vectors, metadatas, documents) := acc in
  let '(i, (chunk, embedding)) := item in
  ((ids ++ [_generate_id path_parts path_name chunk i source])%list,
   (vectors ++ [tolist embedding])%list,
   (metadatas ++ [_create_metadata set_order path_parts chunk source])%list,
   (documents ++ [content chunk])%list).

(** [enumerate(l)] *)
Definition enumerate {A} (l : list A) : list (nat * A) :=
  combine (seq 0 (length l)) l.

(** [VectorStore.add_chunks] *)
Definition add_chunks (chunks : list TypeScriptChunk) (embeddings : list V)
    (source : option string) : AddResult W :=
  if negb (Nat.eqb (length chunks) (length embeddings)) then AddValueError
  else
    match chunks with
    | [] => AddNothing
    | _ =>
        let '(ids, vectors, metadatas, documents) :=
          fold_left (add_loop_step source)
            (enumerate (combine chunks embeddings)) ([], [], [], []) in
        AddBatch ids vectors metadatas documents
    end.

End AddChunks.

(** * Specification vocabulary and scenarios *)

(** ** Merging *)

(** The pair the code calls [(first, second)]. *)
Definition merge_first (a b : TypeScriptChunk) : TypeScriptChunk :=
  if start_line a <? start_line b then a else b.

Definition merge_second (a b : TypeScriptChunk) : TypeScriptChunk :=
  if start_line a <? start_line b then b else a.

(** A file whose lines are unavailable, used by the concrete scenarios. *)
Definition unreadable : string -> option (list string) := fun _ => None.

(** A short class and a class declared inside one of its methods. *)
Definition outer_class : TypeScriptChunk :=
  new_chunk "" "class" "Outer" 1 10 "a.ts" "typescript" [].

Definition inner_class : TypeScriptChunk :=
  new_chunk "" "class" "OuterInner" 3 5 "a.ts" "typescript" [].

(** A three-line function, alone in a file that can no longer be read. *)
Definition tiny_function : TypeScriptChunk :=
  new_chunk "function f() {}" "function" "f" 4 6 "gone.ts" "typescript" [].

(** ** ECS detection *)

(** A class whose name carries both name markers and whose content carries
    no ECS marker. *)
Definition transform_physics_class : TypeScriptChunk :=
  new_chunk "" "class" "TransformPhysics" 1 1 "a.ts" "typescript" [].

(** The flags after detection are a function of the earlier flags, the
    content and [extends]; the chunk's name plays no part. *)
Definition component_marker (chunk : TypeScriptChunk) : bool :=
  PyStr.contains (PyStr.lower (content chunk)) "implements component"
  || PyStr.contains (PyStr.lower (content chunk)) "extends componentbase".

Definition system_marker (chunk : TypeScriptChunk) : bool :=
  PyStr.contains (PyStr.lower (content chunk)) "extends system"
  || PyStr.contains (PyStr.lower (content chunk)) "implements isystem"
  || bool_decide ("createSystem" ∈ extends chunk).

(** The name heuristics as the specification words them: each matching name
    sets an ECS flag and adds its label, the two heuristics independently. *)
Definition name_heuristics_as_specified (chunk : TypeScriptChunk) : Prop :=
  let name_lower := PyStr.lower (name chunk) in
  let chunk' := _detect_ecs_patterns chunk in
  (PyStr.contains name_lower "transform" = true ->
   (ecs_component chunk' = true \/ ecs_system chunk' = true) /\
   "transform_component" ∈ semantic_labels chunk') /\
  (PyStr.contains name_lower "physics" = true ->
   (ecs_component chunk' = true \/ ecs_system chunk' = true) /\
   "physics_component" ∈ semantic_labels chunk').

(** ** Merge eligibility *)

(** One name starts with [get] and the other with [set] (lower-cased). *)
Definition getter_setter_shape (name1 name2 : string) : Prop :=
  (PyStr.startswith (PyStr.lower name1) "get" = true /\
   PyStr.startswith (PyStr.lower name2) "set" = true) \/
  (PyStr.startswith (PyStr.lower name1) "set" = true /\
   PyStr.startswith (PyStr.lower name2) "get" = true).

(** The lower-cased names agree after their first three characters. *)
Definition same_remainder (name1 name2 : string) : Prop :=
  PyStr.drop 3 (PyStr.lower name1) = PyStr.drop 3 (PyStr.lower name2).

(** Both lower-cased names start with the same lifecycle prefix. *)
Definition shared_lifecycle_prefix (name1 name2 : string) : Prop :=
  exists prefix, In prefix lifecycle_prefixes /\
    PyStr.startswith (PyStr.lower name1) prefix = true /\
    PyStr.startswith (PyStr.lower name2) prefix = true.

(** Either lower-cased name, trailing digits stripped, occurs in both
    lower-cased names. *)
Definition shared_base_name (name1 name2 : string) : Prop :=
  exists n, In n [PyStr.lower name1; PyStr.lower name2] /\
    PyStr.contains (PyStr.lower name1) (PyStr.rstrip_digits n) = true /\
    PyStr.contains (PyStr.lower name2) (PyStr.rstrip_digits n) = true.

(** Relatedness of names as the specification words it: a getter/setter
    pair or a shared lifecycle prefix. *)
Definition related_names_as_specified (name1 name2 : string) : Prop :=
  (getter_setter_shape name1 name2 /\ same_remainder name1 name2) \/
  shared_lifecycle_prefix name1 name2.

(** Relatedness of names as the code decides it: a get/set pair is judged
    on its remainders alone; any other pair by lifecycle prefix or base
    name. *)
Definition related_names (name1 name2 : string) : Prop :=
  (getter_setter_shape name1 name2 /\ same_remainder name1 name2) \/
  (~ getter_setter_shape name1 name2 /\
   (shared_lifecycle_prefix name1 name2 \/ shared_base_name name1 name2)).

(** Merge eligibility for a given notion of related names. *)
Definition eligible_with (config : ChunkingConfig)
    (related : string -> string -> Prop)
    (a b : TypeScriptChunk) : Prop :=
  file_path a = file_path b /\
  start_line b - end_line a <= 5 /\
  end_line b - start_line a + 1 <= MAX_CHUNK_SIZE config /\
  ((chunk_type a = chunk_type b /\
    (related (name a) (name b) \/
     (chunk_type a = "function" /\ class_name a = class_name b))) \/
   (In (chunk_type a) ["interface"; "type"] /\
    In (chunk_type b) ["interface"; "type"])).

Definition merge_eligible_as_specified (config : ChunkingConfig) :=
  eligible_with config related_names_as_specified.

Definition merge_eligible (config : ChunkingConfig) :=
  eligible_with config related_names.

(** Two adjacent classes whose names share a base name only. *)
Definition class_foo : TypeScriptChunk :=
  new_chunk "" "class" "Foo" 1 5 "a.ts" "typescript" [].

Definition class_foobar : TypeScriptChunk :=
  new_chunk "" "class" "FooBar" 7 10 "a.ts" "typescript" [].

(** ** Metadata *)

(** [Path(p).parts] for a relative POSIX path without [.] components: the
    components between slashes. *)
Fixpoint split_slash (acc : string) (s : string) : list string :=
  match s with
  | EmptyString => if String.eqb acc "" then [] else [acc]
  | String c r =>
      if Ascii.eqb c "/"%char
      then (if String.eqb acc "" then [] else [acc]) ++ split_slash "" r
      else split_slash (acc ++ String c EmptyString) r
  end%list.

Definition posix_parts (p : string) : list string := split_slash "" p.

(** The metadata keys that carry a relationship set. *)
Definition relationship_keys : list string :=
  ["extends"; "implements"; "calls"; "imports"; "webxr_api"].

(** A string of [n] copies of the letter [B]. *)
Fixpoint long_name (n : nat) : string :=
  match n with
  | O => EmptyString
  | S k => String "B"%char (long_name k)
  end.

(** A class chunk with one base, one call and one import. *)
Definition system_class : TypeScriptChunk :=
  set_calls {[ "init" ]}
    (set_extends {[ "createSystem" ]}
       (new_chunk "" "class" "Mover" 1 20 "src/ecs/mover.ts" "typescript"
          ["import { createSystem } from 'elics';"])).

(** A chunk that extends one base class with a name of [n] letters. *)
Definition long_heritage (n : nat) : TypeScriptChunk :=
  set_extends {[ long_name n ]}
    (new_chunk "" "class" "Foo" 1 20 "a.ts" "typescript" []).

(** ** Heritage resolution *)

(** What one child of an [extends_clause] contributes to [extends], as the
    specification words it. *)
Definition extends_contribution (source_code : string) (child : Node)
  : option string :=
  if String.eqb (node_type child) "identifier"
     || String.eqb (node_type child) "type_identifier"
  then Some (_get_node_text child source_code)
  else if String.eqb (node_type child) "call_expression"
  then (fun callee => _get_node_text callee source_code)
         <$> child_by_field_name child "function"
  else if String.eqb (node_type child) "member_expression"
  then Some (_get_node_text child source_code)
  else None.

(** What one heritage node contributes to [extends]. *)
Definition heritage_contributes (source_code : string)
    (heritage : Node) (x : string) : Prop :=
  exists extends_node child,
    In extends_node (_find_nodes_by_type heritage "extends_clause") /\
    In child (children extends_node) /\
    extends_contribution source_code child = Some x.

(** *** Heritage scenarios

    The syntax trees tree-sitter's TypeScript grammar builds for the two
    literal scenarios (single-line sources, so every row is 0). *)

(** A node without children. *)
Definition leaf (type : string) (start_byte end_byte : nat) : Node :=
  mkNode type start_byte end_byte 0 0 [].

Definition factory_source : string := "class Foo extends createSystem(Base) {}".

Definition factory_class : Node :=
  mkNode "class_declaration" 0 39 0 0
    [ (None, leaf "class" 0 5);
      (Some "name", leaf "type_identifier" 6 9);
      (None,
       mkNode "class_heritage" 10 36 0 0
         [ (None,
            mkNode "extends_clause" 10 36 0 0
              [ (None, leaf "extends" 10 17);
                (Some "value",
                 mkNode "call_expression" 18 36 0 0
                   [ (Some "function", leaf "identifier" 18 30);
                     (Some "arguments",
                      mkNode "arguments" 30 36 0 0
                        [ (None, leaf "(" 30 31);
                          (None, leaf "identifier" 31 35);
                          (None, leaf ")" 35 36) ]) ]) ]) ]);
      (Some "body",
       mkNode "class_body" 37 39 0 0
         [ (None, leaf "{" 37 38); (None, leaf "}" 38 39) ]) ].

Definition qualified_source : string := "class Foo extends Three.Group {}".

Definition qualified_class : Node :=
  mkNode "class_declaration" 0 32 0 0
    [ (None, leaf "class" 0 5);
      (Some "name", leaf "type_identifier" 6 9);
      (None,
       mkNode "class_heritage" 10 29 0 0
         [ (None,
            mkNode "extends_clause" 10 29 0 0
              [ (None, leaf "extends" 10 17);
                (Some "value",
                 mkNode "member_expression" 18 29 0 0
                   [ (Some "object", leaf "identifier" 18 23);
                     (None, leaf "." 23 24);
                     (Some "property", leaf "property_identifier" 24 29) ]) ]) ]);
      (Some "body",
       mkNode "class_body" 30 32 0 0
         [ (None, leaf "{" 30 31); (None, leaf "}" 31 32) ]) ].

(** ** Well-sized lists *)

(** [MIN_CHUNK_SIZE <= size <= MAX_CHUNK_SIZE] *)
Definition in_band (config : ChunkingConfig) (c : TypeScriptChunk) : Prop :=
  MIN_CHUNK_SIZE config <= chunk_size c <= MAX_CHUNK_SIZE config.

(** Ascending by start line, each chunk against all later ones. *)
Definition ascending (l : list TypeScriptChunk) : Prop :=
  StronglySorted (fun a b => start_line a <= start_line b) l.

(** The keys of the grouping dictionary. *)
Definition keys (g : list (string * list TypeScriptChunk)) : list string :=
  map fst g.

(** One file's block: non-empty, all of that file, ascending by start line. *)
Definition block_of (f : string) (b : list TypeScriptChunk) : Prop :=
  b ≠ [] /\ Forall (fun c => file_path c = f) b /\ ascending b.

(** Two well-sized classes of one file. *)
Definition late_class : TypeScriptChunk :=
  new_chunk "" "class" "B" 100 120 "a.ts" "typescript" [].

Definition early_class : TypeScriptChunk :=
  new_chunk "" "class" "A" 1 20 "a.ts" "typescript" [].

(** ** Provenance of the optimizer's output *)

(** How an output chunk came about. *)
Inductive origin := Merge | Expand | PassThrough.

(** The provenance of what one loop iteration appends to [optimized]: the
    kind of step and the input indices it used.  For a merge these are the
    [consumed_indices] that [_try_merge_small_chunk] returns. *)
Definition step_provenance (config : ChunkingConfig)
    (read_lines : string -> option (list string))
    (set_order : gset string -> list string)
    (st : scan_state) (i : nat) : list (origin * gset nat) :=
  if bool_decide (i ∈ st_consumed st) then []
  else
    match st_chunks st !! i with
    | None => []
    | Some chunk =>
        let chunk_size := end_line chunk - start_line chunk + 1 in
        if chunk_size <? MIN_CHUNK_SIZE config then
          match _try_merge_small_chunk config read_lines set_order
                  (st_chunks st) i (st_consumed st) with
          | Some (_, consumed_indices) => [(Merge, consumed_indices)]
          | None => [(Expand, {[ i ]})]
          end
        else [(PassThrough, {[ i ]})]
    end.

(** The scan, recording next to each appended chunk where it came from. *)
Definition traced_step (config : ChunkingConfig)
    (read_lines : string -> option (list string))
    (set_order : gset string -> list string)
    (s : scan_state * list (origin * gset nat)) (i : nat)
  : scan_state * list (origin * gset nat) :=
  (scan_step config read_lines set_order (fst s) i,
   (snd s ++ step_provenance config read_lines set_order (fst s) i)%list).

Definition provenance (config : ChunkingConfig)
    (read_lines : string -> option (list string))
    (set_order : gset string -> list string)
    (chunks : list TypeScriptChunk) : list (origin * gset nat) :=
  snd (fold_left (traced_step config read_lines set_order)
         (seq 0 (length chunks)) (scan_init chunks, [])).

(** All input indices the trace mentions, entry by entry. *)
Definition trace_indices (tr : list (origin * gset nat)) : list nat :=
  concat (map (fun e => elements (snd e)) tr).

(** An output chunk is built from the input list as its provenance says. *)
Inductive built_from (config : ChunkingConfig)
    (read_lines : string -> option (list string))
    (set_order : gset string -> list string)
    (chunks : list TypeScriptChunk)
  : origin * gset nat -> TypeScriptChunk -> Prop :=
| built_merge i a b :
    chunks !! i = Some a -> chunks !! S i = Some b ->
    chunk_size a < MIN_CHUNK_SIZE config ->
    _should_merge config a b = true ->
    built_from config read_lines set_order chunks
      (Merge, pair_set i (S i)) (_merge_chunks read_lines set_order a b)
| built_expand i a :
    chunks !! i = Some a ->
    chunk_size a < MIN_CHUNK_SIZE config ->
    built_from config read_lines set_order chunks
      (Expand, {[ i ]}) (_expand_with_context config read_lines a)
| built_pass i a :
    chunks !! i = Some a ->
    MIN_CHUNK_SIZE config <= chunk_size a ->
    built_from config read_lines set_order chunks
      (PassThrough, {[ i ]})
      (if chunk_size a >? MAX_CHUNK_SIZE config
       then add_label "large_chunk" a else a).

(** The loop invariant before index [i] is visited, for the input [cs0]. *)
Record scan_inv (config : ChunkingConfig)
    (read_lines : string -> option (list string))
    (set_order : gset string -> list string)
    (cs0 : list TypeScriptChunk) (i : nat)
    (st : scan_state) (tr : list (origin * gset nat)) : Prop := mkInv {
  inv_length : length (st_chunks st) = length cs0;
  inv_store : forall j, j ∉ st_consumed st -> st_chunks st !! j = cs0 !! j;
  inv_bound : forall j, j ∈ st_consumed st -> (j <= i)%nat /\ (j < length cs0)%nat;
  inv_stuck : forall j a b,
      (j < i)%nat -> j ∉ st_consumed st ->
      cs0 !! j = Some a -> cs0 !! S j = Some b -> _should_merge config a b = false;
  inv_cover :
    trace_indices tr
    ≡ₚ (seq 0 i ++ (if bool_decide (i ∈ st_consumed st) then [i] else []))%list;
  inv_built :
    Forall2 (built_from config read_lines set_order cs0) tr (st_optimized st);
  inv_expanded : forall j,
      In (Expand, ({[ j ]} : gset nat)) tr <-> (j < i)%nat /\ j ∉ st_consumed st
}.

(** ** Expansion scenario *)

(** A readable file of twenty lines, whatever its name. *)
Definition twenty_lines : string -> option (list string) :=
  fun _ => Some (repeat newline 20).

(** A three-line function in the middle of that file. *)
Definition middle_function : TypeScriptChunk :=
  new_chunk "" "function" "f" 9 11 "a.ts" "typescript" [].

(** ** Statistics *)

(** The number of chunks of type [t]. *)
Definition count_type (t : string) (chunks : list TypeScriptChunk) : Z :=
  Z.of_nat (length (List.filter (fun c => String.eqb (chunk_type c) t) chunks)).

(** ** Trees *)

(** [m] is [n] itself or lies below it. *)
Inductive subnode : Node -> Node -> Prop :=
| subnode_self n : subnode n n
| subnode_child n c m : In c (children n) -> subnode c m -> subnode n m.

(** A function declared inside a class method, next to a top-level one. *)
Definition nested_function_source : string :=
  "class A { m() { function inner() {} } } function outer() {}".

Definition inner_function : Node :=
  mkNode "function_declaration" 16 35 0 0
    [ (Some "name", leaf "identifier" 25 30) ].

Definition outer_function : Node :=
  mkNode "function_declaration" 40 59 0 0
    [ (Some "name", leaf "identifier" 49 54) ].

Definition nested_function_root : Node :=
  mkNode "program" 0 59 0 0
    [ (None,
       mkNode "class_declaration" 0 39 0 0
         [ (Some "name", leaf "type_identifier" 6 7);
           (Some "body",
            mkNode "class_body" 8 39 0 0
              [ (None,
                 mkNode "method_definition" 10 37 0 0
                   [ (Some "name", leaf "property_identifier" 10 11);
                     (Some "body",
                      mkNode "statement_block" 14 37 0 0
                        [ (None, inner_function) ]) ]) ]) ]);
      (None, outer_function) ].

(** ** Parsed chunks *)

(** The fields of a chunk that no extraction or detection pass writes. *)
Definition chunk_frame (c : TypeScriptChunk) :=
  (content c, chunk_type c, name c, start_line c, end_line c,
   file_path c, language c,
   (module_path c, class_name c, imports c, exports c,
    type_parameters c, decorators c, metadata c)).

(** [x] is the callee text of a call expression at or below [node]. *)
Definition called_in (source_code : string) (node : Node) (x : string) : Prop :=
  exists call_node callee,
    In call_node (_find_nodes_by_type node "call_expression") /\
    child_by_field_name call_node "function" = Some callee /\
    _get_node_text callee source_code = x.

(** A chunk built for a factory call is a component or a system, with
    flag, label and base type to match. *)
Definition factory_consistent (c : TypeScriptChunk) : Prop :=
  (chunk_type c = "component" /\ ecs_component c = true /\ ecs_system c = false /\
   "Component" ∈ extends c /\ "ecs_component" ∈ semantic_labels c) \/
  (chunk_type c = "system" /\ ecs_system c = true /\ ecs_component c = false /\
   "System" ∈ extends c /\ "ecs_system" ∈ semantic_labels c).

(** The kinds of chunk the parser builds. *)
Definition parser_chunk_types : list string :=
  ["class"; "function"; "interface"; "type"; "component"; "system"].

(** *** Parser scenarios *)

Definition position_source : string :=
  "export const Position = createComponent({x:0,y:0})".

Definition position_root : Node :=
  mkNode "program" 0 50 0 0
    [ (None,
       mkNode "export_statement" 0 50 0 0
         [ (None, leaf "export" 0 6);
           (Some "declaration",
            mkNode "lexical_declaration" 7 50 0 0
              [ (None, leaf "const" 7 12);
                (None,
                 mkNode "variable_declarator" 13 50 0 0
                   [ (Some "name", leaf "identifier" 13 21);
                     (None, leaf "=" 22 23);
                     (Some "value",
                      mkNode "call_expression" 24 50 0 0
                        [ (Some "function", leaf "identifier" 24 39);
                          (Some "arguments",
                           mkNode "arguments" 39 50 0 0
                             [ (None, leaf "(" 39 40);
                               (None, leaf "object" 40 49);
                               (None, leaf ")" 49 50) ]) ]) ]) ]) ]) ].

Definition calls_source : string := "function f() { g(); h.k(1); }".

Definition calls_function : Node :=
  mkNode "function_declaration" 0 29 0 0
    [ (None, leaf "function" 0 8);
      (Some "name", leaf "identifier" 9 10);
      (Some "parameters", leaf "formal_parameters" 10 12);
      (Some "body",
       mkNode "statement_block" 13 29 0 0
         [ (None,
            mkNode "expression_statement" 15 19 0 0
              [ (None,
                 mkNode "call_expression" 15 18 0 0
                   [ (Some "function", leaf "identifier" 15 16);
                     (Some "arguments", leaf "arguments" 16 18) ]) ]);
           (None,
            mkNode "expression_statement" 20 27 0 0
              [ (None,
                 mkNode "call_expression" 20 26 0 0
                   [ (Some "function", leaf "member_expression" 20 23);
                     (Some "arguments", leaf "arguments" 23 26) ]) ]) ]) ].

(** A file system with two files, a suffix function for the scenario paths
    and a parser that returns the tree of the scenario source. *)
Definition two_files (p : string) : option string :=
  if String.eqb p "src/position.ts" then Some position_source
  else if String.eqb p "README.md" then Some "# readme" else None.

Definition scenario_suffix (p : string) : string :=
  if String.eqb p "src/position.ts" then ".ts"
  else if String.eqb p "README.md" then ".md" else "".

Definition scenario_parse (source_code : string) : Node := position_root.

(** The body of either loop of [_detect_webxr_patterns]: the usage set it
    fills is given by its getter and setter, [lab] is the label it adds. *)
Definition detect_loop (get : TypeScriptChunk -> gset string)
    (set : gset string -> TypeScriptChunk -> TypeScriptChunk) (lab : string)
    (chunk : TypeScriptChunk) (x : string) : TypeScriptChunk :=
  if PyStr.contains (content chunk) x
  then add_label lab (set (get chunk ∪ {[ x ]}) chunk)
  else chunk.

(** What holds of every chunk the parser builds for the file [fp]. *)
Definition parsed_chunk_ok (fp lang : string) (c : TypeScriptChunk) : Prop :=
  file_path c = fp /\ language c = lang /\
  In (chunk_type c) parser_chunk_types /\
  1 <= start_line c /\
  exports c = [] /\ class_name c = None /\ module_path c = None /\
  metadata c = None.

(** The language [parse_file] assigns for a file suffix it accepts. *)
Definition language_of_suffix (suffix : string) : string :=
  if String.eqb suffix ".ts" || String.eqb suffix ".tsx"
  then "typescript" else "javascript".

(** ** Metadata values *)

(** A value the vector store accepts: a string, a number or a boolean. *)
Definition scalar (v : MetaValue) : Prop :=
  match v with
  | MList _ => False
  | _ => True
  end.

(** ** Identifiers *)

(** No colon occurs in the string. *)
Fixpoint colon_free (s : string) : bool :=
  match s with
  | EmptyString => true
  | String c r => negb (Ascii.eqb c ":") && colon_free r
  end.

(** The part of a string after its last colon (the whole string when it has
    none). *)
Fixpoint last_segment (s : string) : string :=
  match s with
  | EmptyString => EmptyString
  | String c r =>
      if colon_free r
      then (if Ascii.eqb c ":" then r else String c r)
      else last_segment r
  end.

(** * Properties *)

(** ** Merging two chunks *)

Section MergeLaws.

Context (read_lines : string -> option (list string)).
Context (set_order : gset string -> list string).

Abbreviation merge := (_merge_chunks read_lines set_order).

Lemma merge_start_line a b :
  start_line (merge a b) = Z.min (start_line a) (start_line b).
Proof.
  unfold _merge_chunks.
  destruct (Z.ltb_spec (start_line a) (start_line b)); simpl; lia.
Qed.

Lemma merge_end_line a b :
  end_line (merge a b) = end_line (merge_second a b).
Proof.
  unfold _merge_chunks, merge_second.
  destruct (start_line a <? start_line b); reflexivity.
Qed.

(** When the chunk that starts later also ends last, the merged range is
    the union of the two ranges. *)
Lemma merge_range_ordered a b :
  end_line (merge_first a b) <= end_line (merge_second a b) ->
  start_line (merge a b) = Z.min (start_line a) (start_line b) /\
  end_line (merge a b) = Z.max (end_line a) (end_line b).
Proof.
  intros H. split; [apply merge_start_line|].
  rewrite merge_end_line. revert H. unfold merge_first, merge_second.
  destruct (start_line a <? start_line b); lia.
Qed.

(** C3: every relationship set of a merged chunk is the union of the two
    inputs' sets ([semantic_labels] with the merge marker added), and each
    ECS flag is the disjunction of the inputs' flags. *)
Theorem merge_chunks_union_laws (a b : TypeScriptChunk) :
  extends (merge a b) = extends a ∪ extends b /\
  implements (merge a b) = implements a ∪ implements b /\
  calls (merge a b) = calls a ∪ calls b /\
  uses_types (merge a b) = uses_types a ∪ uses_types b /\
  semantic_labels (merge a b)
    = semantic_labels a ∪ semantic_labels b ∪ {[ "merged_chunk" ]} /\
  webxr_api_usage (merge a b) = webxr_api_usage a ∪ webxr_api_usage b /\
  three_js_usage (merge a b) = three_js_usage a ∪ three_js_usage b /\
  ecs_component (merge a b) = ecs_component a || ecs_component b /\
  ecs_system (merge a b) = ecs_system a || ecs_system b.
Proof.
  unfold _merge_chunks.
  destruct (start_line a <? start_line b); simpl;
    repeat split; solve [reflexivity | set_solver | apply orb_comm].
Qed.

(** Nothing present in an input is lost by a merge. *)
Corollary merge_chunks_keeps (a b : TypeScriptChunk) (x : string) :
  (x ∈ extends a ∨ x ∈ extends b -> x ∈ extends (merge a b)) /\
  (x ∈ calls a ∨ x ∈ calls b -> x ∈ calls (merge a b)) /\
  (x ∈ semantic_labels a ∨ x ∈ semantic_labels b ->
   x ∈ semantic_labels (merge a b)).
Proof.
  unfold _merge_chunks.
  destruct (start_line a <? start_line b); simpl; set_solver.
Qed.

End MergeLaws.

(** C4: for a class nested inside a short class, the merged chunk ends at the
    inner class's last line, before the outer class's; the optimizer reaches
    this merge on the sorted two-chunk file. *)
Theorem merge_nested_range_truncated :
  forall read_lines set_order,
    end_line (_merge_chunks read_lines set_order outer_class inner_class) = 5 /\
    Z.max (end_line outer_class) (end_line inner_class) = 10 /\
    map (fun c => (start_line c, end_line c))
        (_optimize_file_chunks default_config read_lines set_order
           [outer_class; inner_class]) = [(1, 5)].
Proof.
  intros read_lines set_order. repeat split.
Qed.

(** ** Expansion when the file cannot be read *)

(** C10: when re-reading the file fails, [_expand_with_context] returns its
    argument as it is, and a below-minimum chunk that is alone in its file
    leaves the optimizer as it entered: same range, same content, same
    labels. *)
Theorem expand_read_failure_returns_chunk
    (config : ChunkingConfig) (read_lines : string -> option (list string))
    (set_order : gset string -> list string) (chunk : TypeScriptChunk) :
  read_lines (file_path chunk) = None ->
  _expand_with_context config read_lines chunk = chunk /\
  (chunk_size chunk < MIN_CHUNK_SIZE config ->
   _optimize_file_chunks config read_lines set_order [chunk] = [chunk]).
Proof.
  intros Hread.
  assert (Hexp : _expand_with_context config read_lines chunk = chunk).
  { unfold _expand_with_context. now rewrite Hread. }
  split; [exact Hexp|].
  intros Hsmall. unfold chunk_size in Hsmall.
  unfold _optimize_file_chunks, scan, scan_init. simpl.
  unfold scan_step. simpl.
  destruct (Z.ltb_spec (end_line chunk - start_line chunk + 1)
                       (MIN_CHUNK_SIZE config)) as [_|Hge]; [|lia].
  unfold _try_merge_small_chunk. simpl. now rewrite Hexp.
Qed.

Lemma expand_read_failure_witness :
  unreadable (file_path tiny_function) = None /\
  _expand_with_context default_config unreadable tiny_function = tiny_function /\
  chunk_size tiny_function < MIN_CHUNK_SIZE default_config /\
  _optimize_file_chunks default_config unreadable elements [tiny_function]
    = [tiny_function] /\
  "expanded_context" ∉ semantic_labels tiny_function.
Proof.
  assert (Hread : unreadable (file_path tiny_function) = None) by reflexivity.
  assert (Hsmall : chunk_size tiny_function < MIN_CHUNK_SIZE default_config)
    by (vm_compute; reflexivity).
  destruct (expand_read_failure_returns_chunk default_config unreadable
              elements tiny_function Hread) as [Hexp Hopt].
  split; [exact Hread|]. split; [exact Hexp|]. split; [exact Hsmall|].
  split; [exact (Hopt Hsmall)|].
  simpl. apply not_elem_of_empty.
Defined.

(** ** ECS pattern detection *)

(** C8 (as the code has it): a name containing "transform" earns the label
    [transform_component]; a name containing "physics" earns
    [physics_component] when it does not also contain "transform"; neither
    name heuristic touches an ECS flag, which are set from the content
    markers and [extends] alone. *)
Theorem detect_ecs_name_heuristics (chunk : TypeScriptChunk) :
  let name_lower := PyStr.lower (name chunk) in
  let chunk' := _detect_ecs_patterns chunk in
  (PyStr.contains name_lower "transform" = true ->
   "transform_component" ∈ semantic_labels chunk') /\
  (PyStr.contains name_lower "physics" = true ->
   PyStr.contains name_lower "transform" = false ->
   "physics_component" ∈ semantic_labels chunk') /\
  ecs_component chunk' = ecs_component chunk || component_marker chunk /\
  ecs_system chunk' = ecs_system chunk || system_marker chunk.
Proof.
  unfold _detect_ecs_patterns, component_marker, system_marker.
  set (cm := PyStr.contains (PyStr.lower (content chunk)) "implements component"
             || PyStr.contains (PyStr.lower (content chunk)) "extends componentbase").
  destruct cm; simpl;
    set (sm := PyStr.contains (PyStr.lower (content chunk)) "extends system"
               || PyStr.contains (PyStr.lower (content chunk)) "implements isystem"
               || bool_decide ("createSystem" ∈ extends chunk));
    destruct sm; simpl;
    destruct (PyStr.contains (PyStr.lower (name chunk)) "transform"); simpl;
    destruct (PyStr.contains (PyStr.lower (name chunk)) "physics"); simpl;
    repeat split; intros;
    try discriminate; try reflexivity;
    try (symmetry; apply orb_true_r); try (symmetry; apply orb_false_r);
    set_solver.
Qed.

Lemma detect_ecs_name_heuristics_witness :
  "transform_component"
    ∈ semantic_labels (_detect_ecs_patterns transform_physics_class).
Proof.
  apply (detect_ecs_name_heuristics transform_physics_class).
  reflexivity.
Defined.

(** C8 as stated fails on a class named [TransformPhysics]: both substrings
    occur in its name, yet no ECS flag is set and the physics label is not
    added. *)
Lemma detect_ecs_name_sets_no_flag :
  ~ name_heuristics_as_specified transform_physics_class.
Proof.
  intros [Htransform _].
  destruct (Htransform eq_refl) as [[Hflag | Hflag] _]; discriminate Hflag.
Qed.

(** ** Merge eligibility *)

Section MergeEligibility.

Context (config : ChunkingConfig).

Lemma getter_setter_shape_spec name1 name2 :
  getter_setter_shape name1 name2 <->
  (PyStr.startswith (PyStr.lower name1) "get"
     && PyStr.startswith (PyStr.lower name2) "set"
   || PyStr.startswith (PyStr.lower name1) "set"
     && PyStr.startswith (PyStr.lower name2) "get") = true.
Proof.
  unfold getter_setter_shape.
  rewrite orb_true_iff, !andb_true_iff. reflexivity.
Qed.

Lemma shared_lifecycle_prefix_spec name1 name2 :
  shared_lifecycle_prefix name1 name2 <->
  existsb (fun prefix =>
             PyStr.startswith (PyStr.lower name1) prefix &&
             PyStr.startswith (PyStr.lower name2) prefix)
          lifecycle_prefixes = true.
Proof.
  unfold shared_lifecycle_prefix. rewrite existsb_exists.
  split; intros (p & Hin & H); exists p; split; try exact Hin.
  - apply andb_true_iff. exact H.
  - apply andb_true_iff in H. exact H.
Qed.

Lemma shared_base_name_spec name1 name2 :
  shared_base_name name1 name2 <->
  existsb (fun n =>
             let base := PyStr.rstrip_digits n in
             PyStr.contains (PyStr.lower name1) base &&
             PyStr.contains (PyStr.lower name2) base)
          [PyStr.lower name1; PyStr.lower name2] = true.
Proof.
  unfold shared_base_name. rewrite existsb_exists.
  split; intros (p & Hin & H); exists p; split; try exact Hin.
  - apply andb_true_iff. exact H.
  - apply andb_true_iff in H. exact H.
Qed.

Lemma are_related_spec name1 name2 :
  _are_related name1 name2 = true <-> related_names name1 name2.
Proof.
  unfold related_names, same_remainder.
  rewrite getter_setter_shape_spec, shared_lifecycle_prefix_spec,
    shared_base_name_spec.
  unfold _are_related.
  repeat match goal with
         | |- context [existsb ?f ?l] =>
             let hit := fresh "hit" in generalize (existsb f l); intro hit
         end.
  generalize (PyStr.drop 3 (PyStr.lower name1)) as r1.
  generalize (PyStr.drop 3 (PyStr.lower name2)) as r2.
  intros r2 r1.
  destruct (PyStr.startswith (PyStr.lower name1) "get"
            && PyStr.startswith (PyStr.lower name2) "set"); simpl.
  { rewrite String.eqb_eq. intuition congruence. }
  destruct (PyStr.startswith (PyStr.lower name1) "set"
            && PyStr.startswith (PyStr.lower name2) "get"); simpl.
  { rewrite String.eqb_eq. intuition congruence. }
  destruct hit, hit0; intuition congruence.
Qed.

Lemma is_interface_or_type_spec t :
  is_interface_or_type t = true <-> In t ["interface"; "type"].
Proof.
  unfold is_interface_or_type. rewrite existsb_exists. split.
  - intros (x & Hin & Heq). apply String.eqb_eq in Heq. now subst.
  - intros Hin. exists t. split; [exact Hin | apply String.eqb_refl].
Qed.

(** C6 (as the code has it): [_should_merge] accepts a pair exactly when it
    is in the same file, within the gap and size limits, and either has
    equal chunk types with related names (a get/set pair judged on its
    remainders alone; otherwise a shared lifecycle prefix or a shared base
    name) or is a pair of functions of one class, or is a pair of
    interface/type chunks. *)
Theorem should_merge_iff_eligible (a b : TypeScriptChunk) :
  start_line a <= start_line b ->
  (_should_merge config a b = true <-> merge_eligible config a b).
Proof.
  intros _.
  unfold merge_eligible, eligible_with, _should_merge.
  rewrite <- are_related_spec, <- !is_interface_or_type_spec.
  destruct (String.eqb_spec (file_path a) (file_path b)) as [Hfile|Hfile];
    simpl; [|intuition congruence].
  destruct (Z.gtb_spec (start_line b - end_line a) 5) as [Hgap|Hgap];
    [split; [discriminate | lia]|].
  destruct (Z.gtb_spec (end_line b - start_line a + 1) (MAX_CHUNK_SIZE config))
    as [Hsize|Hsize]; [split; [discriminate | lia]|].
  destruct (String.eqb_spec (chunk_type a) (chunk_type b)) as [Hty|Hty]; simpl.
  - destruct (_are_related (name a) (name b)); simpl; [intuition|].
    destruct (String.eqb_spec (chunk_type a) "function") as [Hfn|Hfn]; simpl.
    + destruct (bool_decide_reflect (class_name a = class_name b)); simpl;
        [intuition|].
      destruct (is_interface_or_type (chunk_type a)),
               (is_interface_or_type (chunk_type b)); simpl;
        intuition congruence.
    + destruct (is_interface_or_type (chunk_type a)),
               (is_interface_or_type (chunk_type b)); simpl;
        intuition congruence.
  - destruct (is_interface_or_type (chunk_type a)),
             (is_interface_or_type (chunk_type b)); simpl;
      intuition congruence.
Qed.

End MergeEligibility.

Lemma should_merge_iff_eligible_witness :
  start_line class_foo <= start_line class_foobar /\
  (_should_merge default_config class_foo class_foobar = true <->
   merge_eligible default_config class_foo class_foobar).
Proof.
  assert (H : start_line class_foo <= start_line class_foobar)
    by (simpl; lia).
  split; [exact H|].
  exact (should_merge_iff_eligible default_config class_foo class_foobar H).
Defined.

(** C6 as stated fails on two adjacent classes [Foo] and [FooBar]: they are
    merged through the shared base name, which is none of the specified
    relatedness conditions. *)
Lemma should_merge_base_name_not_specified :
  ~ (forall a b, start_line a <= start_line b ->
       (_should_merge default_config a b = true <->
        merge_eligible_as_specified default_config a b)).
Proof.
  intros Hclaim.
  assert (Hle : start_line class_foo <= start_line class_foobar) by (simpl; lia).
  destruct (Hclaim class_foo class_foobar Hle) as [Hto _].
  destruct (Hto eq_refl) as (_ & _ & _ & [[_ Hrel] | [Hin _]]).
  - destruct Hrel as [[[Hshape _] | Hlife] | [Hfn _]].
    + destruct Hshape as [[H _] | [H _]]; discriminate H.
    + destruct Hlife as (p & Hp & H1 & _).
      simpl in Hp.
      repeat (destruct Hp as [<- | Hp]; [discriminate H1|]).
      exact Hp.
    + discriminate Hfn.
  - simpl in Hin. destruct Hin as [H | [H | []]]; discriminate H.
Qed.

(** ** Metadata serialisation *)

Lemma long_name_length n : String.length (long_name n) = n.
Proof. induction n; simpl; congruence. Qed.

Section MetadataLaws.

Context (set_order : gset string -> list string).
Context (path_parts : string -> list string).

Abbreviation create_metadata := (_create_metadata set_order path_parts).

Lemma lookup_put_if_ne b k k' v (m : gmap string MetaValue) :
  k ≠ k' -> put_if b k v m !! k' = m !! k'.
Proof. intros Hne. destruct b; simpl; [now apply lookup_insert_ne | reflexivity]. Qed.

Lemma lookup_put_if_eq b k v (m : gmap string MetaValue) :
  put_if b k v m !! k = if b then Some v else m !! k.
Proof. destruct b; simpl; [apply lookup_insert_eq | reflexivity]. Qed.

(** Peel the insertions of other keys off a lookup. *)
Ltac skip_other_keys :=
  repeat first
    [ rewrite lookup_put_if_ne by discriminate
    | rewrite lookup_insert_ne by discriminate ].

Ltac open_metadata chunk source :=
  unfold _create_metadata;
  destruct source as [src|]; destruct (class_name chunk) as [cn|];
  destruct (module_path chunk) as [mp|].

Lemma metadata_extends chunk source :
  create_metadata chunk source !! "extends" =
  if set_nonempty (extends chunk)
  then Some (MStr (PyStr.join "," (set_order (extends chunk)))) else None.
Proof.
  open_metadata chunk source;
    destruct (imports chunk); destruct (set_nonempty (calls chunk));
    destruct (set_nonempty (webxr_api_usage chunk));
    skip_other_keys; rewrite lookup_put_if_eq;
    destruct (set_nonempty (extends chunk)); try reflexivity;
    skip_other_keys; rewrite ?lookup_empty; reflexivity.
Qed.

Lemma metadata_implements chunk source :
  create_metadata chunk source !! "implements" =
  if set_nonempty (implements chunk)
  then Some (MStr (PyStr.join "," (set_order (implements chunk)))) else None.
Proof.
  open_metadata chunk source;
    destruct (imports chunk); destruct (set_nonempty (calls chunk));
    destruct (set_nonempty (webxr_api_usage chunk));
    skip_other_keys; rewrite lookup_put_if_eq;
    destruct (set_nonempty (implements chunk)); try reflexivity;
    skip_other_keys; rewrite ?lookup_empty; reflexivity.
Qed.

Lemma metadata_imports chunk source :
  create_metadata chunk source !! "imports" =
  let imports_str := PyStr.join "," (take 5 (imports chunk)) in
  if negb (bool_decide (imports chunk = [])) && (PyStr.len imports_str <? 1000)
  then Some (MStr imports_str) else None.
Proof.
  open_metadata chunk source;
    destruct (imports chunk) as [|i0 rest]; destruct (set_nonempty (calls chunk));
    destruct (set_nonempty (webxr_api_usage chunk));
    skip_other_keys; rewrite ?lookup_put_if_eq; cbn [bool_decide negb andb];
    try match goal with
        | |- context [PyStr.len ?s <? 1000] => destruct (PyStr.len s <? 1000)
        end;
    try reflexivity;
    skip_other_keys; rewrite ?lookup_empty; reflexivity.
Qed.

Lemma metadata_calls chunk source :
  create_metadata chunk source !! "calls" =
  let calls_str := PyStr.join "," (take 10 (set_order (calls chunk))) in
  if set_nonempty (calls chunk) && (PyStr.len calls_str <? 1000)
  then Some (MStr calls_str) else None.
Proof.
  open_metadata chunk source;
    destruct (imports chunk) as [|i0 rest]; destruct (set_nonempty (calls chunk));
    destruct (set_nonempty (webxr_api_usage chunk));
    skip_other_keys; rewrite ?lookup_put_if_eq; cbn [andb];
    try match goal with
        | |- context [PyStr.len ?s <? 1000] => destruct (PyStr.len s <? 1000)
        end;
    try reflexivity;
    skip_other_keys; rewrite ?lookup_empty; reflexivity.
Qed.

Lemma metadata_webxr_api chunk source :
  create_metadata chunk source !! "webxr_api" =
  if set_nonempty (webxr_api_usage chunk)
  then Some (MStr (PyStr.join "," (take 5 (set_order (webxr_api_usage chunk)))))
  else None.
Proof.
  open_metadata chunk source;
    destruct (imports chunk) as [|i0 rest]; destruct (set_nonempty (calls chunk));
    destruct (set_nonempty (webxr_api_usage chunk));
    skip_other_keys; rewrite ?lookup_insert_eq;
    try reflexivity;
    skip_other_keys; rewrite ?lookup_empty; reflexivity.
Qed.

End MetadataLaws.

Lemma if_some_inv {A} (b : bool) (x y : A) :
  (if b then Some x else None) = Some y -> b = true /\ x = y.
Proof. destruct b; intros H; inversion H; auto. Qed.

Lemma set_nonempty_true (s : gset string) : s ≠ ∅ -> set_nonempty s = true.
Proof.
  intros H. unfold set_nonempty. now rewrite bool_decide_eq_false_2.
Qed.

(** C9 (as the code has it): every relationship set that reaches the metadata
    map is stored as one comma-joined string, never as a list; [imports]
    (first 5 entries) and [calls] (at most 10 elements) are stored only when
    the joined string is shorter than 1000 characters; [extends] and
    [implements] are joined in full and [webxr_api] from at most 5 elements. *)
Theorem metadata_relationship_strings
    (set_order : gset string -> list string) (path_parts : string -> list string)
    (chunk : TypeScriptChunk) (source : option string) :
  let md := _create_metadata set_order path_parts chunk source in
  (forall key v, In key relationship_keys -> md !! key = Some v ->
     exists s, v = MStr s) /\
  (forall s, md !! "imports" = Some (MStr s) ->
     s = PyStr.join "," (take 5 (imports chunk)) /\ PyStr.len s < 1000) /\
  (forall s, md !! "calls" = Some (MStr s) ->
     s = PyStr.join "," (take 10 (set_order (calls chunk))) /\ PyStr.len s < 1000) /\
  (extends chunk ≠ ∅ ->
     md !! "extends" = Some (MStr (PyStr.join "," (set_order (extends chunk))))) /\
  (implements chunk ≠ ∅ ->
     md !! "implements"
       = Some (MStr (PyStr.join "," (set_order (implements chunk))))) /\
  (webxr_api_usage chunk ≠ ∅ ->
     md !! "webxr_api"
       = Some (MStr (PyStr.join "," (take 5 (set_order (webxr_api_usage chunk)))))).
Proof.
  intros md. subst md.
  pose proof (metadata_extends set_order path_parts chunk source) as Hext.
  pose proof (metadata_implements set_order path_parts chunk source) as Himpl.
  pose proof (metadata_imports set_order path_parts chunk source) as Himp.
  pose proof (metadata_calls set_order path_parts chunk source) as Hcalls.
  pose proof (metadata_webxr_api set_order path_parts chunk source) as Hweb.
  cbv zeta in Himp, Hcalls.
  repeat split.
  - intros key v Hkey Hlook. simpl in Hkey.
    destruct Hkey as [<- | [<- | [<- | [<- | [<- | []]]]]];
      rewrite Hlook in *.
    + destruct (set_nonempty (extends chunk)); inversion Hext; eauto.
    + destruct (set_nonempty (implements chunk)); inversion Himpl; eauto.
    + destruct (set_nonempty (calls chunk) && _); inversion Hcalls; eauto.
    + destruct (negb _ && _); inversion Himp; eauto.
    + destruct (set_nonempty (webxr_api_usage chunk)); inversion Hweb; eauto.
  - rewrite Himp in H. apply if_some_inv in H as [_ Heq]. congruence.
  - rewrite Himp in H. apply if_some_inv in H as [Hb Heq].
    apply andb_true_iff in Hb as [_ Hlt]. apply Z.ltb_lt in Hlt.
    inversion Heq; subst s. exact Hlt.
  - rewrite Hcalls in H. apply if_some_inv in H as [_ Heq]. congruence.
  - rewrite Hcalls in H. apply if_some_inv in H as [Hb Heq].
    apply andb_true_iff in Hb as [_ Hlt]. apply Z.ltb_lt in Hlt.
    inversion Heq; subst s. exact Hlt.
  - intros Hne. now rewrite Hext, set_nonempty_true.
  - intros Hne. now rewrite Himpl, set_nonempty_true.
  - intros Hne. now rewrite Hweb, set_nonempty_true.
Qed.

Lemma metadata_relationship_strings_witness :
  extends system_class ≠ ∅ /\
  _create_metadata elements posix_parts system_class None !! "extends"
    = Some (MStr "createSystem") /\
  _create_metadata elements posix_parts system_class None !! "imports"
    = Some (MStr "import { createSystem } from 'elics';") /\
  PyStr.len "import { createSystem } from 'elics';" < 1000.
Proof.
  assert (Hne : extends system_class ≠ ∅)
    by exact (non_empty_singleton_L (C := gset string) "createSystem").
  destruct (metadata_relationship_strings elements posix_parts system_class None)
    as (_ & Himp & _ & Hext & _).
  assert (Hlook : _create_metadata elements posix_parts system_class None !! "imports"
                  = Some (MStr "import { createSystem } from 'elics';"))
    by (vm_compute; reflexivity).
  split; [exact Hne|]. split.
  - rewrite (Hext Hne). simpl. now rewrite elements_singleton.
  - split; [exact Hlook|]. exact (proj2 (Himp _ Hlook)).
Defined.

(** C9 as stated fails: no maximum bounds the stored [extends] string; a
    base-class name longer than any proposed cap is stored in full. *)
Lemma metadata_extends_has_no_cap :
  ~ (exists cap : Z, forall chunk source key s,
       In key relationship_keys ->
       _create_metadata elements posix_parts chunk source !! key = Some (MStr s) ->
       PyStr.len s <= cap).
Proof.
  intros [cap Hcap].
  set (n := S (Z.to_nat cap)).
  assert (Hlook : _create_metadata elements posix_parts (long_heritage n) None
                    !! "extends" = Some (MStr (long_name n))).
  { rewrite metadata_extends. unfold long_heritage. cbn [extends set_extends].
    rewrite set_nonempty_true
      by exact (non_empty_singleton_L (C := gset string) (long_name n)).
    now rewrite elements_singleton. }
  specialize (Hcap (long_heritage n) None "extends" (long_name n)
                   (or_introl eq_refl) Hlook).
  unfold PyStr.len in Hcap. rewrite long_name_length in Hcap. lia.
Qed.

(** ** Heritage resolution in [_parse_class] *)

Section Heritage.

Context (source_code : string).

(** A loop that only adds to [extends]: membership after the loop. *)
Lemma fold_left_extends {A} (f : TypeScriptChunk -> A -> TypeScriptChunk)
    (P : A -> string -> Prop) :
  (forall c a x, x ∈ extends (f c a) <-> x ∈ extends c \/ P a x) ->
  forall l c x,
    x ∈ extends (fold_left f l c) <->
    x ∈ extends c \/ exists a, In a l /\ P a x.
Proof.
  intros Hstep l. induction l as [|a l IH]; intros c x; simpl.
  - split; [auto | intros [H | (a & [] & _)]; exact H].
  - rewrite IH, Hstep. split.
    + intros [[H | H] | (a' & Hin & H)]; eauto.
    + intros [H | (a' & [<- | Hin] & H)]; eauto.
Qed.

(** A loop that leaves [extends] alone. *)
Lemma fold_left_extends_same {A} (f : TypeScriptChunk -> A -> TypeScriptChunk) :
  (forall c a, extends (f c a) = extends c) ->
  forall l c, extends (fold_left f l c) = extends c.
Proof.
  intros Hstep l. induction l as [|a l IH]; intros c; simpl; [reflexivity|].
  now rewrite IH, Hstep.
Qed.

Lemma extends_child_step_elem c child x :
  x ∈ extends (extends_child_step source_code c child) <->
  x ∈ extends c \/ extends_contribution source_code child = Some x.
Proof.
  unfold extends_child_step, extends_contribution. cbn [existsb].
  rewrite orb_false_r.
  destruct (String.eqb (node_type child) "identifier"
            || String.eqb (node_type child) "type_identifier").
  { cbn [add_extends set_extends extends]. rewrite elem_of_union, elem_of_singleton.
    split; intros [H | H]; auto; right; congruence. }
  destruct (String.eqb (node_type child) "call_expression").
  { destruct (child_by_field_name child "function") as [callee|]; cbn [fmap option_fmap option_map].
    - cbn [add_extends set_extends extends].
      rewrite elem_of_union, elem_of_singleton.
      split; intros [H | H]; auto; right; congruence.
    - split; [auto | intros [H | H]; [exact H | discriminate H]]. }
  destruct (String.eqb (node_type child) "member_expression").
  { cbn [add_extends set_extends extends]. rewrite elem_of_union, elem_of_singleton.
    split; intros [H | H]; auto; right; congruence. }
  split; [auto | intros [H | H]; [exact H | discriminate H]].
Qed.

Lemma heritage_step_elem c heritage x :
  x ∈ extends (heritage_step source_code c heritage) <->
  x ∈ extends c \/ heritage_contributes source_code heritage x.
Proof.
  unfold heritage_step.
  rewrite fold_left_extends_same.
  - rewrite (fold_left_extends _
               (fun extends_node x => exists child,
                    In child (children extends_node) /\
                    extends_contribution source_code child = Some x)).
    + unfold heritage_contributes. split.
      * intros [H | (en & Hen & ch & Hch & Hx)]; eauto 8.
      * intros [H | (en & ch & Hen & Hch & Hx)]; eauto 8.
    + intros c' en y.
      apply (fold_left_extends _ (fun child y =>
               extends_contribution source_code child = Some y)).
      apply extends_child_step_elem.
  - intros c' impl_node. apply fold_left_extends_same. reflexivity.
Qed.

Lemma detect_ecs_extends c : extends (_detect_ecs_patterns c) = extends c.
Proof.
  unfold _detect_ecs_patterns.
  repeat match goal with
         | |- context [if ?b then _ else _] => destruct b
         end; reflexivity.
Qed.

Lemma detect_webxr_extends c : extends (_detect_webxr_patterns c) = extends c.
Proof.
  unfold _detect_webxr_patterns.
  rewrite !fold_left_extends_same; [reflexivity | |];
    intros c' a; destruct (PyStr.contains (content c') a); reflexivity.
Qed.

Lemma parse_class_extends class_node file_path language imports x :
  x ∈ extends (_parse_class class_node source_code file_path language imports) <->
  exists heritage,
    In heritage (_find_nodes_by_type class_node "class_heritage") /\
    heritage_contributes source_code heritage x.
Proof.
  unfold _parse_class.
  rewrite detect_webxr_extends, detect_ecs_extends.
  rewrite (fold_left_extends _ (heritage_contributes source_code))
    by (intros; apply heritage_step_elem).
  cbn [new_chunk extends]. split.
  - intros [H | H]; [|exact H]. exfalso. exact (not_elem_of_empty _ H).
  - intros H. right. exact H.
Qed.

End Heritage.

(** C7: the [extends] set of a parsed class holds exactly the contributions
    of the children of its extends clauses: the text of an identifier or type
    identifier, the callee text of a call expression, the full text of a
    member expression.  On the two literal scenarios this gives
    [{"createSystem"}] and [{"Three.Group"}]. *)
Theorem parse_class_heritage_resolution :
  (forall class_node source_code file_path language imports x,
     x ∈ extends (_parse_class class_node source_code file_path language imports) <->
     exists heritage extends_node child,
       In heritage (_find_nodes_by_type class_node "class_heritage") /\
       In extends_node (_find_nodes_by_type heritage "extends_clause") /\
       In child (children extends_node) /\
       extends_contribution source_code child = Some x) /\
  (forall child source_code,
     (node_type child = "identifier" \/ node_type child = "type_identifier" ->
      extends_contribution source_code child
        = Some (_get_node_text child source_code)) /\
     (node_type child = "call_expression" ->
      forall callee, child_by_field_name child "function" = Some callee ->
      extends_contribution source_code child
        = Some (_get_node_text callee source_code)) /\
     (node_type child = "member_expression" ->
      extends_contribution source_code child
        = Some (_get_node_text child source_code))) /\
  extends (_parse_class factory_class factory_source "foo.ts" "typescript" [])
    = {[ "createSystem" ]} /\
  extends (_parse_class qualified_class qualified_source "foo.ts" "typescript" [])
    = {[ "Three.Group" ]}.
Proof.
  split; [|split; [|split]].
  - intros class_node source_code file_path language imports x.
    rewrite parse_class_extends. unfold heritage_contributes.
    split.
    + intros (h & Hh & en & ch & Hen & Hch & Hx). eauto 8.
    + intros (h & en & ch & Hh & Hen & Hch & Hx). eauto 8.
  - intros child source_code. unfold extends_contribution. repeat split.
    + intros [-> | ->]; reflexivity.
    + intros -> callee ->. reflexivity.
    + intros ->. reflexivity.
  - vm_compute. reflexivity.
  - vm_compute. reflexivity.
Qed.

Lemma parse_class_heritage_resolution_witness :
  "createSystem"
    ∈ extends (_parse_class factory_class factory_source "foo.ts" "typescript" []) /\
  extends_contribution qualified_source
    (mkNode "member_expression" 18 29 0 0 []) = Some "Three.Group".
Proof.
  destruct parse_class_heritage_resolution as (Hmem & Hcontrib & _ & _).
  split.
  - apply Hmem.
    exists (mkNode "class_heritage" 10 36 0 0
         [ (None,
            mkNode "extends_clause" 10 36 0 0
              [ (None, leaf "extends" 10 17);
                (Some "value",
                 mkNode "call_expression" 18 36 0 0
                   [ (Some "function", leaf "identifier" 18 30);
                     (Some "arguments",
                      mkNode "arguments" 30 36 0 0
                        [ (None, leaf "(" 30 31);
                          (None, leaf "identifier" 31 35);
                          (None, leaf ")" 35 36) ]) ]) ]) ]).
    eexists. eexists.
    split; [simpl; left; reflexivity|].
    split; [simpl; left; reflexivity|].
    split; [simpl; right; left; reflexivity|].
    reflexivity.
  - destruct (Hcontrib (mkNode "member_expression" 18 29 0 0 []) qualified_source)
      as (_ & _ & Hmember).
    exact (Hmember eq_refl).
Defined.

(** ** The optimizer on chunks that are already well sized *)

Section WellSized.

Context (config : ChunkingConfig).
Context (read_lines : string -> option (list string)).
Context (set_order : gset string -> list string).

Abbreviation step := (scan_step config read_lines set_order).

(** A well-sized chunk at an unconsumed index is appended as it is. *)
Lemma scan_step_in_band st i c :
  i ∉ st_consumed st -> st_chunks st !! i = Some c -> in_band config c ->
  step st i = mkScan (st_chunks st) (st_consumed st ∪ {[ i ]})
                     (st_optimized st ++ [c]).
Proof.
  intros Hfree Hlook [Hmin Hmax]. unfold chunk_size in *. unfold scan_step.
  rewrite bool_decide_eq_false_2 by exact Hfree. rewrite Hlook.
  destruct (Z.ltb_spec (end_line c - start_line c + 1) (MIN_CHUNK_SIZE config));
    [lia|].
  destruct (Z.gtb_spec (end_line c - start_line c + 1) (MAX_CHUNK_SIZE config));
    [lia|].
  reflexivity.
Qed.

(** The scan over a well-sized list, started part-way: the prefix already
    scanned is consumed and copied, the list itself is untouched. *)
Lemma scan_in_band_from chunks :
  Forall (in_band config) chunks ->
  forall k i st,
    (i + k = length chunks)%nat ->
    st_chunks st = chunks ->
    (forall j, j ∈ st_consumed st <-> (j < i)%nat) ->
    st_optimized st = take i chunks ->
    st_optimized (fold_left step (seq i k) st) = chunks.
Proof.
  intros Hband k. induction k as [|k IH]; intros i st Hlen Hcs Hcons Hout.
  - simpl. rewrite Hout. apply take_ge. lia.
  - simpl.
    destruct (lookup_lt_is_Some_2 chunks i) as [c Hc]; [lia|].
    assert (Hfree : i ∉ st_consumed st) by (rewrite Hcons; lia).
    rewrite (scan_step_in_band st i c Hfree).
    + apply IH; simpl.
      * lia.
      * exact Hcs.
      * intros j. rewrite elem_of_union, elem_of_singleton, Hcons. lia.
      * rewrite Hout. symmetry. now apply take_S_r.
    + now rewrite Hcs.
    + eapply Forall_lookup_1; eassumption.
Qed.

Lemma optimize_file_in_band chunks :
  Forall (in_band config) chunks ->
  _optimize_file_chunks config read_lines set_order chunks = chunks.
Proof.
  intros Hband. unfold _optimize_file_chunks, scan.
  apply (scan_in_band_from chunks Hband); simpl; try reflexivity.
  intros j. rewrite elem_of_empty. lia.
Qed.

End WellSized.

(** *** Grouping by file and sorting by start line *)

Lemma insert_by_start_perm x l : insert_by_start x l ≡ₚ x :: l.
Proof.
  induction l as [|y r IH]; simpl; [reflexivity|].
  destruct (start_line x <=? start_line y); [reflexivity|].
  rewrite IH. apply Permutation_swap.
Qed.

Lemma sort_by_start_perm l : sort_by_start l ≡ₚ l.
Proof.
  induction l as [|x l IH]; simpl; [reflexivity|].
  unfold sort_by_start in *. simpl. rewrite insert_by_start_perm.
  now apply Permutation_cons.
Qed.

Lemma sort_by_start_ascending l : ascending l -> sort_by_start l = l.
Proof.
  unfold ascending, sort_by_start.
  induction 1 as [|x l Hsorted IH Hall]; simpl; [reflexivity|].
  rewrite IH. destruct l as [|y r]; simpl; [reflexivity|].
  apply Forall_inv in Hall. simpl in Hall.
  destruct (Z.leb_spec (start_line x) (start_line y)); [reflexivity | lia].
Qed.

Lemma by_file_add_perm g c :
  concat (map snd (by_file_add g c)) ≡ₚ c :: concat (map snd g).
Proof.
  induction g as [|[k v] g IH]; simpl; [reflexivity|].
  destruct (String.eqb k (file_path c)); simpl.
  - rewrite <- app_assoc. simpl. symmetry. apply Permutation_middle.
  - rewrite IH. symmetry. apply Permutation_middle.
Qed.

Lemma group_fold_perm l g :
  concat (map snd (fold_left by_file_add l g)) ≡ₚ concat (map snd g) ++ l.
Proof.
  revert g. induction l as [|c l IH]; intros g; simpl.
  - now rewrite app_nil_r.
  - rewrite IH, by_file_add_perm. simpl. apply Permutation_middle.
Qed.

Lemma extend_fold_concat {A B} (f : B -> list A) (l : list (string * B)) acc :
  fold_left (fun optimized '(_, v) => (optimized ++ f v)%list) l acc
  = (acc ++ concat (map (fun kv => f (snd kv)) l))%list.
Proof.
  revert acc. induction l as [|[k v] l IH]; intros acc; simpl.
  - now rewrite app_nil_r.
  - rewrite IH. now rewrite app_assoc.
Qed.

Lemma by_file_add_last g f v c :
  ~ In f (keys g) -> file_path c = f ->
  by_file_add (g ++ [(f, v)])%list c = (g ++ [(f, (v ++ [c])%list)])%list.
Proof.
  intros Hfresh Hfile. induction g as [|[k w] g IH]; simpl.
  - rewrite <- Hfile, String.eqb_refl. reflexivity.
  - simpl in Hfresh.
    destruct (String.eqb_spec k (file_path c)) as [Heq|Hne].
    + exfalso. apply Hfresh. left. congruence.
    + rewrite IH; [reflexivity | tauto].
Qed.

Lemma by_file_add_new g c :
  ~ In (file_path c) (keys g) ->
  by_file_add g c = (g ++ [(file_path c, [c])])%list.
Proof.
  intros Hfresh. induction g as [|[k w] g IH]; simpl; [reflexivity|].
  simpl in Hfresh.
  destruct (String.eqb_spec k (file_path c)) as [Heq|Hne]; [tauto|].
  rewrite IH; [reflexivity | tauto].
Qed.

Lemma group_fold_last g f v l :
  ~ In f (keys g) -> Forall (fun c => file_path c = f) l ->
  fold_left by_file_add l (g ++ [(f, v)])%list = (g ++ [(f, (v ++ l)%list)])%list.
Proof.
  intros Hfresh. revert v. induction l as [|c l IH]; intros v Hall; simpl.
  - now rewrite app_nil_r.
  - inversion Hall as [|? ? Hc Hl]; subst.
    rewrite by_file_add_last by auto. rewrite IH by exact Hl.
    now rewrite <- app_assoc.
Qed.

Lemma group_fold_new_block g f b :
  ~ In f (keys g) -> b ≠ [] -> Forall (fun c => file_path c = f) b ->
  fold_left by_file_add b g = (g ++ [(f, b)])%list.
Proof.
  intros Hfresh Hne Hall. destruct b as [|c b]; [congruence|].
  inversion Hall as [|? ? Hc Hb]; subst. simpl.
  rewrite by_file_add_new by exact Hfresh.
  now rewrite group_fold_last.
Qed.

Lemma group_fold_blocks files :
  forall blocks g,
    Forall2 block_of files blocks ->
    NoDup (keys g ++ files)%list ->
    fold_left by_file_add (concat blocks) g = (g ++ combine files blocks)%list.
Proof.
  induction files as [|f files IH]; intros blocks g Hblocks Hnodup;
    inversion Hblocks as [|? b ? blocks' (Hne & Hfile & _) Hrest]; subst; simpl.
  - now rewrite app_nil_r.
  - rewrite fold_left_app.
    assert (Hfresh : ~ In f (keys g)).
    { intros Hin. apply NoDup_app in Hnodup as (_ & Hdisj & _).
      apply (Hdisj f); [now apply list_elem_of_In | left]. }
    rewrite (group_fold_new_block g f b Hfresh Hne Hfile).
    rewrite IH; [now rewrite <- app_assoc | exact Hrest |].
    unfold keys in *. rewrite map_app. simpl. rewrite <- app_assoc. exact Hnodup.
Qed.

Lemma group_by_file_blocks files blocks :
  NoDup files -> Forall2 block_of files blocks ->
  group_by_file (concat blocks) = combine files blocks.
Proof.
  intros Hnodup Hblocks. unfold group_by_file.
  now rewrite (group_fold_blocks files blocks []).
Qed.

Lemma group_by_file_perm chunks :
  concat (map snd (group_by_file chunks)) ≡ₚ chunks.
Proof. unfold group_by_file. now rewrite group_fold_perm. Qed.

Lemma in_band_groups config chunks :
  Forall (in_band config) chunks ->
  Forall (fun kv => Forall (in_band config) (snd kv)) (group_by_file chunks).
Proof.
  intros Hband.
  assert (Hall : Forall (in_band config) (concat (map snd (group_by_file chunks)))).
  { eapply Permutation_Forall; [symmetry; apply group_by_file_perm | exact Hband]. }
  revert Hall. generalize (group_by_file chunks) as g.
  induction g as [|[k v] g IH]; simpl; intros Hall; constructor.
  - simpl. exact (proj1 (proj1 (Forall_app _ _ _) Hall)).
  - apply IH. exact (proj2 (proj1 (Forall_app _ _ _) Hall)).
Qed.

Section OptimizeWellSized.

Context (config : ChunkingConfig).
Context (read_lines : string -> option (list string)).
Context (set_order : gset string -> list string).

Abbreviation optimize := (optimize_chunks config read_lines set_order).

(** On a well-sized list the optimizer only regroups and sorts. *)
Lemma optimize_in_band_sorted_groups chunks :
  Forall (in_band config) chunks ->
  optimize chunks
  = concat (map (fun kv => sort_by_start (snd kv)) (group_by_file chunks)).
Proof.
  intros Hband. unfold optimize_chunks.
  destruct chunks as [|c0 rest]; [reflexivity|].
  rewrite (extend_fold_concat
             (fun v => _optimize_file_chunks config read_lines set_order
                         (sort_by_start v))).
  simpl app. f_equal.
  pose proof (in_band_groups config _ Hband) as Hgroups.
  revert Hgroups. generalize (group_by_file (c0 :: rest)) as g.
  induction g as [|[k v] g IH]; intros Hgroups; [reflexivity|].
  inversion Hgroups as [|? ? Hv Hg]; subst. simpl in *.
  rewrite IH by exact Hg. f_equal.
  apply optimize_file_in_band.
  eapply Permutation_Forall; [symmetry; apply sort_by_start_perm | exact Hv].
Qed.

Lemma sorted_groups_perm (g : list (string * list TypeScriptChunk)) :
  concat (map (fun kv => sort_by_start (snd kv)) g) ≡ₚ concat (map snd g).
Proof.
  induction g as [|[k v] g IH]; simpl; [reflexivity|].
  now rewrite IH, sort_by_start_perm.
Qed.

Lemma sorted_blocks files : forall blocks,
  Forall2 block_of files blocks ->
  concat (map (fun kv => sort_by_start (snd kv)) (combine files blocks))
  = concat blocks.
Proof.
  induction files as [|f files IH]; intros blocks Hblocks;
    inversion Hblocks as [|? b ? blocks' (_ & _ & Hasc) Hrest]; subst; simpl;
    [reflexivity|].
  rewrite IH by exact Hrest. now rewrite sort_by_start_ascending.
Qed.

(** C5 (as the code has it): on a list whose chunks all lie within
    [MIN_CHUNK_SIZE, MAX_CHUNK_SIZE] the optimizer returns the same chunks,
    unmodified, grouped by file in order of first appearance and sorted by
    start line within each file: a permutation of the input, and the
    identical list when the input is already a sequence of per-file blocks,
    one per file, each ascending by start line. *)
Theorem optimize_chunks_well_sized (chunks : list TypeScriptChunk) :
  Forall (in_band config) chunks ->
  optimize chunks
    = concat (map (fun kv => sort_by_start (snd kv)) (group_by_file chunks)) /\
  optimize chunks ≡ₚ chunks /\
  (forall files blocks,
     NoDup files -> Forall2 block_of files blocks -> chunks = concat blocks ->
     optimize chunks = chunks).
Proof.
  intros Hband.
  pose proof (optimize_in_band_sorted_groups chunks Hband) as Heq.
  split; [exact Heq|]. split.
  - rewrite Heq, sorted_groups_perm. apply group_by_file_perm.
  - intros files blocks Hnodup Hblocks Hchunks.
    rewrite Heq. subst chunks.
    rewrite (group_by_file_blocks files blocks Hnodup Hblocks).
    now apply sorted_blocks.
Qed.

End OptimizeWellSized.

Lemma default_in_band_early_late :
  Forall (in_band default_config) [early_class; late_class].
Proof.
  repeat constructor; unfold chunk_size; simpl; lia.
Qed.

Lemma optimize_chunks_well_sized_witness :
  Forall (in_band default_config) [early_class; late_class] /\
  optimize_chunks default_config unreadable elements [early_class; late_class]
    = [early_class; late_class].
Proof.
  split; [exact default_in_band_early_late|].
  destruct (optimize_chunks_well_sized default_config unreadable elements
              [early_class; late_class] default_in_band_early_late)
    as (_ & _ & Hsame).
  apply (Hsame ["a.ts"] [[early_class; late_class]]).
  - repeat constructor. cbv. intros H. inversion H.
  - repeat constructor; try discriminate; simpl; lia.
  - reflexivity.
Defined.

(** C5 as stated fails: two well-sized classes of one file given in the
    parser's order, the later one first, come back in start-line order. *)
Lemma optimize_chunks_reorders :
  ~ (forall chunks,
       Forall (in_band default_config) chunks ->
       optimize_chunks default_config unreadable elements chunks = chunks).
Proof.
  intros Hclaim.
  assert (Hband : Forall (in_band default_config) [late_class; early_class]).
  { repeat constructor; unfold chunk_size; simpl; lia. }
  specialize (Hclaim [late_class; early_class] Hband).
  vm_compute in Hclaim. discriminate Hclaim.
Qed.

(** ** Every input chunk is accounted for exactly once *)

Section Accounting.

Context (config : ChunkingConfig).
Context (read_lines : string -> option (list string)).
Context (set_order : gset string -> list string).

Abbreviation tstep := (traced_step config read_lines set_order).
Abbreviation should_merge := (_should_merge config).
Abbreviation try_merge := (_try_merge_small_chunk config read_lines set_order).
Abbreviation inv := (scan_inv config read_lines set_order).

(** Dropping the trace gives back the scan. *)
Lemma traced_scan_erase l st tr :
  fst (fold_left tstep l (st, tr))
  = fold_left (scan_step config read_lines set_order) l st.
Proof.
  revert st tr. induction l as [|i l IH]; intros st tr; simpl; [reflexivity|].
  unfold traced_step at 2. simpl. apply IH.
Qed.

Lemma scan_inv_init cs0 : inv cs0 0 (scan_init cs0) [].
Proof.
  constructor; simpl; try reflexivity.
  - intros j Hj. exfalso. exact (not_elem_of_empty _ Hj).
  - intros j a b Hj. lia.
  - constructor.
  - intros j. split; [intros [] | lia].
Qed.

(** Under the invariant the backward probe of [_try_merge_small_chunk] never
    succeeds: the only unconsumed predecessor is a chunk that was expanded
    after the very same [_should_merge] test had failed. *)
Lemma try_merge_forward_only cs0 i st tr a :
  inv cs0 i st tr ->
  i ∉ st_consumed st -> cs0 !! i = Some a ->
  try_merge (st_chunks st) i (st_consumed st)
  = match cs0 !! S i with
    | Some b =>
        if should_merge a b
        then Some (_merge_chunks read_lines set_order a b, pair_set i (S i))
        else None
    | None => None
    end.
Proof.
  intros Hinv Hfree Ha.
  assert (Hlt : (i < length cs0)%nat) by (eapply lookup_lt_Some; eassumption).
  assert (Hnext : (i + 1)%nat ∉ st_consumed st).
  { intros Hin. apply (inv_bound _ _ _ _ _ _ _ Hinv) in Hin. lia. }
  assert (Hback :
    (if bool_decide (0 < i)%nat && bool_decide ((i - 1)%nat ∉ st_consumed st)
     then match st_chunks st !! (i - 1)%nat with
          | Some prev =>
              if should_merge prev a
              then Some (_merge_chunks read_lines set_order prev a,
                         pair_set (i - 1) i)
              else None
          | None => None
          end
     else None) = None).
  { destruct (bool_decide_reflect (0 < i)%nat) as [Hpos|]; [|reflexivity].
    destruct (bool_decide_reflect ((i - 1)%nat ∉ st_consumed st)) as [Hprev|];
      [|reflexivity].
    cbn [andb]. rewrite (inv_store _ _ _ _ _ _ _ Hinv) by exact Hprev.
    destruct (cs0 !! (i - 1)%nat) as [p|] eqn:Hp; [|reflexivity].
    rewrite (inv_stuck _ _ _ _ _ _ _ Hinv (i - 1)%nat p a); try reflexivity;
      try assumption; try lia.
    replace (S (i - 1)) with i by lia. exact Ha. }
  unfold _try_merge_small_chunk.
  rewrite (inv_store _ _ _ _ _ _ _ Hinv) by exact Hfree. rewrite Ha.
  rewrite (inv_length _ _ _ _ _ _ _ Hinv).
  rewrite (inv_store _ _ _ _ _ _ _ Hinv (i + 1)%nat) by exact Hnext.
  rewrite (bool_decide_eq_true_2 _ Hnext), andb_true_r.
  replace (i + 1)%nat with (S i) by lia.
  destruct (cs0 !! S i) as [b|] eqn:Hb.
  - assert (HSlt : (S i < length cs0)%nat) by (eapply lookup_lt_Some; eassumption).
    rewrite bool_decide_eq_true_2 by lia.
    destruct (should_merge a b); [reflexivity | exact Hback].
  - destruct (bool_decide (i < length cs0 - 1)%nat); exact Hback.
Qed.

Lemma elements_pair_set i : elements (pair_set i (S i)) ≡ₚ [i; S i].
Proof.
  unfold pair_set. rewrite elements_disj_union.
  - now rewrite !elements_singleton.
  - intros x Hx Hy. apply elem_of_singleton in Hx, Hy. lia.
Qed.

Lemma trace_indices_snoc tr e :
  trace_indices (tr ++ [e]) = (trace_indices tr ++ elements (snd e))%list.
Proof.
  unfold trace_indices. rewrite map_app, concat_app. simpl.
  now rewrite app_nil_r.
Qed.

(** The invariant survives a skipped, already consumed index. *)
Lemma scan_inv_skip cs0 i st tr :
  inv cs0 i st tr -> i ∈ st_consumed st -> inv cs0 (S i) st tr.
Proof.
  intros Hinv Hin. destruct Hinv as [Hlen Hstore Hbound Hstuck Hcover Hbuilt Hexp].
  constructor; try assumption.
  - intros j Hj. destruct (Hbound j Hj). lia.
  - intros j a b Hj Hfree. apply Hstuck; [|exact Hfree].
    assert (j ≠ i) by (intros ->; contradiction). lia.
  - rewrite Hcover, (bool_decide_eq_true_2 _ Hin).
    rewrite bool_decide_eq_false_2, app_nil_r.
    + now rewrite seq_S.
    + intros HS. destruct (Hbound _ HS). lia.
  - intros j. rewrite Hexp. split; intros [Hj Hfree]; split; try assumption; [lia|].
    assert (j ≠ i) by (intros ->; contradiction). lia.
Qed.

(** ... a pass-through, with or without the oversize label on the stored
    chunk ... *)
Lemma scan_inv_pass cs0 i st tr a out cs' :
  inv cs0 i st tr -> i ∉ st_consumed st -> cs0 !! i = Some a ->
  MIN_CHUNK_SIZE config <= chunk_size a ->
  out = (if chunk_size a >? MAX_CHUNK_SIZE config
         then add_label "large_chunk" a else a) ->
  cs' = st_chunks st \/ cs' = <[ i := out ]> (st_chunks st) ->
  inv cs0 (S i)
    (mkScan cs' (st_consumed st ∪ {[ i ]}) (st_optimized st ++ [out]))
    (tr ++ [(PassThrough, {[ i ]})]).
Proof.
  intros Hinv Hfree Ha Hmin Hout Hcs.
  assert (Hlt : (i < length cs0)%nat) by (eapply lookup_lt_Some; eassumption).
  destruct Hinv as [Hlen Hstore Hbound Hstuck Hcover Hbuilt Hexp].
  constructor; cbn [st_chunks st_consumed st_optimized].
  - destruct Hcs as [-> | ->]; [exact Hlen | now rewrite length_insert].
  - intros j Hj. rewrite not_elem_of_union, not_elem_of_singleton in Hj.
    destruct Hj as [Hj Hne].
    destruct Hcs as [-> | ->]; [now apply Hstore|].
    rewrite list_lookup_insert_ne by congruence. now apply Hstore.
  - intros j Hj. rewrite elem_of_union, elem_of_singleton in Hj.
    destruct Hj as [Hj | ->]; [destruct (Hbound j Hj)|]; lia.
  - intros j x y Hj Hnot. rewrite not_elem_of_union, not_elem_of_singleton in Hnot.
    destruct Hnot as [Hnot Hne]. apply Hstuck; [lia | exact Hnot].
  - rewrite trace_indices_snoc, Hcover. cbn [snd].
    rewrite (bool_decide_eq_false_2 _ Hfree), app_nil_r, elements_singleton.
    rewrite bool_decide_eq_false_2, app_nil_r.
    + now rewrite seq_S.
    + intros HS. rewrite elem_of_union, elem_of_singleton in HS.
      destruct HS as [HS | HS]; [destruct (Hbound _ HS)|]; lia.
  - apply Forall2_app; [exact Hbuilt|].
    constructor; [|constructor]. subst out. now constructor.
  - intros j. rewrite in_app_iff, Hexp, not_elem_of_union, not_elem_of_singleton.
    simpl. split.
    + intros [[Hj Hnot] | [Heq | []]]; [|discriminate Heq].
      repeat split; [lia | exact Hnot | lia].
    + intros (Hj & Hnot & Hne). left. split; [lia | exact Hnot].
Qed.

(** ... an expansion, which leaves [consumed] as it is ... *)
Lemma scan_inv_expand cs0 i st tr a :
  inv cs0 i st tr -> i ∉ st_consumed st -> cs0 !! i = Some a ->
  chunk_size a < MIN_CHUNK_SIZE config ->
  (forall b, cs0 !! S i = Some b -> should_merge a b = false) ->
  inv cs0 (S i)
    (mkScan (st_chunks st) (st_consumed st)
            (st_optimized st ++ [_expand_with_context config read_lines a]))
    (tr ++ [(Expand, {[ i ]})]).
Proof.
  intros Hinv Hfree Ha Hsmall Hno.
  destruct Hinv as [Hlen Hstore Hbound Hstuck Hcover Hbuilt Hexp].
  constructor; cbn [st_chunks st_consumed st_optimized]; try assumption.
  - intros j Hj. destruct (Hbound j Hj). lia.
  - intros j x y Hj Hnot Hx Hy.
    destruct (decide (j = i)) as [-> | Hne].
    + rewrite Ha in Hx. inversion Hx; subst x. now apply Hno.
    + apply (Hstuck j x y); try assumption. lia.
  - rewrite trace_indices_snoc, Hcover. cbn [snd].
    rewrite (bool_decide_eq_false_2 _ Hfree), app_nil_r, elements_singleton.
    rewrite bool_decide_eq_false_2, app_nil_r.
    + now rewrite seq_S.
    + intros HS. destruct (Hbound _ HS). lia.
  - apply Forall2_app; [exact Hbuilt|].
    constructor; [|constructor]. now constructor.
  - intros j. rewrite in_app_iff, Hexp. simpl. split.
    + intros [[Hj Hnot] | [Heq | []]]; [split; [lia | exact Hnot]|].
      apply (f_equal snd) in Heq. cbn [snd] in Heq.
      apply (inj singleton) in Heq. subst j.
      split; [lia | exact Hfree].
    + intros [Hj Hnot]. destruct (decide (j = i)) as [-> | Hne].
      * right. left. reflexivity.
      * left. split; [lia | exact Hnot].
Qed.

(** ... and a forward merge, which consumes the index and its successor. *)
Lemma scan_inv_merge cs0 i st tr a b :
  inv cs0 i st tr -> i ∉ st_consumed st ->
  cs0 !! i = Some a -> cs0 !! S i = Some b ->
  chunk_size a < MIN_CHUNK_SIZE config ->
  should_merge a b = true ->
  inv cs0 (S i)
    (mkScan (st_chunks st) (st_consumed st ∪ pair_set i (S i))
            (st_optimized st ++ [_merge_chunks read_lines set_order a b]))
    (tr ++ [(Merge, pair_set i (S i))]).
Proof.
  intros Hinv Hfree Ha Hb Hsmall Hyes.
  assert (Hlt : (S i < length cs0)%nat) by (eapply lookup_lt_Some; eassumption).
  destruct Hinv as [Hlen Hstore Hbound Hstuck Hcover Hbuilt Hexp].
  constructor; cbn [st_chunks st_consumed st_optimized]; try assumption.
  - intros j Hj. apply Hstore. intros Hin. apply Hj, elem_of_union. now left.
  - intros j Hj. unfold pair_set in Hj.
    rewrite !elem_of_union, !elem_of_singleton in Hj.
    destruct Hj as [Hj | [-> | ->]]; [destruct (Hbound j Hj)| |]; lia.
  - intros j x y Hj Hnot. unfold pair_set in Hnot.
    rewrite !not_elem_of_union, !not_elem_of_singleton in Hnot.
    destruct Hnot as (Hnot & Hne & _). apply Hstuck; [lia | exact Hnot].
  - rewrite trace_indices_snoc, Hcover. cbn [snd].
    rewrite (bool_decide_eq_false_2 _ Hfree), app_nil_r, elements_pair_set.
    rewrite bool_decide_eq_true_2.
    + rewrite seq_S. simpl. now rewrite <- app_assoc.
    + unfold pair_set. rewrite !elem_of_union, !elem_of_singleton. auto.
  - apply Forall2_app; [exact Hbuilt|].
    constructor; [|constructor]. now constructor.
  - intros j. unfold pair_set.
    rewrite in_app_iff, Hexp, !not_elem_of_union, !not_elem_of_singleton.
    simpl. split.
    + intros [[Hj Hnot] | [Heq | []]]; [|discriminate Heq].
      repeat split; [lia | exact Hnot | lia | lia].
    + intros (Hj & Hnot & Hne & _). left. split; [lia | exact Hnot].
Qed.

(** One loop iteration keeps the invariant. *)
Lemma scan_inv_step cs0 i st tr :
  inv cs0 i st tr -> (i < length cs0)%nat ->
  inv cs0 (S i) (fst (tstep (st, tr) i)) (snd (tstep (st, tr) i)).
Proof.
  intros Hinv Hlt. unfold traced_step, scan_step, step_provenance.
  cbn [fst snd].
  destruct (bool_decide_reflect (i ∈ st_consumed st)) as [Hin | Hfree].
  { rewrite app_nil_r. now apply scan_inv_skip. }
  rewrite (inv_store _ _ _ _ _ _ _ Hinv) by exact Hfree.
  destruct (lookup_lt_is_Some_2 cs0 i Hlt) as [a Ha]. rewrite Ha.
  fold (chunk_size a).
  destruct (Z.ltb_spec (chunk_size a) (MIN_CHUNK_SIZE config)) as [Hsmall | Hmin].
  - rewrite (try_merge_forward_only cs0 i st tr a Hinv Hfree Ha).
    destruct (cs0 !! S i) as [b|] eqn:Hb.
    + destruct (should_merge a b) eqn:Hm.
      * now apply scan_inv_merge.
      * apply scan_inv_expand; try assumption.
        intros b' Hb'. rewrite Hb in Hb'. injection Hb' as <-. exact Hm.
    + apply scan_inv_expand; try assumption.
      intros b' Hb'. rewrite Hb in Hb'. discriminate Hb'.
  - destruct (chunk_size a >? MAX_CHUNK_SIZE config) eqn:Hbig.
    + eapply scan_inv_pass; try eassumption; try lia.
      * now rewrite Hbig.
      * right. reflexivity.
    + eapply scan_inv_pass; try eassumption; try lia.
      * now rewrite Hbig.
      * left. reflexivity.
Qed.

Lemma scan_inv_run cs0 k : forall i st tr,
  (i + k = length cs0)%nat ->
  inv cs0 i st tr ->
  inv cs0 (length cs0)
    (fst (fold_left tstep (seq i k) (st, tr)))
    (snd (fold_left tstep (seq i k) (st, tr))).
Proof.
  induction k as [|k IH]; intros i st tr Hlen Hinv; simpl.
  - replace (length cs0) with i by lia. exact Hinv.
  - destruct (tstep (st, tr) i) as [st' tr'] eqn:Hstep.
    apply (IH (S i)); [lia|].
    pose proof (scan_inv_step cs0 i st tr Hinv ltac:(lia)) as Hnext.
    now rewrite Hstep in Hnext.
Qed.

(** The invariant at the end of the scan. *)
Lemma scan_inv_final chunks :
  inv chunks (length chunks)
    (scan config read_lines set_order chunks)
    (provenance config read_lines set_order chunks).
Proof.
  pose proof (scan_inv_run chunks (length chunks) 0 (scan_init chunks) []
                eq_refl (scan_inv_init chunks)) as Hinv.
  rewrite traced_scan_erase in Hinv. exact Hinv.
Qed.

(** The indices the validation lists as unconsumed are the expanded ones. *)
Lemma unconsumed_iff_expanded chunks j :
  j ∈ unconsumed config read_lines set_order chunks <->
  In (Expand, ({[ j ]} : gset nat)) (provenance config read_lines set_order chunks).
Proof.
  rewrite (inv_expanded _ _ _ _ _ _ _ (scan_inv_final chunks)).
  unfold unconsumed, consumed_after.
  rewrite elem_of_difference, elem_of_list_to_set, list_elem_of_In, in_seq.
  split; intros [Hj Hnot]; (split; [lia | exact Hnot]).
Qed.

(** The validation warns exactly when some chunk was expanded. *)
Lemma validation_warns_iff_expanded chunks :
  validation_warns config read_lines set_order chunks = true <->
  exists j, In (Expand, ({[ j ]} : gset nat))
              (provenance config read_lines set_order chunks).
Proof.
  pose proof (scan_inv_final chunks) as Hinv.
  set (all := list_to_set (seq 0 (length chunks)) : gset nat).
  assert (Hsize : size all = length chunks).
  { unfold all. rewrite size_list_to_set by apply NoDup_seq. apply length_seq. }
  assert (Hsub : consumed_after config read_lines set_order chunks ⊆ all).
  { intros x Hx. apply elem_of_list_to_set, list_elem_of_In, in_seq.
    destruct (inv_bound _ _ _ _ _ _ _ Hinv x Hx). lia. }
  unfold validation_warns. rewrite negb_true_iff, Nat.eqb_neq. split.
  - intros Hne.
    assert (Hpos : (0 < size (all ∖ consumed_after config read_lines set_order chunks))%nat).
    { rewrite size_difference by exact Hsub.
      pose proof (subseteq_size _ _ Hsub). lia. }
    apply size_pos_elem_of in Hpos as [j Hj].
    exists j. apply unconsumed_iff_expanded. exact Hj.
  - intros [j Hj] Heq. apply unconsumed_iff_expanded in Hj.
    unfold unconsumed in Hj. fold all in Hj.
    rewrite (set_subseteq_size_eq _ _ Hsub) in Hj by lia.
    apply elem_of_difference in Hj as [Hin Hnot]. contradiction.
Qed.

(** C1: the optimizer's output is, entry by entry, built from the input as
    its provenance trace says (a forward merge of a small chunk with its
    successor, an expansion, or a pass-through), and the indices of the trace
    are the input indices [0 .. n-1], each exactly once: none is used twice,
    none is dropped, and an emitted chunk is never a later merge partner. *)
Theorem optimizer_accounts_for_every_chunk (chunks : list TypeScriptChunk) :
  let out := _optimize_file_chunks config read_lines set_order chunks in
  let tr := provenance config read_lines set_order chunks in
  Forall2 (built_from config read_lines set_order chunks) tr out /\
  trace_indices tr ≡ₚ seq 0 (length chunks) /\
  NoDup (trace_indices tr) /\
  (forall i, In i (trace_indices tr) <-> (i < length chunks)%nat).
Proof.
  intros out tr.
  destruct (scan_inv_final chunks) as [_ _ Hbound _ Hcover Hbuilt _].
  assert (Hperm : trace_indices tr ≡ₚ seq 0 (length chunks)).
  { unfold tr, provenance. rewrite Hcover.
    rewrite bool_decide_eq_false_2, app_nil_r; [reflexivity|].
    intros Hin. destruct (Hbound _ Hin). lia. }
  split; [exact Hbuilt|]. split; [exact Hperm|]. split.
  - rewrite Hperm. apply NoDup_seq.
  - intros i. split; intros Hi.
    + apply (Permutation_in _ Hperm), in_seq in Hi. lia.
    + apply (Permutation_in _ (Permutation_sym Hperm)), in_seq. lia.
Qed.

End Accounting.

(** ** The completeness check after an expansion *)

(** C2: a lone below-minimum chunk cannot be merged and is expanded, but the
    expansion branch does not add its index to [consumed]: after the scan
    [consumed] is empty although one chunk was processed, so the validation
    reports a shortfall and lists index 0 as unconsumed. *)
Theorem expansion_leaves_index_unconsumed :
  forall read_lines set_order,
    let chunks := [tiny_function] in
    chunk_size tiny_function < MIN_CHUNK_SIZE default_config /\
    provenance default_config read_lines set_order chunks = [(Expand, {[ 0%nat ]})] /\
    _optimize_file_chunks default_config read_lines set_order chunks
      = [_expand_with_context default_config read_lines tiny_function] /\
    consumed_after default_config read_lines set_order chunks = ∅ /\
    validation_warns default_config read_lines set_order chunks = true /\
    unconsumed default_config read_lines set_order chunks = {[ 0%nat ]}.
Proof.
  intros read_lines set_order chunks.
  assert (Hcons : consumed_after default_config read_lines set_order chunks = ∅)
    by reflexivity.
  split; [unfold chunk_size; simpl; lia|].
  split; [reflexivity|]. split; [reflexivity|]. split; [exact Hcons|].
  split.
  - unfold validation_warns. rewrite Hcons. reflexivity.
  - unfold unconsumed. rewrite Hcons. simpl.
    apply set_eq. intros x. set_solver.
Qed.

(** ** Two scenarios of the specification, run on the model *)

(** A getter and its setter, two lines apart, become one [function_group]
    chunk covering both. *)
Example merge_scenario :
  forall read_lines set_order,
    map (fun c => (chunk_type c, name c, start_line c, end_line c))
        (_optimize_file_chunks default_config read_lines set_order
           [ new_chunk "" "function" "getX" 10 14 "a.ts" "typescript" [];
             new_chunk "" "function" "setX" 16 19 "a.ts" "typescript" [] ])
    = [("function_group", "getX_and_setX", 10, 19)].
Proof. intros read_lines set_order. reflexivity. Qed.

(** A 200-line class passes through with the oversize label and nothing else
    changed. *)
Example oversize_scenario :
  forall read_lines set_order,
    let big := new_chunk "class Big {}" "class" "Big" 1 200 "a.ts" "typescript" [] in
    _optimize_file_chunks default_config read_lines set_order [big]
    = [add_label "large_chunk" big].
Proof. intros read_lines set_order big. reflexivity. Qed.

(** * Further properties of the chunker *)

(** ** Relatedness of names *)

Lemma prefix_rstrip_digits s : String.prefix (PyStr.rstrip_digits s) s = true.
Proof.
  induction s as [|c r IH]; [reflexivity|].
  cbn [PyStr.rstrip_digits].
  destruct (PyStr.rstrip_digits r) as [|c' r'] eqn:Hr.
  - destruct (PyStr.is_digit c); cbn [String.prefix]; [reflexivity|].
    destruct (ascii_dec c c); [|congruence].
    destruct r; reflexivity.
  - cbn [String.prefix]. destruct (ascii_dec c c); [exact IH | congruence].
Qed.

Lemma prefix_empty s : String.prefix "" s = true.
Proof. destruct s; reflexivity. Qed.

Lemma contains_prefix s sub : String.prefix sub s = true -> PyStr.contains s sub = true.
Proof. intros H. destruct s; cbn [PyStr.contains]; now rewrite H. Qed.

Lemma contains_own_base s : PyStr.contains s (PyStr.rstrip_digits s) = true.
Proof. apply contains_prefix, prefix_rstrip_digits. Qed.

Lemma get_excludes_set s :
  PyStr.startswith s "get" = true -> PyStr.startswith s "set" = false.
Proof.
  unfold PyStr.startswith. destruct s as [|c r]; [discriminate|].
  cbn [String.prefix].
  destruct (ascii_dec "g" c) as [<-|]; [|discriminate].
  intros _. reflexivity.
Qed.

Lemma getter_setter_tests_exclusive n1 n2 :
  PyStr.startswith n1 "get" && PyStr.startswith n2 "set"
  && (PyStr.startswith n1 "set" && PyStr.startswith n2 "get") = false.
Proof.
  destruct (PyStr.startswith n1 "get") eqn:Hg; [|reflexivity].
  now rewrite (get_excludes_set _ Hg), andb_false_r.
Qed.

Lemma existsb_andb_comm {A} (f g : A -> bool) l :
  existsb (fun x => f x && g x) l = existsb (fun x => g x && f x) l.
Proof.
  induction l as [|x l IH]; [reflexivity|]. cbn [existsb].
  now rewrite IH, andb_comm.
Qed.

(** X1: relatedness of names does not depend on the order of the two
    names. *)
Theorem are_related_symmetric (name1 name2 : string) :
  _are_related name1 name2 = _are_related name2 name1.
Proof.
  unfold _are_related.
  rewrite (existsb_andb_comm
             (fun prefix => PyStr.startswith (PyStr.lower name1) prefix)
             (fun prefix => PyStr.startswith (PyStr.lower name2) prefix)).
  generalize (existsb
                (fun x => PyStr.startswith (PyStr.lower name2) x
                          && PyStr.startswith (PyStr.lower name1) x)
                lifecycle_prefixes) as life.
  intros life. cbn [existsb].
  pose proof (getter_setter_tests_exclusive
                (PyStr.lower name1) (PyStr.lower name2)) as Hex.
  rewrite (String.eqb_sym (PyStr.drop 3 (PyStr.lower name2))).
  generalize dependent (PyStr.drop 3 (PyStr.lower name1)
                        =? PyStr.drop 3 (PyStr.lower name2))%string.
  intros same.
  destruct (PyStr.startswith (PyStr.lower name1) "get"),
           (PyStr.startswith (PyStr.lower name2) "set"),
           (PyStr.startswith (PyStr.lower name1) "set"),
           (PyStr.startswith (PyStr.lower name2) "get");
    cbn [andb] in *; try discriminate; try reflexivity;
    destruct life; try reflexivity;
    destruct (PyStr.contains (PyStr.lower name1)
                (PyStr.rstrip_digits (PyStr.lower name1))),
             (PyStr.contains (PyStr.lower name2)
                (PyStr.rstrip_digits (PyStr.lower name1))),
             (PyStr.contains (PyStr.lower name1)
                (PyStr.rstrip_digits (PyStr.lower name2))),
             (PyStr.contains (PyStr.lower name2)
                (PyStr.rstrip_digits (PyStr.lower name2)));
    reflexivity.
Qed.

(** X2: every name is related to itself, so two chunks of the same type and
    the same name in one file are merge-eligible whenever the gap and size
    limits allow. *)
Theorem are_related_reflexive (n : string) : _are_related n n = true.
Proof.
  unfold _are_related.
  match goal with
  | |- context [existsb ?f lifecycle_prefixes] =>
      generalize (existsb f lifecycle_prefixes) as life
  end.
  intros life. cbn [existsb].
  rewrite contains_own_base. cbn [andb orb].
  destruct (PyStr.startswith (PyStr.lower n) "get") eqn:Hg.
  - rewrite (get_excludes_set _ Hg). cbn [andb]. now destruct life.
  - cbn [andb]. rewrite andb_false_r. now destruct life.
Qed.

Lemma rstrip_empty_first_digit c r :
  PyStr.rstrip_digits (String c r) = "" -> PyStr.is_digit c = true.
Proof.
  cbn [PyStr.rstrip_digits].
  destruct (PyStr.rstrip_digits r); [|discriminate].
  destruct (PyStr.is_digit c); [reflexivity | discriminate].
Qed.

Lemma rstrip_empty_no_letter_prefix s p c r :
  PyStr.rstrip_digits s = "" -> p = String c r -> PyStr.is_digit c = false ->
  PyStr.startswith s p = false.
Proof.
  intros Hs -> Hc. unfold PyStr.startswith.
  destruct s as [|c' r']; [reflexivity|].
  cbn [String.prefix]. destruct (ascii_dec c c') as [<-|]; [|reflexivity].
  apply rstrip_empty_first_digit in Hs. congruence.
Qed.

(** X3: a name that consists of digits only (or is empty) is related to
    every name: its base name is the empty string, which occurs in every
    name. *)
Theorem are_related_digits_only (name1 name2 : string) :
  PyStr.rstrip_digits (PyStr.lower name1) = "" ->
  _are_related name1 name2 = true.
Proof.
  intros Hbase. unfold _are_related.
  rewrite (rstrip_empty_no_letter_prefix _ "get" "g" "et" Hbase eq_refl eq_refl).
  rewrite (rstrip_empty_no_letter_prefix _ "set" "s" "et" Hbase eq_refl eq_refl).
  match goal with
  | |- context [existsb ?f lifecycle_prefixes] =>
      generalize (existsb f lifecycle_prefixes) as life
  end.
  intros life. cbn [andb existsb]. rewrite Hbase.
  rewrite !(contains_prefix _ "") by apply prefix_empty.
  cbn [andb orb]. now destruct life.
Qed.

Lemma are_related_digits_only_witness : _are_related "2024" "render" = true.
Proof. apply are_related_digits_only. reflexivity. Defined.

(** ** Merging and expanding *)

(** X4: when the two chunks start on different lines, the merge does not
    depend on the order in which they are passed. *)
Theorem merge_chunks_symmetric
    (read_lines : string -> option (list string))
    (set_order : gset string -> list string) (a b : TypeScriptChunk) :
  start_line a <> start_line b ->
  _merge_chunks read_lines set_order a b = _merge_chunks read_lines set_order b a.
Proof.
  intros Hne. unfold _merge_chunks.
  destruct (Z.ltb_spec (start_line a) (start_line b)),
           (Z.ltb_spec (start_line b) (start_line a));
    try reflexivity; lia.
Qed.

Lemma merge_chunks_symmetric_witness :
  _merge_chunks unreadable elements class_foo class_foobar
  = _merge_chunks unreadable elements class_foobar class_foo.
Proof.
  apply merge_chunks_symmetric. simpl. lia.
Defined.

Lemma should_merge_combined_size config a b :
  _should_merge config a b = true ->
  end_line b - start_line a + 1 <= MAX_CHUNK_SIZE config.
Proof.
  unfold _should_merge.
  destruct (negb _); [discriminate|].
  destruct (_ >? 5); [discriminate|].
  destruct (Z.gtb_spec (end_line b - start_line a + 1) (MAX_CHUNK_SIZE config));
    [discriminate|].
  intros _. lia.
Qed.

Lemma should_merge_same_file config a b :
  _should_merge config a b = true -> file_path a = file_path b.
Proof.
  unfold _should_merge.
  destruct (String.eqb_spec (file_path a) (file_path b)); [auto | discriminate].
Qed.

(** X5: a pair that [_should_merge] accepts and whose first chunk starts
    first merges into a chunk of exactly the combined size, which is within
    [MAX_CHUNK_SIZE]. *)
Theorem merge_of_eligible_pair_fits
    (config : ChunkingConfig) (read_lines : string -> option (list string))
    (set_order : gset string -> list string) (a b : TypeScriptChunk) :
  _should_merge config a b = true ->
  start_line a < start_line b ->
  chunk_size (_merge_chunks read_lines set_order a b)
    = end_line b - start_line a + 1 /\
  chunk_size (_merge_chunks read_lines set_order a b) <= MAX_CHUNK_SIZE config.
Proof.
  intros Hmerge Hlt. apply should_merge_combined_size in Hmerge.
  unfold chunk_size, _merge_chunks.
  destruct (Z.ltb_spec (start_line a) (start_line b)); [|lia].
  simpl. lia.
Qed.

Lemma merge_of_eligible_pair_fits_witness :
  chunk_size (_merge_chunks unreadable elements class_foo class_foobar) = 10 /\
  chunk_size (_merge_chunks unreadable elements class_foo class_foobar)
    <= MAX_CHUNK_SIZE default_config.
Proof.
  apply (merge_of_eligible_pair_fits default_config); [reflexivity|].
  simpl. lia.
Defined.

Lemma expand_size_at_most_min config read_lines c :
  chunk_size c < MIN_CHUNK_SIZE config ->
  chunk_size (_expand_with_context config read_lines c) <= MIN_CHUNK_SIZE config.
Proof.
  intros Hsmall. unfold _expand_with_context.
  destruct (read_lines (file_path c)) as [lines|]; [|lia].
  unfold chunk_size in *. simpl. lia.
Qed.

(** X6: when the file can be read, the expanded chunk lies within the file
    ([1 <= start_line], [end_line <= total_lines]) and has at most
    [MIN_CHUNK_SIZE] lines; for a below-minimum chunk that lies within the
    file it covers the original range, and it has exactly [MIN_CHUNK_SIZE]
    lines when neither file boundary clips it. *)
Theorem expand_with_context_range
    (config : ChunkingConfig) (read_lines : string -> option (list string))
    (c : TypeScriptChunk) (lines : list string) :
  read_lines (file_path c) = Some lines ->
  let e := _expand_with_context config read_lines c in
  let total := Z.of_nat (length lines) in
  let needed := MIN_CHUNK_SIZE config - chunk_size c in
  1 <= start_line e /\
  end_line e <= total /\
  chunk_size e <= MIN_CHUNK_SIZE config /\
  (0 <= needed -> 1 <= start_line c -> end_line c <= total ->
   start_line e <= start_line c /\ end_line c <= end_line e /\
   (1 <= start_line c - needed / 2 ->
    end_line c + (needed - needed / 2) <= total ->
    chunk_size e = MIN_CHUNK_SIZE config)).
Proof.
  intros Hread e total needed. subst e total needed.
  unfold _expand_with_context. rewrite Hread. unfold chunk_size. simpl.
  set (n := MIN_CHUNK_SIZE config - (end_line c - start_line c + 1)).
  assert (Hhalf : 0 <= n -> 0 <= n / 2 <= n).
  { intros Hn. split; [apply Z.div_pos; lia | apply Z.div_le_upper_bound; lia]. }
  repeat split; try lia.
Qed.

Lemma expand_with_context_range_witness :
  let e := _expand_with_context default_config twenty_lines middle_function in
  start_line e = 3 /\ end_line e = 17 /\
  chunk_size e = MIN_CHUNK_SIZE default_config.
Proof.
  destruct (expand_with_context_range default_config twenty_lines middle_function
              (repeat newline 20) eq_refl)
    as (_ & _ & _ & Hin).
  destruct Hin as (_ & _ & Hfull);
    try (vm_compute; congruence).
  split; [reflexivity|]. split; [reflexivity|].
  apply Hfull; vm_compute; congruence.
Defined.

(** ** What the optimizer emits *)

Lemma ascending_adjacent l : forall i a b,
  ascending l -> l !! i = Some a -> l !! S i = Some b ->
  start_line a <= start_line b.
Proof.
  unfold ascending.
  induction l as [|x l IH]; intros i a b Hsorted Ha Hb; [discriminate Ha|].
  apply StronglySorted_cons in Hsorted as [Hall Hsorted].
  destruct i as [|i]; simpl in Ha, Hb.
  - injection Ha as <-. exact (Forall_lookup_1 _ _ _ _ Hall Hb).
  - exact (IH i a b Hsorted Ha Hb).
Qed.

Lemma insert_by_start_ascending x l :
  ascending l -> ascending (insert_by_start x l).
Proof.
  unfold ascending. induction l as [|y r IH]; intros Hsorted; simpl.
  - repeat constructor.
  - pose proof Hsorted as Hyr.
    apply StronglySorted_cons in Hyr as [Hall Hr].
    destruct (Z.leb_spec (start_line x) (start_line y)) as [Hle | Hgt].
    + constructor; [exact Hsorted|].
      constructor; [exact Hle|].
      eapply Forall_impl; [exact Hall|]. simpl. intros z Hz. lia.
    + constructor; [apply IH; exact Hr|].
      eapply Permutation_Forall; [symmetry; apply insert_by_start_perm|].
      constructor; [lia | exact Hall].
Qed.

Lemma sort_by_start_is_ascending l : ascending (sort_by_start l).
Proof.
  unfold sort_by_start. induction l as [|x l IH]; simpl.
  - constructor.
  - apply insert_by_start_ascending, IH.
Qed.

Section Emitted.

Context (config : ChunkingConfig).
Context (read_lines : string -> option (list string)).
Context (set_order : gset string -> list string).

Abbreviation optimize_file := (_optimize_file_chunks config read_lines set_order).
Abbreviation built := (built_from config read_lines set_order).

(** Every emitted chunk has a provenance. *)
Lemma optimize_file_built chunks out :
  In out (optimize_file chunks) -> exists e, built chunks e out.
Proof.
  intros Hin.
  pose proof (inv_built _ _ _ _ _ _ _
                (scan_inv_final config read_lines set_order chunks)) as Hbuilt.
  apply list_elem_of_In, list_elem_of_lookup in Hin as [i Hi].
  destruct (Forall2_lookup_r _ _ _ _ _ Hbuilt Hi) as (e & _ & He).
  exists e. exact He.
Qed.

Lemma provenance_cover chunks :
  trace_indices (provenance config read_lines set_order chunks)
  ≡ₚ seq 0 (length chunks).
Proof.
  destruct (scan_inv_final config read_lines set_order chunks)
    as [_ _ Hbound _ Hcover _ _].
  rewrite Hcover, bool_decide_eq_false_2, app_nil_r; [reflexivity|].
  intros Hin. destruct (Hbound _ Hin). lia.
Qed.

Lemma built_size_or_flag chunks e out :
  ascending chunks ->
  MIN_CHUNK_SIZE config <= MAX_CHUNK_SIZE config ->
  built chunks e out ->
  chunk_size out <= MAX_CHUNK_SIZE config \/ "large_chunk" ∈ semantic_labels out.
Proof.
  intros Hasc Hconf Hbuilt.
  destruct Hbuilt as [i a b Ha Hb Hsmall Hmerge | i a Ha Hsmall | i a Ha Hmin].
  - left. pose proof (ascending_adjacent _ _ _ _ Hasc Ha Hb) as Hle.
    apply should_merge_combined_size in Hmerge.
    unfold chunk_size in *. unfold _merge_chunks.
    destruct (Z.ltb_spec (start_line a) (start_line b)); simpl; lia.
  - left. pose proof (expand_size_at_most_min config read_lines a Hsmall). lia.
  - destruct (Z.gtb_spec (chunk_size a) (MAX_CHUNK_SIZE config)).
    + right. unfold add_label. simpl. set_solver.
    + left. lia.
Qed.

Lemma built_file_path chunks e out :
  built chunks e out -> exists c, In c chunks /\ file_path out = file_path c.
Proof.
  intros Hbuilt.
  destruct Hbuilt as [i a b Ha Hb Hsmall Hmerge | i a Ha Hsmall | i a Ha Hmin].
  - unfold _merge_chunks.
    destruct (start_line a <? start_line b); simpl.
    + exists a. split; [|reflexivity].
      apply list_elem_of_In, list_elem_of_lookup. eauto.
    + exists b. split; [|reflexivity].
      apply list_elem_of_In, list_elem_of_lookup. eauto.
  - exists a. split; [apply list_elem_of_In, list_elem_of_lookup; eauto|].
    unfold _expand_with_context. now destruct (read_lines (file_path a)).
  - exists a. split; [apply list_elem_of_In, list_elem_of_lookup; eauto|].
    now destruct (chunk_size a >? MAX_CHUNK_SIZE config).
Qed.

Lemma built_trace_length chunks tr outs :
  Forall2 (built chunks) tr outs ->
  (length tr <= length (trace_indices tr) <= 2 * length tr)%nat.
Proof.
  induction 1 as [|e out tr outs Hbuilt _ IH]; [simpl; lia|].
  assert (Hlen : (1 <= length (elements (snd e)) <= 2)%nat).
  { destruct Hbuilt; cbn [snd].
    - rewrite (Permutation_length (elements_pair_set i)). simpl. lia.
    - rewrite elements_singleton. simpl. lia.
    - rewrite elements_singleton. simpl. lia. }
  unfold trace_indices in *. cbn [map concat]. rewrite length_app.
  cbn [length]. lia.
Qed.

Lemma optimize_file_length chunks :
  (length (optimize_file chunks) <= length chunks
   <= 2 * length (optimize_file chunks))%nat.
Proof.
  pose proof (inv_built _ _ _ _ _ _ _
                (scan_inv_final config read_lines set_order chunks)) as Hbuilt.
  pose proof (built_trace_length _ _ _ Hbuilt) as Hlen.
  rewrite (Permutation_length (provenance_cover chunks)), length_seq in Hlen.
  rewrite (Forall2_length _ _ _ Hbuilt) in Hlen. exact Hlen.
Qed.

(** Where an output chunk of [optimize_chunks] comes from: the optimized,
    sorted chunks of one file. *)
Lemma optimize_chunks_in chunks out :
  In out (optimize_chunks config read_lines set_order chunks) ->
  exists kv, In kv (group_by_file chunks) /\
             In out (optimize_file (sort_by_start (snd kv))).
Proof.
  unfold optimize_chunks. destruct chunks as [|c0 rest]; [intros []|].
  rewrite (extend_fold_concat
             (fun v => optimize_file (sort_by_start v))).
  cbn [app]. intros Hin. apply in_concat in Hin as (l & Hl & Hout).
  apply in_map_iff in Hl as (kv & <- & Hkv). eauto.
Qed.

Lemma group_member chunks kv c :
  In kv (group_by_file chunks) -> In c (snd kv) -> In c chunks.
Proof.
  intros Hkv Hc.
  apply (Permutation_in _ (group_by_file_perm chunks)).
  apply in_concat. exists (snd kv). split; [now apply in_map|exact Hc].
Qed.

(** X7: with [MIN_CHUNK_SIZE <= MAX_CHUNK_SIZE], every chunk that
    [optimize_chunks] returns either has at most [MAX_CHUNK_SIZE] lines or
    carries the [large_chunk] label: merging and expanding never produce an
    unflagged oversized chunk. *)
Theorem optimize_chunks_sized_or_flagged (chunks : list TypeScriptChunk)
    (out : TypeScriptChunk) :
  MIN_CHUNK_SIZE config <= MAX_CHUNK_SIZE config ->
  In out (optimize_chunks config read_lines set_order chunks) ->
  chunk_size out <= MAX_CHUNK_SIZE config \/ "large_chunk" ∈ semantic_labels out.
Proof.
  intros Hconf Hin.
  apply optimize_chunks_in in Hin as (kv & _ & Hout).
  apply optimize_file_built in Hout as [e He].
  eapply built_size_or_flag; [apply sort_by_start_is_ascending | exact Hconf | exact He].
Qed.

(** X8: [optimize_chunks] never returns more chunks than it was given and
    never fewer than half of them, since a merge joins exactly two. *)
Theorem optimize_chunks_length (chunks : list TypeScriptChunk) :
  (length (optimize_chunks config read_lines set_order chunks) <= length chunks
   <= 2 * length (optimize_chunks config read_lines set_order chunks))%nat.
Proof.
  rewrite <- (Permutation_length (group_by_file_perm chunks)).
  unfold optimize_chunks. destruct chunks as [|c0 rest]; [simpl; lia|].
  rewrite (extend_fold_concat (fun v => optimize_file (sort_by_start v))).
  cbn [app]. generalize (group_by_file (c0 :: rest)) as g.
  induction g as [|[k v] g IH]; [simpl; lia|].
  cbn [map concat snd]. rewrite !length_app.
  pose proof (optimize_file_length (sort_by_start v)) as Hv.
  rewrite (Permutation_length (sort_by_start_perm v)) in Hv. lia.
Qed.

(** X9: every chunk that [optimize_chunks] returns carries the file path of
    one of the input chunks: no chunk is moved to another file, and chunks of
    different files are never merged. *)
Theorem optimize_chunks_file_path (chunks : list TypeScriptChunk)
    (out : TypeScriptChunk) :
  In out (optimize_chunks config read_lines set_order chunks) ->
  exists c, In c chunks /\ file_path out = file_path c.
Proof.
  intros Hin.
  apply optimize_chunks_in in Hin as (kv & Hkv & Hout).
  apply optimize_file_built in Hout as [e He].
  apply built_file_path in He as (c & Hc & Hpath).
  exists c. split; [|exact Hpath].
  apply (group_member chunks kv c Hkv).
  apply (Permutation_in _ (sort_by_start_perm (snd kv))). exact Hc.
Qed.

End Emitted.

Lemma optimize_chunks_sized_or_flagged_witness :
  chunk_size (add_label "large_chunk"
                (new_chunk "class Big {}" "class" "Big" 1 200 "a.ts" "typescript" []))
    <= MAX_CHUNK_SIZE default_config \/
  "large_chunk"
    ∈ semantic_labels
        (add_label "large_chunk"
           (new_chunk "class Big {}" "class" "Big" 1 200 "a.ts" "typescript" [])).
Proof.
  apply (optimize_chunks_sized_or_flagged default_config unreadable elements
           [new_chunk "class Big {}" "class" "Big" 1 200 "a.ts" "typescript" []]).
  - simpl. lia.
  - left. reflexivity.
Defined.

Lemma optimize_chunks_file_path_witness :
  exists c, In c [class_foo; class_foobar] /\
            file_path (_merge_chunks unreadable elements class_foo class_foobar)
            = file_path c.
Proof.
  apply (optimize_chunks_file_path default_config unreadable elements).
  left. reflexivity.
Defined.

(** ** [analyze_chunks] *)

Lemma count_if_cons p x l :
  count_if p (x :: l) = (if p x then 1 else 0) + count_if p l.
Proof.
  unfold count_if. cbn [List.filter]. destruct (p x); cbn [length]; lia.
Qed.

Lemma size_classes_partition lo hi l :
  lo <= hi + 1 ->
  count_if (fun s => s <? lo) l + count_if (fun s => s >? hi) l
  + count_if (fun s => (lo <=? s) && (s <=? hi)) l = Z.of_nat (length l).
Proof.
  intros Hconf. induction l as [|x l IH]; [reflexivity|].
  rewrite !count_if_cons. cbn [length].
  destruct (Z.ltb_spec x lo), (Z.gtb_spec x hi), (Z.leb_spec lo x),
           (Z.leb_spec x hi); cbn [andb]; lia.
Qed.

Lemma list_min_spec l : forall x,
  list_min x l <= x /\ Forall (fun y => list_min x l <= y) l /\
  In (list_min x l) (x :: l).
Proof.
  unfold list_min. induction l as [|y l IH]; intros x; cbn [fold_left].
  - split; [lia|]. split; [constructor | now left].
  - destruct (IH (Z.min x y)) as (Hle & Hall & Hin).
    split; [lia|]. split; [constructor; [lia | exact Hall]|].
    destruct Hin as [Heq | Hin]; [|right; right; exact Hin].
    rewrite <- Heq.
    destruct (Z.min_spec x y) as [[_ ->] | [_ ->]]; [left | right; left];
      reflexivity.
Qed.

Lemma list_max_spec l : forall x,
  x <= list_max x l /\ Forall (fun y => y <= list_max x l) l /\
  In (list_max x l) (x :: l).
Proof.
  unfold list_max. induction l as [|y l IH]; intros x; cbn [fold_left].
  - split; [lia|]. split; [constructor | now left].
  - destruct (IH (Z.max x y)) as (Hle & Hall & Hin).
    split; [lia|]. split; [constructor; [lia | exact Hall]|].
    destruct Hin as [Heq | Hin]; [|right; right; exact Hin].
    rewrite <- Heq.
    destruct (Z.max_spec x y) as [[_ ->] | [_ ->]]; [right; left | left];
      reflexivity.
Qed.

Lemma count_fold_lookup t chunks : forall counts : gmap string Z,
  default 0
    (fold_left
       (fun (counts : gmap string Z) chunk =>
          <[ chunk_type chunk := default 0 (counts !! chunk_type chunk) + 1 ]> counts)
       chunks counts !! t)
  = default 0 (counts !! t) + count_type t chunks.
Proof.
  unfold count_type. induction chunks as [|c chunks IH]; intros counts.
  - simpl. lia.
  - cbn [fold_left List.filter]. rewrite IH.
    destruct (String.eqb_spec (chunk_type c) t) as [-> | Hne].
    + rewrite lookup_insert_eq. cbn [from_option id length]. lia.
    + rewrite lookup_insert_ne by exact Hne. lia.
Qed.

Lemma count_fold_dom t chunks : forall counts : gmap string Z,
  is_Some
    (fold_left
       (fun (counts : gmap string Z) chunk =>
          <[ chunk_type chunk := default 0 (counts !! chunk_type chunk) + 1 ]> counts)
       chunks counts !! t)
  <-> is_Some (counts !! t) \/ exists c, In c chunks /\ chunk_type c = t.
Proof.
  induction chunks as [|c chunks IH]; intros counts.
  - simpl. split; [auto | intros [H | (c & [] & _)]; exact H].
  - cbn [fold_left]. rewrite IH. split.
    + intros [Hsome | (c' & Hin & Hty)].
      * destruct (decide (chunk_type c = t)) as [Heq | Hne].
        -- right. exists c. split; [now left | exact Heq].
        -- left. now rewrite lookup_insert_ne in Hsome.
      * right. exists c'. split; [now right | exact Hty].
    + intros [Hsome | (c' & [<- | Hin] & Hty)].
      * left. destruct (decide (chunk_type c = t)) as [-> | Hne].
        -- rewrite lookup_insert_eq. eauto.
        -- now rewrite lookup_insert_ne.
      * left. rewrite Hty, lookup_insert_eq. eauto.
      * right. eauto.
Qed.

(** X10: the three size classes [analyze_chunks] counts (under the minimum,
    over the maximum, optimal) add up to the number of chunks whenever
    [MIN_CHUNK_SIZE <= MAX_CHUNK_SIZE + 1]; an empty list yields the empty
    dictionary and a non-empty one never does. *)
Theorem analyze_chunks_classes (config : ChunkingConfig)
    (chunks : list TypeScriptChunk) :
  (analyze_chunks config chunks = None <-> chunks = []) /\
  (MIN_CHUNK_SIZE config <= MAX_CHUNK_SIZE config + 1 ->
   forall stats, analyze_chunks config chunks = Some stats ->
     total_chunks stats = Z.of_nat (length chunks) /\
     under_min stats + over_max stats + optimal stats = total_chunks stats).
Proof.
  split.
  - destruct chunks; simpl; split; intros H; congruence.
  - intros Hconf stats Hstats. destruct chunks as [|c0 rest]; [discriminate|].
    injection Hstats as <-. cbn [total_chunks under_min over_max optimal].
    split; [reflexivity|].
    rewrite (size_classes_partition _ _ _ Hconf). cbn [length].
    now rewrite length_map.
Qed.

Lemma analyze_chunks_classes_witness :
  MIN_CHUNK_SIZE default_config <= MAX_CHUNK_SIZE default_config + 1 /\
  match analyze_chunks default_config [class_foo; late_class] with
  | Some stats =>
      total_chunks stats = 2 /\
      under_min stats + over_max stats + optimal stats = total_chunks stats
  | None => False
  end.
Proof.
  assert (Hconf : MIN_CHUNK_SIZE default_config <= MAX_CHUNK_SIZE default_config + 1)
    by (simpl; lia).
  split; [exact Hconf|].
  destruct (analyze_chunks default_config [class_foo; late_class])
    as [stats|] eqn:Hstats; [|discriminate Hstats].
  exact (proj2 (analyze_chunks_classes default_config [class_foo; late_class])
           Hconf stats Hstats).
Defined.

(** X11: the [min_size] and [max_size] that [analyze_chunks] reports bound
    the size of every chunk, and each is the size of some chunk of the
    list. *)
Theorem analyze_chunks_extremes (config : ChunkingConfig)
    (chunks : list TypeScriptChunk) (stats : ChunkStats) :
  analyze_chunks config chunks = Some stats ->
  (forall c, In c chunks -> min_size stats <= chunk_size c <= max_size stats) /\
  (exists c, In c chunks /\ chunk_size c = min_size stats) /\
  (exists c, In c chunks /\ chunk_size c = max_size stats).
Proof.
  intros Hstats. destruct chunks as [|c0 rest]; [discriminate|].
  injection Hstats as <-. cbn [min_size max_size].
  set (sizes := map (fun c => end_line c - start_line c + 1) rest).
  destruct (list_min_spec sizes (end_line c0 - start_line c0 + 1))
    as (Hmin0 & Hmin & Hminin).
  destruct (list_max_spec sizes (end_line c0 - start_line c0 + 1))
    as (Hmax0 & Hmax & Hmaxin).
  assert (Hsizes : forall c, In c rest -> In (chunk_size c) sizes).
  { intros c Hc. unfold sizes. apply in_map_iff. exists c. split; [reflexivity | exact Hc]. }
  assert (Hback : forall s, In s ((end_line c0 - start_line c0 + 1) :: sizes) ->
                    exists c, In c (c0 :: rest) /\ chunk_size c = s).
  { intros s [<- | Hs].
    - exists c0. split; [now left | reflexivity].
    - unfold sizes in Hs. apply in_map_iff in Hs as (c & <- & Hc).
      exists c. split; [now right | reflexivity]. }
  rewrite Forall_forall in Hmin, Hmax.
  split; [|split; [exact (Hback _ Hminin) | exact (Hback _ Hmaxin)]].
  intros c [<- | Hc].
  - unfold chunk_size. lia.
  - apply Hsizes, list_elem_of_In in Hc.
    pose proof (Hmin _ Hc). pose proof (Hmax _ Hc). lia.
Qed.

Lemma analyze_chunks_extremes_witness :
  match analyze_chunks default_config [class_foo; late_class] with
  | Some stats => min_size stats <= chunk_size class_foo <= max_size stats
  | None => False
  end.
Proof.
  destruct (analyze_chunks default_config [class_foo; late_class])
    as [stats|] eqn:Hstats; [|discriminate Hstats].
  apply (proj1 (analyze_chunks_extremes default_config
                  [class_foo; late_class] stats Hstats)).
  left. reflexivity.
Defined.

(** X12: [_count_by_type] has an entry for a type exactly when some chunk has
    that type, and the entry is the number of chunks of that type; the
    entries therefore never hold zero. *)
Theorem count_by_type_counts (chunks : list TypeScriptChunk) (t : string) :
  (is_Some (_count_by_type chunks !! t) <->
   exists c, In c chunks /\ chunk_type c = t) /\
  (forall n, _count_by_type chunks !! t = Some n ->
             n = count_type t chunks /\ 0 < n).
Proof.
  unfold _count_by_type.
  pose proof (count_fold_dom t chunks ∅) as Hdom.
  pose proof (count_fold_lookup t chunks ∅) as Hcount.
  rewrite lookup_empty in Hdom, Hcount. cbn [from_option id] in Hcount.
  split.
  - rewrite Hdom. split; [intros [[x Hx] | H]; [discriminate | exact H] | auto].
  - intros n Hn. rewrite Hn in Hcount. cbn [from_option id] in Hcount.
    split; [lia|].
    assert (Hsome : exists c, In c chunks /\ chunk_type c = t).
    { destruct (proj1 Hdom) as [[x Hx] | H]; [rewrite Hn; eauto | discriminate | exact H]. }
    destruct Hsome as (c & Hc & Hty).
    assert (Hin : In c (List.filter (fun c => String.eqb (chunk_type c) t) chunks)).
    { apply filter_In. split; [exact Hc | now apply String.eqb_eq]. }
    unfold count_type in Hcount.
    destruct (List.filter _ chunks); [destruct Hin|]. cbn [length] in Hcount. lia.
Qed.

Lemma count_by_type_counts_witness :
  _count_by_type [class_foo; tiny_function; class_foobar] !! "class" = Some 2 /\
  2 = count_type "class" [class_foo; tiny_function; class_foobar].
Proof.
  assert (Hlook : _count_by_type [class_foo; tiny_function; class_foobar] !! "class"
                  = Some 2) by (vm_compute; reflexivity).
  split; [exact Hlook|].
  exact (proj1 (proj2 (count_by_type_counts
                         [class_foo; tiny_function; class_foobar] "class")
                  2 Hlook)).
Defined.

(** * Further properties of the parser *)

(** ** Searching the tree *)

(** Induction over a node and all the nodes below it. *)
Lemma Node_induction (P : Node -> Prop) :
  (forall n, (forall c, In c (children n) -> P c) -> P n) ->
  forall n, P n.
Proof.
  intros Hstep. fix IH 1. intros n. apply Hstep.
  destruct n as [t sb eb sr er cs]. unfold children. cbn [fielded_children].
  induction cs as [|[f c] cs IHcs]; intros c' Hin; [destruct Hin|].
  destruct Hin as [<- | Hin]; [apply IH | exact (IHcs c' Hin)].
Qed.

Lemma find_nodes_unfold n ty :
  _find_nodes_by_type n ty
  = ((if String.eqb (node_type n) ty then [n] else [])
     ++ flat_map (fun c => _find_nodes_by_type c ty) (children n))%list.
Proof.
  destruct n as [t sb eb sr er cs]. cbn [_find_nodes_by_type node_type].
  f_equal. unfold children. cbn [fielded_children].
  induction cs as [|[f c] cs IH]; [reflexivity|].
  cbn [map flat_map snd]. now rewrite <- IH.
Qed.

(** X13: [_find_nodes_by_type] returns exactly the nodes of the requested
    type among the node itself and everything below it: none is missed at
    any depth and nothing else is returned. *)
Theorem find_nodes_by_type_exact (n m : Node) (ty : string) :
  In m (_find_nodes_by_type n ty) <-> subnode n m /\ node_type m = ty.
Proof.
  split.
  - revert m. induction n as [n IH] using Node_induction. intros m.
    rewrite find_nodes_unfold, in_app_iff, in_flat_map.
    intros [Hself | (c & Hc & Hm)].
    + destruct (String.eqb_spec (node_type n) ty) as [Hty|]; [|destruct Hself].
      destruct Hself as [<- | []]. split; [constructor | exact Hty].
    + destruct (IH c Hc m Hm) as [Hsub Hty].
      split; [econstructor; eassumption | exact Hty].
  - intros [Hsub Hty]. induction Hsub as [n | n c m Hc Hsub IH].
    + rewrite find_nodes_unfold, in_app_iff. left.
      rewrite (proj2 (String.eqb_eq _ _) Hty). now left.
    + rewrite find_nodes_unfold, in_app_iff, in_flat_map. right.
      exists c. split; [exact Hc | exact (IH Hty)].
Qed.

Lemma find_nodes_by_type_exact_witness :
  In inner_function
     (_find_nodes_by_type nested_function_root "function_declaration").
Proof.
  apply find_nodes_by_type_exact. split; [|reflexivity].
  eapply subnode_child; [left; reflexivity|].
  eapply subnode_child; [right; left; reflexivity|].
  eapply subnode_child; [left; reflexivity|].
  eapply subnode_child; [right; left; reflexivity|].
  eapply subnode_child; [left; reflexivity|].
  apply subnode_self.
Defined.

Lemma fold_left_snoc_if {A} (p : A -> bool) (l : list A) : forall acc,
  fold_left (fun acc x => if p x then (acc ++ [x])%list else acc) l acc
  = (acc ++ List.filter p l)%list.
Proof.
  induction l as [|x l IH]; intros acc; cbn [fold_left List.filter].
  - now rewrite app_nil_r.
  - rewrite IH. destruct (p x); [|reflexivity].
    now rewrite <- app_assoc.
Qed.

Lemma fold_left_extend {A B} (g : A -> list B) (l : list A) : forall acc,
  fold_left (fun acc x => (acc ++ g x)%list) l acc = (acc ++ flat_map g l)%list.
Proof.
  induction l as [|x l IH]; intros acc; cbn [fold_left flat_map].
  - now rewrite app_nil_r.
  - rewrite IH. now rewrite app_assoc.
Qed.

Lemma fold_left_same {A B} (f g : A -> B -> A) :
  (forall a b, f a b = g a b) ->
  forall l a, fold_left f l a = fold_left g l a.
Proof.
  intros Hfg l. induction l as [|x l IH]; intros a; cbn [fold_left];
    [reflexivity|]. now rewrite Hfg, IH.
Qed.

(** X14: [_find_top_level_functions] returns exactly the direct children of
    the root of type [function_declaration] or [function], and the
    [function_declaration] children of the root's export statements; a
    function declared anywhere deeper is never returned. *)
Theorem find_top_level_functions_exact (root_node f : Node) :
  In f (_find_top_level_functions root_node) <->
  (In f (children root_node) /\
   (node_type f = "function_declaration" \/ node_type f = "function")) \/
  (exists e, In e (children root_node) /\ node_type e = "export_statement" /\
             In f (children e) /\ node_type f = "function_declaration").
Proof.
  unfold _find_top_level_functions.
  rewrite (fold_left_same _
             (fun acc child =>
                (acc ++
                 (if existsb (String.eqb (node_type child))
                       ["function_declaration"; "function"; "export_statement"]
                  then if String.eqb (node_type child) "export_statement"
                       then List.filter
                              (fun sc => String.eqb (node_type sc) "function_declaration")
                              (children child)
                       else [child]
                  else []))%list)).
  2:{ intros acc child.
      destruct (existsb _ _); [|now rewrite app_nil_r].
      destruct (String.eqb (node_type child) "export_statement"); [|reflexivity].
      apply (fold_left_snoc_if
               (fun sc => String.eqb (node_type sc) "function_declaration")). }
  rewrite fold_left_extend. cbn [app]. rewrite in_flat_map. cbn [existsb].
  split.
  - intros (child & Hchild & Hf).
    destruct (String.eqb_spec (node_type child) "function_declaration") as [Hfd|_];
      cbn [orb] in Hf.
    + rewrite Hfd in Hf. cbn in Hf. destruct Hf as [<- | []]. left. auto.
    + destruct (String.eqb_spec (node_type child) "function") as [Hfn|_];
        cbn [orb] in Hf.
      * rewrite Hfn in Hf. cbn in Hf. destruct Hf as [<- | []]. left. auto.
      * destruct (String.eqb_spec (node_type child) "export_statement") as [Hex|_];
          cbn [orb] in Hf; [|destruct Hf].
        apply filter_In in Hf as [Hin Hty]. apply String.eqb_eq in Hty.
        right. exists child. auto.
  - intros [[Hin Hty] | (e & He & Hety & Hin & Hty)].
    + exists f. split; [exact Hin|].
      destruct Hty as [-> | ->]; cbn; now left.
    + exists e. split; [exact He|]. rewrite Hety. cbn.
      apply filter_In. split; [exact Hin | now apply String.eqb_eq].
Qed.

Lemma find_top_level_functions_exact_witness :
  In outer_function (_find_top_level_functions nested_function_root) /\
  ~ In inner_function (_find_top_level_functions nested_function_root).
Proof.
  split.
  - apply find_top_level_functions_exact. left.
    split; [right; left; reflexivity | left; reflexivity].
  - intros Hin. apply find_top_level_functions_exact in Hin.
    destruct Hin as [[Hin _] | (e & He & Hty & _)].
    + destruct Hin as [H | [H | []]]; discriminate H.
    + destruct He as [<- | [<- | []]]; discriminate Hty.
Defined.

(** ** Passes that leave a field alone *)

Lemma fold_left_keeps {A B} (proj : TypeScriptChunk -> B)
    (f : TypeScriptChunk -> A -> TypeScriptChunk) :
  (forall c a, proj (f c a) = proj c) ->
  forall l c, proj (fold_left f l c) = proj c.
Proof.
  intros Hstep l. induction l as [|a l IH]; intros c; cbn [fold_left];
    [reflexivity|]. now rewrite IH, Hstep.
Qed.

Lemma detect_webxr_keeps {B} (proj : TypeScriptChunk -> B) :
  (forall l c, proj (add_label l c) = proj c) ->
  (forall s c, proj (set_webxr_api_usage s c) = proj c) ->
  (forall s c, proj (set_three_js_usage s c) = proj c) ->
  forall c, proj (_detect_webxr_patterns c) = proj c.
Proof.
  intros Hlabel Hwebxr Hthree c. unfold _detect_webxr_patterns.
  rewrite !fold_left_keeps; [reflexivity | |];
    intros c' a; destruct (PyStr.contains (content c') a);
    rewrite ?Hlabel, ?Hwebxr, ?Hthree; reflexivity.
Qed.

Lemma extract_calls_keeps {B} (proj : TypeScriptChunk -> B) node source_code :
  (forall s c, proj (set_calls s c) = proj c) ->
  forall c, proj (_extract_function_calls node source_code c) = proj c.
Proof.
  intros Hcalls c. unfold _extract_function_calls.
  apply fold_left_keeps. intros c' call_node.
  destruct (child_by_field_name call_node "function"); [|reflexivity].
  apply Hcalls.
Qed.

Lemma detect_ecs_keeps {B} (proj : TypeScriptChunk -> B) :
  (forall l c, proj (add_label l c) = proj c) ->
  (forall b c, proj (set_ecs_component b c) = proj c) ->
  (forall b c, proj (set_ecs_system b c) = proj c) ->
  forall c, proj (_detect_ecs_patterns c) = proj c.
Proof.
  intros Hlabel Hcomp Hsys c. unfold _detect_ecs_patterns.
  repeat match goal with
         | |- context [if ?b then _ else _] => destruct b
         end;
    repeat (rewrite Hlabel || rewrite Hcomp || rewrite Hsys); reflexivity.
Qed.

Lemma heritage_step_keeps {B} (proj : TypeScriptChunk -> B) source_code :
  (forall s c, proj (set_extends s c) = proj c) ->
  (forall s c, proj (set_implements s c) = proj c) ->
  forall c heritage, proj (heritage_step source_code c heritage) = proj c.
Proof.
  intros Hext Himpl c heritage. unfold heritage_step.
  rewrite fold_left_keeps.
  - apply fold_left_keeps. intros c' en. apply fold_left_keeps.
    intros c'' child. unfold extends_child_step.
    repeat match goal with
           | |- context [if ?b then _ else _] => destruct b
           | |- context [match ?o with Some _ => _ | None => _ end] => destruct o
           end; try reflexivity; apply Hext.
  - intros c' im. apply fold_left_keeps. intros c'' tn. apply Himpl.
Qed.

(** ** Detection of API usage *)

Section DetectLoop.

Context (get : TypeScriptChunk -> gset string).
Context (set : gset string -> TypeScriptChunk -> TypeScriptChunk).
Context (lab : string).
Context (get_set : forall s c, get (set s c) = s).
Context (get_label : forall l c, get (add_label l c) = get c).
Context (content_set : forall s c, content (set s c) = content c).
Context (labels_set : forall s c, semantic_labels (set s c) = semantic_labels c).

Abbreviation detect_loop_step := (detect_loop get set lab).

Lemma detect_loop_spec l : forall c,
  let c' := fold_left detect_loop_step l c in
  content c' = content c /\
  (forall x, x ∈ get c' <->
             x ∈ get c \/ (In x l /\ PyStr.contains (content c) x = true)) /\
  (forall y, y ∈ semantic_labels c' <->
             y ∈ semantic_labels c \/
             (y = lab /\ exists x, In x l /\ PyStr.contains (content c) x = true)).
Proof.
  induction l as [|a l IH]; intros c; cbn [fold_left].
  - split; [reflexivity|]. split; intros z; split; try tauto.
    + intros [H | [[] _]]; exact H.
    + intros [H | (_ & x & [] & _)]; exact H.
  - destruct (IH (detect_loop_step c a)) as (Hcontent & Hget & Hlabels).
    assert (Hc : content (detect_loop_step c a) = content c).
    { unfold detect_loop. destruct (PyStr.contains (content c) a);
        [|reflexivity]. unfold add_label. cbn [content set_semantic_labels].
      apply content_set. }
    split; [now rewrite Hcontent|]. split.
    + intros x. rewrite Hget, Hc. unfold detect_loop.
      destruct (PyStr.contains (content c) a) eqn:Ha.
      * rewrite get_label, get_set, elem_of_union, elem_of_singleton.
        split.
        -- intros [[H | ->] | [Hin Hx]].
           ++ left. exact H.
           ++ right. split; [now left | exact Ha].
           ++ right. split; [now right | exact Hx].
        -- intros [H | [[<- | Hin] Hx]].
           ++ left. left. exact H.
           ++ left. right. reflexivity.
           ++ right. split; [exact Hin | exact Hx].
      * split.
        -- intros [H | [Hin Hx]]; [left; exact H|].
           right. split; [now right | exact Hx].
        -- intros [H | [[<- | Hin] Hx]]; [left; exact H | congruence |].
           right. split; [exact Hin | exact Hx].
    + intros y. rewrite Hlabels, Hc. unfold detect_loop.
      destruct (PyStr.contains (content c) a) eqn:Ha.
      * unfold add_label at 1. cbn [semantic_labels set_semantic_labels].
        rewrite labels_set, elem_of_union, elem_of_singleton. split.
        -- intros [[H | ->] | (-> & x & Hin & Hx)].
           ++ left. exact H.
           ++ right. split; [reflexivity|]. exists a. split; [now left | exact Ha].
           ++ right. split; [reflexivity|]. exists x. split; [now right | exact Hx].
        -- intros [H | (-> & x & Hin & Hx)].
           ++ left. left. exact H.
           ++ left. right. reflexivity.
      * split.
        -- intros [H | (-> & x & Hin & Hx)]; [left; exact H|].
           right. split; [reflexivity|]. exists x. split; [now right | exact Hx].
        -- intros [H | (-> & x & [<- | Hin] & Hx)]; [left; exact H | congruence |].
           right. split; [reflexivity|]. exists x. split; [exact Hin | exact Hx].
Qed.

End DetectLoop.

(** X15: [_detect_webxr_patterns] adds to [webxr_api_usage] exactly the
    listed WebXR API names that occur in the chunk's content, and to
    [three_js_usage] exactly the listed Three.js patterns that occur; the
    label [webxr_api] is added exactly when some WebXR name occurs. *)
Theorem detect_webxr_patterns_exact (c : TypeScriptChunk) :
  let c' := _detect_webxr_patterns c in
  (forall x, x ∈ webxr_api_usage c' <->
     x ∈ webxr_api_usage c \/
     (In x webxr_apis /\ PyStr.contains (content c) x = true)) /\
  (forall x, x ∈ three_js_usage c' <->
     x ∈ three_js_usage c \/
     (In x threejs_patterns /\ PyStr.contains (content c) x = true)) /\
  ("webxr_api" ∈ semantic_labels c' <->
     "webxr_api" ∈ semantic_labels c \/
     exists x, In x webxr_apis /\ PyStr.contains (content c) x = true).
Proof.
  intros c'. subst c'. unfold _detect_webxr_patterns.
  set (c1 := fold_left _ webxr_apis c).
  destruct (detect_loop_spec webxr_api_usage set_webxr_api_usage "webxr_api"
              ltac:(reflexivity) ltac:(reflexivity) ltac:(reflexivity)
              ltac:(reflexivity) webxr_apis c)
    as (Hcontent1 & Hget1 & Hlabels1).
  fold (detect_loop webxr_api_usage set_webxr_api_usage "webxr_api") in c1.
  fold c1 in Hcontent1, Hget1, Hlabels1.
  destruct (detect_loop_spec three_js_usage set_three_js_usage "threejs_usage"
              ltac:(reflexivity) ltac:(reflexivity) ltac:(reflexivity)
              ltac:(reflexivity) threejs_patterns c1)
    as (Hcontent2 & Hget2 & Hlabels2).
  assert (Hweb2 :
    webxr_api_usage
      (fold_left (detect_loop three_js_usage set_three_js_usage "threejs_usage")
         threejs_patterns c1) = webxr_api_usage c1).
  { apply (fold_left_keeps webxr_api_usage). intros c' a.
    unfold detect_loop. now destruct (PyStr.contains (content c') a). }
  assert (Hthree1 : three_js_usage c1 = three_js_usage c).
  { apply (fold_left_keeps three_js_usage). intros c' a.
    unfold detect_loop. now destruct (PyStr.contains (content c') a). }
  fold (detect_loop three_js_usage set_three_js_usage "threejs_usage").
  split; [|split].
  - intros x. rewrite Hweb2. apply Hget1.
  - intros x. rewrite Hget2, Hthree1, Hcontent1. reflexivity.
  - rewrite Hlabels2, Hlabels1. split.
    + intros [[H | [_ H]] | [Heq _]]; auto. discriminate Heq.
    + intros [H | H]; auto.
Qed.

Lemma detect_webxr_patterns_exact_witness :
  "XRSession"
    ∈ webxr_api_usage
        (_detect_webxr_patterns
           (new_chunk "const s: XRSession = null;" "function" "f" 1 1
              "a.ts" "typescript" [])).
Proof.
  apply (proj1 (detect_webxr_patterns_exact _)).
  right. split; [left; reflexivity | reflexivity].
Defined.

(** ** Function chunks *)

Lemma fold_left_adds {A} (proj : TypeScriptChunk -> gset string)
    (f : TypeScriptChunk -> A -> TypeScriptChunk) (P : A -> string -> Prop) :
  (forall c a x, x ∈ proj (f c a) <-> x ∈ proj c \/ P a x) ->
  forall l c x,
    x ∈ proj (fold_left f l c) <-> x ∈ proj c \/ exists a, In a l /\ P a x.
Proof.
  intros Hstep l. induction l as [|a l IH]; intros c x; cbn [fold_left].
  - split; [auto | intros [H | (a & [] & _)]; exact H].
  - rewrite IH, Hstep. split.
    + intros [[H | H] | (a' & Hin & H)]; eauto.
      * right. exists a. split; [now left | exact H].
      * right. exists a'. split; [now right | exact H].
    + intros [H | (a' & [<- | Hin] & H)]; eauto.
Qed.

Lemma extract_calls_exact node source_code c x :
  x ∈ calls (_extract_function_calls node source_code c) <->
  x ∈ calls c \/ called_in source_code node x.
Proof.
  unfold _extract_function_calls, called_in.
  rewrite (fold_left_adds calls _
             (fun call_node x => exists callee,
                  child_by_field_name call_node "function" = Some callee /\
                  _get_node_text callee source_code = x)).
  - split; intros [H | H]; auto; right.
    + destruct H as (cn & Hin & callee & Hf & Hx). eauto 6.
    + destruct H as (cn & callee & Hin & Hf & Hx). eauto 6.
  - intros c' cn y.
    destruct (child_by_field_name cn "function") as [callee|].
    + unfold add_calls. cbn [calls set_calls].
      rewrite elem_of_union, elem_of_singleton. split.
      * intros [H | ->]; [now left | right; eauto].
      * intros [H | (callee' & [= <-] & <-)]; auto.
    + split; [auto | intros [H | (callee' & Hc & _)]; [exact H | discriminate Hc]].
Qed.

(** X16: a function chunk records as [calls] exactly the callee texts of
    the call expressions inside the function, and it never carries an ECS
    flag, a base type or an interface: [_parse_function] runs neither the
    heritage nor the ECS detection. *)
Theorem parse_function_chunk (func_node : Node)
    (source_code path lang : string) (imports : list string) :
  let c := _parse_function func_node source_code path lang imports in
  (forall x, x ∈ calls c <-> called_in source_code func_node x) /\
  ecs_component c = false /\ ecs_system c = false /\
  extends c = ∅ /\ implements c = ∅ /\
  chunk_type c = "function" /\ file_path c = path.
Proof.
  intros c. subst c. unfold _parse_function.
  split.
  - intros x.
    rewrite (detect_webxr_keeps calls) by reflexivity.
    rewrite extract_calls_exact. cbn [calls new_chunk].
    split; [intros [H | H]; [exfalso; exact (not_elem_of_empty _ H) | exact H] | auto].
  - repeat split.
    + rewrite (detect_webxr_keeps ecs_component) by reflexivity.
      now rewrite (extract_calls_keeps ecs_component) by reflexivity.
    + rewrite (detect_webxr_keeps ecs_system) by reflexivity.
      now rewrite (extract_calls_keeps ecs_system) by reflexivity.
    + rewrite (detect_webxr_keeps extends) by reflexivity.
      now rewrite (extract_calls_keeps extends) by reflexivity.
    + rewrite (detect_webxr_keeps implements) by reflexivity.
      now rewrite (extract_calls_keeps implements) by reflexivity.
    + rewrite (detect_webxr_keeps chunk_type) by reflexivity.
      now rewrite (extract_calls_keeps chunk_type) by reflexivity.
    + rewrite (detect_webxr_keeps file_path) by reflexivity.
      now rewrite (extract_calls_keeps file_path) by reflexivity.
Qed.

Lemma parse_function_chunk_witness :
  calls (_parse_function calls_function calls_source "a.ts" "typescript" [])
  = {[ "g"; "h.k" ]}.
Proof.
  apply set_eq. intros x.
  rewrite (proj1 (parse_function_chunk calls_function calls_source
                    "a.ts" "typescript" []) x).
  rewrite elem_of_union, !elem_of_singleton. unfold called_in. split.
  - intros (cn & callee & Hin & Hf & Hx).
    cbn in Hin. destruct Hin as [<- | [<- | []]];
      cbn in Hf; injection Hf as <-; cbn in Hx; auto.
  - intros [-> | ->].
    + eexists. eexists. split; [left; reflexivity|]. split; reflexivity.
    + eexists. eexists. split; [right; left; reflexivity|]. split; reflexivity.
Defined.

(** ** Classes built on [createSystem] and factory-made entities *)

Lemma detect_webxr_labels_mono c y :
  y ∈ semantic_labels c -> y ∈ semantic_labels (_detect_webxr_patterns c).
Proof.
  intros Hy. unfold _detect_webxr_patterns.
  destruct (detect_loop_spec webxr_api_usage set_webxr_api_usage "webxr_api"
              ltac:(reflexivity) ltac:(reflexivity) ltac:(reflexivity)
              ltac:(reflexivity) webxr_apis c) as (_ & _ & Hl1).
  destruct (detect_loop_spec three_js_usage set_three_js_usage "threejs_usage"
              ltac:(reflexivity) ltac:(reflexivity) ltac:(reflexivity)
              ltac:(reflexivity) threejs_patterns
              (fold_left (detect_loop webxr_api_usage set_webxr_api_usage "webxr_api")
                 webxr_apis c)) as (_ & _ & Hl2).
  apply Hl2. left. apply Hl1. left. exact Hy.
Qed.

Lemma detect_ecs_create_system c :
  "createSystem" ∈ extends c ->
  ecs_system (_detect_ecs_patterns c) = true /\
  "ecs_system" ∈ semantic_labels (_detect_ecs_patterns c).
Proof.
  intros Hin. unfold _detect_ecs_patterns.
  set (cm := PyStr.contains (PyStr.lower (content c)) "implements component"
             || PyStr.contains (PyStr.lower (content c)) "extends componentbase").
  destruct cm; cbv zeta;
    cbn [extends set_ecs_component add_label set_semantic_labels];
    rewrite (bool_decide_eq_true_2 _ Hin), orb_true_r;
    repeat match goal with
           | |- context [if ?b then _ else _] => destruct b
           end;
    (split; [reflexivity|]); unfold add_label;
    cbn [semantic_labels set_semantic_labels set_ecs_system set_ecs_component];
    set_solver.
Qed.

(** X17: a class whose extends clause names [createSystem] (as in
    [class Foo extends createSystem(Base)]) is marked as an ECS system:
    the flag is set and the label [ecs_system] is added. *)
Theorem parse_class_create_system (class_node : Node)
    (source_code path lang : string) (imports : list string) :
  let c := _parse_class class_node source_code path lang imports in
  "createSystem" ∈ extends c ->
  ecs_system c = true /\ "ecs_system" ∈ semantic_labels c.
Proof.
  intros c. subst c. unfold _parse_class.
  rewrite (detect_webxr_keeps extends) by reflexivity.
  rewrite (detect_ecs_keeps extends) by reflexivity.
  intros Hin. apply detect_ecs_create_system in Hin as [Hflag Hlabel].
  split.
  - now rewrite (detect_webxr_keeps ecs_system) by reflexivity.
  - apply detect_webxr_labels_mono. exact Hlabel.
Qed.

Lemma parse_class_create_system_witness :
  ecs_system (_parse_class factory_class factory_source "foo.ts" "typescript" [])
    = true /\
  "ecs_system"
    ∈ semantic_labels
        (_parse_class factory_class factory_source "foo.ts" "typescript" []).
Proof.
  apply parse_class_create_system.
  vm_compute. reflexivity.
Defined.

Lemma flagged_extends_elem x l (c : TypeScriptChunk) :
  x ∈ extends (add_extends x (add_label l c)).
Proof.
  unfold add_extends. cbn [extends set_extends].
  apply elem_of_union_r, elem_of_singleton. reflexivity.
Qed.

Lemma flagged_label_elem x l (c : TypeScriptChunk) :
  l ∈ semantic_labels (add_extends x (add_label l c)).
Proof.
  unfold add_extends, add_label. cbn [semantic_labels set_extends set_semantic_labels].
  apply elem_of_union_r, elem_of_singleton. reflexivity.
Qed.

Lemma factory_chunk_consistent source_code path lang imports parent
    var_statement declarator c :
  factory_chunk source_code path lang imports parent var_statement declarator
    = Some c ->
  factory_consistent c /\ file_path c = path.
Proof.
  unfold factory_chunk.
  destruct (child_by_field_name declarator "name") as [name_node|]; [|discriminate].
  destruct (child_by_field_name declarator "value") as [value_node|]; [|discriminate].
  destruct (negb _); [discriminate|].
  destruct (child_by_field_name value_node "function") as [func_node|]; [|discriminate].
  destruct (negb _); [discriminate|].
  intros [= <-].
  split.
  2:{ rewrite (detect_webxr_keeps file_path) by reflexivity.
      rewrite (extract_calls_keeps file_path) by reflexivity.
      now destruct (PyStr.contains _ "createComponent"). }
  unfold factory_consistent.
  rewrite (detect_webxr_keeps chunk_type) by reflexivity.
  rewrite (extract_calls_keeps chunk_type) by reflexivity.
  rewrite (detect_webxr_keeps ecs_component) by reflexivity.
  rewrite (extract_calls_keeps ecs_component) by reflexivity.
  rewrite (detect_webxr_keeps ecs_system) by reflexivity.
  rewrite (extract_calls_keeps ecs_system) by reflexivity.
  rewrite (detect_webxr_keeps extends) by reflexivity.
  rewrite (extract_calls_keeps extends) by reflexivity.
  destruct (PyStr.contains _ "createComponent"); [left | right].
  - split; [reflexivity|]. split; [reflexivity|]. split; [reflexivity|].
    split; [apply flagged_extends_elem|].
    apply detect_webxr_labels_mono.
    rewrite (extract_calls_keeps semantic_labels) by reflexivity.
    apply flagged_label_elem.
  - split; [reflexivity|]. split; [reflexivity|]. split; [reflexivity|].
    split; [apply flagged_extends_elem|].
    apply detect_webxr_labels_mono.
    rewrite (extract_calls_keeps semantic_labels) by reflexivity.
    apply flagged_label_elem.
Qed.

Lemma factory_patterns_member root_node source_code path lang imports c :
  In c (_extract_ecs_factory_patterns root_node source_code path lang imports) ->
  exists parent var_statement declarator,
    factory_chunk source_code path lang imports parent var_statement declarator
    = Some c.
Proof.
  unfold _extract_ecs_factory_patterns.
  rewrite (fold_left_same _
             (fun chunks (pv : option Node * Node) =>
                (chunks ++
                 flat_map
                   (fun declarator =>
                      option_list
                        (factory_chunk source_code path lang imports
                           (fst pv) (snd pv) declarator))
                   (_find_nodes_by_type (snd pv) "variable_declarator"))%list)).
  2:{ intros chunks [parent vs]. cbn [fst snd].
      rewrite <- fold_left_extend. apply fold_left_same.
      intros acc d. destruct (factory_chunk _ _ _ _ _ _ d); cbn [option_list];
        [reflexivity | now rewrite app_nil_r]. }
  rewrite fold_left_extend. cbn [app].
  intros Hin. apply in_flat_map in Hin as ([parent vs] & _ & Hin).
  apply in_flat_map in Hin as (d & _ & Hin). cbn [fst snd] in Hin.
  exists parent, vs, d.
  destruct (factory_chunk _ _ _ _ _ _ d) as [c'|]; cbn [option_list] in Hin.
  - destruct Hin as [<- | []]. reflexivity.
  - destruct Hin.
Qed.

(** X18: every chunk [_extract_ecs_factory_patterns] builds is consistently
    a component or a system: its [chunk_type], its ECS flag (the other flag
    stays false), its label and the base type added to [extends] all agree;
    a callee that names both factories counts as a component. *)
Theorem factory_patterns_consistent (root_node : Node)
    (source_code path lang : string) (imports : list string)
    (c : TypeScriptChunk) :
  In c (_extract_ecs_factory_patterns root_node source_code path lang imports) ->
  factory_consistent c /\ file_path c = path.
Proof.
  intros Hin.
  apply factory_patterns_member in Hin as (parent & vs & d & Hc).
  exact (factory_chunk_consistent _ _ _ _ _ _ _ _ Hc).
Qed.

Lemma factory_patterns_consistent_witness :
  exists c,
    _extract_ecs_factory_patterns position_root position_source
      "src/position.ts" "typescript" [] = [c] /\
    name c = "Position" /\ content c = position_source /\
    factory_consistent c /\ chunk_type c = "component".
Proof.
  eexists. split; [reflexivity|].
  split; [reflexivity|]. split; [reflexivity|]. split; [|reflexivity].
  refine (proj1 (factory_patterns_consistent position_root position_source
                   "src/position.ts" "typescript" [] _ _)).
  left. reflexivity.
Defined.

(** ** Interfaces *)

(** X19: an interface chunk records as [extends] exactly the type
    identifiers inside the interface's [extends_type_clause] nodes, and it
    carries neither the file's imports nor calls, labels or flags. *)
Theorem parse_interface_chunk (interface_node : Node)
    (source_code path lang : string) :
  let c := _parse_interface interface_node source_code path lang in
  (forall x, x ∈ extends c <->
     exists clause type_node,
       In clause (_find_nodes_by_type interface_node "extends_type_clause") /\
       In type_node (_find_nodes_by_type clause "type_identifier") /\
       _get_node_text type_node source_code = x) /\
  imports c = [] /\ calls c = ∅ /\ implements c = ∅ /\
  semantic_labels c = ∅ /\ ecs_component c = false /\ ecs_system c = false.
Proof.
  intros c. subst c. unfold _parse_interface. split.
  - intros x.
    rewrite (fold_left_adds extends _
               (fun clause x => exists type_node,
                    In type_node (_find_nodes_by_type clause "type_identifier") /\
                    _get_node_text type_node source_code = x)).
    + cbn [extends new_chunk]. split.
      * intros [H | (cl & Hcl & tn & Htn & Hx)];
          [exfalso; exact (not_elem_of_empty _ H) | eauto 6].
      * intros (cl & tn & Hcl & Htn & Hx). right. eauto 6.
    + intros c' clause y.
      rewrite (fold_left_adds extends _
                 (fun type_node y => _get_node_text type_node source_code = y)).
      * reflexivity.
      * intros c'' tn z. unfold add_extends. cbn [extends set_extends].
        rewrite elem_of_union, elem_of_singleton. split; intros [H | H]; auto.
  - repeat split;
      match goal with
      | |- ?proj (fold_left _ _ _) = _ =>
          rewrite (fold_left_keeps proj);
          [reflexivity
          | intros c' h; apply (fold_left_keeps proj); intros; reflexivity]
      end.
Qed.

Lemma parse_interface_chunk_witness :
  imports (_parse_interface (leaf "interface_declaration" 0 14)
             "interface A {}" "a.ts" "typescript") = [].
Proof.
  apply (parse_interface_chunk (leaf "interface_declaration" 0 14)
           "interface A {}" "a.ts" "typescript").
Defined.

(** ** [parse_file] *)

Lemma frame_parsed_ok path lang c ct ty nm r e imps :
  chunk_frame c
  = chunk_frame (new_chunk ct ty nm (Z.of_nat r + 1) e path lang imps) ->
  In ty parser_chunk_types ->
  parsed_chunk_ok path lang c.
Proof.
  unfold chunk_frame. cbn [new_chunk content chunk_type name start_line end_line
    file_path language module_path class_name imports exports type_parameters
    decorators metadata].
  intros [= _ Hty _ Hstart _ Hpath Hlang Hmod Hcls _ Hexp _ _ Hmeta] Hin.
  unfold parsed_chunk_ok. rewrite Hty, Hstart, Hpath, Hlang, Hmod, Hcls, Hexp, Hmeta.
  repeat split; try assumption. lia.
Qed.

Lemma parse_class_frame class_node source_code path lang imps :
  exists ct nm e,
    chunk_frame (_parse_class class_node source_code path lang imps)
    = chunk_frame (new_chunk ct "class" nm
                     (Z.of_nat (start_row class_node) + 1) e path lang imps).
Proof.
  unfold _parse_class. do 3 eexists.
  rewrite (detect_webxr_keeps chunk_frame) by reflexivity.
  rewrite (detect_ecs_keeps chunk_frame) by reflexivity.
  rewrite (fold_left_keeps chunk_frame); [reflexivity|].
  intros c h. apply (heritage_step_keeps chunk_frame); reflexivity.
Qed.

Lemma parse_function_frame func_node source_code path lang imps :
  exists ct nm e,
    chunk_frame (_parse_function func_node source_code path lang imps)
    = chunk_frame (new_chunk ct "function" nm
                     (Z.of_nat (start_row func_node) + 1) e path lang imps).
Proof.
  unfold _parse_function. do 3 eexists.
  rewrite (detect_webxr_keeps chunk_frame) by reflexivity.
  rewrite (extract_calls_keeps chunk_frame) by reflexivity.
  reflexivity.
Qed.

Lemma parse_interface_frame interface_node source_code path lang :
  exists ct nm e,
    chunk_frame (_parse_interface interface_node source_code path lang)
    = chunk_frame (new_chunk ct "interface" nm
                     (Z.of_nat (start_row interface_node) + 1) e path lang []).
Proof.
  unfold _parse_interface. do 3 eexists.
  rewrite (fold_left_keeps chunk_frame); [reflexivity|].
  intros c h. apply (fold_left_keeps chunk_frame). intros; reflexivity.
Qed.

Lemma factory_chunk_frame source_code path lang imps parent vs d c :
  factory_chunk source_code path lang imps parent vs d = Some c ->
  exists ct ty nm r e,
    In ty ["component"; "system"] /\
    chunk_frame c = chunk_frame (new_chunk ct ty nm (Z.of_nat r + 1) e path lang imps).
Proof.
  unfold factory_chunk.
  destruct (child_by_field_name d "name") as [name_node|]; [|discriminate].
  destruct (child_by_field_name d "value") as [value_node|]; [|discriminate].
  destruct (negb _); [discriminate|].
  destruct (child_by_field_name value_node "function") as [func_node|]; [|discriminate].
  destruct (negb _); [discriminate|].
  intros [= <-].
  rewrite (detect_webxr_keeps chunk_frame) by reflexivity.
  rewrite (extract_calls_keeps chunk_frame) by reflexivity.
  destruct (PyStr.contains _ "createComponent");
    do 5 eexists; (split; [|reflexivity]); cbn; auto.
Qed.

Section ParseFileLaws.

Context (file_bytes : string -> option string).
Context (path_suffix : string -> string).
Context (ts_parse js_parse : string -> Node).

Lemma extract_chunks_ok root_node source_code path lang c :
  In c (extract_chunks root_node source_code path lang) ->
  parsed_chunk_ok path lang c.
Proof.
  unfold extract_chunks. rewrite !in_app_iff, !in_map_iff.
  intros [[[[(n & <- & _) | (n & <- & _)] | (n & <- & _)] | (n & <- & _)] | Hin].
  - destruct (parse_class_frame n source_code path lang
                (_extract_imports root_node source_code)) as (ct & nm & e & Hf).
    eapply frame_parsed_ok; [exact Hf | cbn; auto].
  - destruct (parse_function_frame n source_code path lang
                (_extract_imports root_node source_code)) as (ct & nm & e & Hf).
    eapply frame_parsed_ok; [exact Hf | cbn; auto].
  - destruct (parse_interface_frame n source_code path lang) as (ct & nm & e & Hf).
    eapply frame_parsed_ok; [exact Hf | cbn; auto].
  - unfold _parse_type_alias. eapply frame_parsed_ok; [reflexivity | cbn; auto 6].
  - apply factory_patterns_member in Hin as (parent & vs & d & Hc).
    apply factory_chunk_frame in Hc as (ct & ty & nm & r & e & Hty & Hf).
    eapply frame_parsed_ok; [exact Hf|].
    destruct Hty as [<- | [<- | []]]; cbn; auto 8.
Qed.

(** X20: [parse_file] raises [FileNotFoundError] for a missing file whatever
    its suffix, raises [ValueError] for an existing file whose suffix is
    none of [.ts], [.tsx], [.js], [.jsx], and otherwise returns chunks that
    all carry the given path, the language of the suffix, one of the six
    parser chunk types, a start line of at least 1, and no exports, class
    name, module path or merge metadata. *)
Theorem parse_file_outcomes (p : string) :
  let result := parse_file file_bytes path_suffix ts_parse js_parse p in
  let suffix := path_suffix p in
  (file_bytes p = None -> result = FileNotFoundError) /\
  (forall source_code, file_bytes p = Some source_code ->
     ~ In suffix [".ts"; ".tsx"; ".js"; ".jsx"] ->
     result = ValueError suffix) /\
  (forall chunks, result = Parsed chunks ->
     In suffix [".ts"; ".tsx"; ".js"; ".jsx"] /\
     forall c, In c chunks ->
       parsed_chunk_ok p (language_of_suffix suffix) c).
Proof.
  intros result suffix. subst result suffix. unfold parse_file.
  split; [intros ->; reflexivity|]. split.
  - intros source_code -> Hbad.
    destruct (String.eqb_spec (path_suffix p) ".ts") as [e|_];
      [exfalso; apply Hbad; rewrite e; cbn; auto|].
    destruct (String.eqb_spec (path_suffix p) ".tsx") as [e|_];
      [exfalso; apply Hbad; rewrite e; cbn; auto|].
    destruct (String.eqb_spec (path_suffix p) ".js") as [e|_];
      [exfalso; apply Hbad; rewrite e; cbn; auto|].
    destruct (String.eqb_spec (path_suffix p) ".jsx") as [e|_];
      [exfalso; apply Hbad; rewrite e; cbn; auto 6|].
    reflexivity.
  - intros chunks. destruct (file_bytes p) as [source_code|]; [|discriminate].
    unfold language_of_suffix.
    destruct (String.eqb (path_suffix p) ".ts" || String.eqb (path_suffix p) ".tsx")
      eqn:Hts.
    + intros [= <-]. split.
      * apply orb_true_iff in Hts as [H | H]; apply String.eqb_eq in H;
          rewrite H; cbn; auto.
      * intros c. apply extract_chunks_ok.
    + destruct (String.eqb (path_suffix p) ".js" || String.eqb (path_suffix p) ".jsx")
        eqn:Hjs; [|discriminate].
      intros [= <-]. split.
      * apply orb_true_iff in Hjs as [H | H]; apply String.eqb_eq in H;
          rewrite H; cbn; auto.
      * intros c. apply extract_chunks_ok.
Qed.

End ParseFileLaws.

Lemma parse_file_outcomes_witness :
  parse_file two_files scenario_suffix scenario_parse scenario_parse "missing.ts"
    = FileNotFoundError /\
  parse_file two_files scenario_suffix scenario_parse scenario_parse "README.md"
    = ValueError ".md" /\
  exists c,
    parse_file two_files scenario_suffix scenario_parse scenario_parse
      "src/position.ts" = Parsed [c] /\
    parsed_chunk_ok "src/position.ts" "typescript" c.
Proof.
  split; [|split].
  - apply (parse_file_outcomes two_files scenario_suffix scenario_parse
             scenario_parse "missing.ts"). reflexivity.
  - apply (proj1 (proj2 (parse_file_outcomes two_files scenario_suffix
                           scenario_parse scenario_parse "README.md"))
             "# readme"); [reflexivity|].
    cbn. intros [H | [H | [H | [H | []]]]]; discriminate H.
  - eexists. split; [reflexivity|].
    refine (proj2 (proj2 (proj2 (parse_file_outcomes two_files scenario_suffix
                                   scenario_parse scenario_parse "src/position.ts"))
                     _ eq_refl) _ _).
    left. reflexivity.
Defined.

(** * Further properties of the vector store *)

(** ** The metadata map *)

Lemma put_if_scalar b k v (m : gmap string MetaValue) :
  scalar v -> map_Forall (fun _ => scalar) m ->
  map_Forall (fun _ => scalar) (put_if b k v m).
Proof.
  intros Hv Hm. destruct b; cbn [put_if]; [|exact Hm].
  apply map_Forall_insert_2; assumption.
Qed.

Lemma create_metadata_all_scalar set_order path_parts chunk source :
  map_Forall (fun _ => scalar)
    (_create_metadata set_order path_parts chunk source).
Proof.
  unfold _create_metadata.
  repeat first
    [ apply map_Forall_insert_2; [exact I|]
    | apply put_if_scalar; [exact I|]
    | apply map_Forall_empty
    | match goal with
      | |- map_Forall _ (match ?o with Some _ => _ | None => _ end) => destruct o
      | |- map_Forall _ (match ?l with [] => _ | _ :: _ => _ end) => destruct l
      | |- map_Forall _ (if ?b then _ else _) => destruct b
      end ].
Qed.

Lemma lookup_put_if_other b k k' v (m : gmap string MetaValue) :
  k <> k' -> put_if b k v m !! k' = m !! k'.
Proof.
  intros Hne. destruct b; cbn [put_if]; [now apply lookup_insert_ne | reflexivity].
Qed.

Lemma lookup_put_if_same b k v (m : gmap string MetaValue) :
  put_if b k v m !! k = if b then Some v else m !! k.
Proof. destruct b; cbn [put_if]; [apply lookup_insert_eq | reflexivity]. Qed.

Ltac metadata_cases chunk source :=
  unfold _create_metadata;
  destruct source as [src|]; destruct (class_name chunk) as [cn|];
  destruct (module_path chunk) as [mp|];
  destruct (imports chunk) as [|i0 rest];
  destruct (set_nonempty (calls chunk));
  destruct (set_nonempty (webxr_api_usage chunk)).

Ltac skip_keys :=
  repeat first
    [ rewrite lookup_put_if_other by discriminate
    | rewrite lookup_insert_ne by discriminate ].

Lemma metadata_fixed_keys set_order path_parts chunk source :
  let md := _create_metadata set_order path_parts chunk source in
  md !! "chunk_type" = Some (MStr (chunk_type chunk)) /\
  md !! "name" = Some (MStr (name chunk)) /\
  md !! "start_line" = Some (MInt (start_line chunk)) /\
  md !! "end_line" = Some (MInt (end_line chunk)) /\
  md !! "language" = Some (MStr (language chunk)) /\
  md !! "size" = Some (MInt (end_line chunk - start_line chunk + 1)) /\
  md !! "ecs_component" = Some (MBool (ecs_component chunk)) /\
  md !! "ecs_system" = Some (MBool (ecs_system chunk)).
Proof.
  cbv zeta.
  repeat split;
    (metadata_cases chunk source; skip_keys; apply lookup_insert_eq).
Qed.

(** X21: the metadata map holds only scalar values (no list under any key),
    and always holds the eight keys [chunk_type], [name], [start_line],
    [end_line], [language], [size], [ecs_component] and [ecs_system], with
    [size] equal to [end_line - start_line + 1]. *)
Theorem create_metadata_scalar_and_complete
    (set_order : gset string -> list string) (path_parts : string -> list string)
    (chunk : TypeScriptChunk) (source : option string) :
  let md := _create_metadata set_order path_parts chunk source in
  (forall k v, md !! k = Some v -> scalar v) /\
  md !! "chunk_type" = Some (MStr (chunk_type chunk)) /\
  md !! "name" = Some (MStr (name chunk)) /\
  md !! "start_line" = Some (MInt (start_line chunk)) /\
  md !! "end_line" = Some (MInt (end_line chunk)) /\
  md !! "language" = Some (MStr (language chunk)) /\
  md !! "size" = Some (MInt (end_line chunk - start_line chunk + 1)) /\
  md !! "ecs_component" = Some (MBool (ecs_component chunk)) /\
  md !! "ecs_system" = Some (MBool (ecs_system chunk)).
Proof.
  split.
  - intros k v Hk.
    exact (create_metadata_all_scalar set_order path_parts chunk source k v Hk).
  - apply metadata_fixed_keys.
Qed.

Lemma create_metadata_scalar_and_complete_witness :
  scalar (MStr "createSystem") /\
  _create_metadata elements posix_parts system_class None !! "size"
    = Some (MInt 20).
Proof.
  destruct (create_metadata_scalar_and_complete elements posix_parts
              system_class None) as (Hscalar & _ & _ & _ & _ & _ & Hsize & _).
  split; [|exact Hsize].
  apply (Hscalar "extends"). vm_compute. reflexivity.
Defined.

Lemma metadata_labels set_order path_parts chunk source :
  _create_metadata set_order path_parts chunk source !! "labels"
  = if set_nonempty (semantic_labels chunk)
    then Some (MStr (PyStr.join "," (sorted_strings set_order (semantic_labels chunk))))
    else None.
Proof.
  metadata_cases chunk source; skip_keys; rewrite lookup_put_if_same;
    destruct (set_nonempty (semantic_labels chunk)); try reflexivity;
    skip_keys; rewrite ?lookup_empty; reflexivity.
Qed.

Lemma sorted_strings_order_free so1 so2 (s : gset string) :
  so1 s ≡ₚ so2 s -> sorted_strings so1 s = sorted_strings so2 s.
Proof.
  intros Hperm. unfold sorted_strings.
  apply (Sorted_unique String.le).
  - apply Sorted_merge_sort; apply _.
  - apply Sorted_merge_sort; apply _.
  - now rewrite !merge_sort_Permutation.
Qed.

(** X22: the [labels] entry does not depend on the order in which the label
    set is enumerated: any two enumerations of the set give the same stored
    string, because the labels are sorted before they are joined. *)
Theorem metadata_labels_order_free
    (so1 so2 : gset string -> list string) (path_parts : string -> list string)
    (chunk : TypeScriptChunk) (source : option string) :
  so1 (semantic_labels chunk) ≡ₚ so2 (semantic_labels chunk) ->
  _create_metadata so1 path_parts chunk source !! "labels"
  = _create_metadata so2 path_parts chunk source !! "labels".
Proof.
  intros Hperm. rewrite !metadata_labels.
  now rewrite (sorted_strings_order_free so1 so2 _ Hperm).
Qed.

Lemma metadata_labels_order_free_witness :
  _create_metadata elements posix_parts
    (add_label "webxr_api" (add_label "ecs_system" system_class)) None !! "labels"
  = _create_metadata (fun s => rev (elements s)) posix_parts
      (add_label "webxr_api" (add_label "ecs_system" system_class)) None !! "labels".
Proof.
  apply metadata_labels_order_free. apply Permutation_rev.
Defined.

(** ** Identifiers and [add_chunks] *)

Lemma uint_string_colon_free d :
  colon_free (DecimalString.NilEmpty.string_of_uint d) = true.
Proof. induction d; cbn; auto. Qed.

Lemma py_str_nat_colon_free n : colon_free (py_str (Z.of_nat n)) = true.
Proof.
  unfold py_str. destruct (Z.of_nat n) as [|p|p] eqn:Hz; [reflexivity| |lia].
  cbn [Z.to_int DecimalString.NilZero.string_of_int].
  unfold DecimalString.NilZero.string_of_uint.
  destruct (Pos.to_uint p); try reflexivity; apply uint_string_colon_free.
Qed.

Lemma to_int_not_nil z :
  Z.to_int z <> Decimal.Pos Decimal.Nil /\ Z.to_int z <> Decimal.Neg Decimal.Nil.
Proof.
  destruct z as [|p|p]; cbn [Z.to_int]; split; try discriminate;
    intros [= H]; exact (DecimalPos.Unsigned.to_uint_nonnil p H).
Qed.

Lemma py_str_inj a b : py_str a = py_str b -> a = b.
Proof.
  unfold py_str. intros H.
  apply (f_equal DecimalString.NilZero.int_of_string) in H.
  destruct (to_int_not_nil a) as [Ha1 Ha2], (to_int_not_nil b) as [Hb1 Hb2].
  rewrite !DecimalString.NilZero.isi in H by assumption.
  injection H as H. apply (f_equal Z.of_int) in H.
  now rewrite !DecimalZ.of_to in H.
Qed.

Lemma colon_free_after_colon p d : colon_free (p ++ ":" ++ d) = false.
Proof.
  induction p as [|c p IH]; [reflexivity|].
  change (String c p ++ ":" ++ d) with (String c (p ++ ":" ++ d)).
  cbn [colon_free]. rewrite IH. apply andb_false_r.
Qed.

Lemma last_segment_after_colon p d :
  colon_free d = true -> last_segment (p ++ ":" ++ d) = d.
Proof.
  intros Hd. induction p as [|c p IH].
  - change ("" ++ ":" ++ d) with (String ":" d).
    cbn [last_segment]. now rewrite Hd.
  - change (String c p ++ ":" ++ d) with (String c (p ++ ":" ++ d)).
    cbn [last_segment]. now rewrite colon_free_after_colon.
Qed.

Lemma generate_id_index
    (path_parts : string -> list string) (path_name : string -> string)
    (c1 c2 : TypeScriptChunk) (i j : nat) (s1 s2 : option string) :
  i <> j ->
  _generate_id path_parts path_name c1 i s1
  = _generate_id path_parts path_name c2 j s2 -> False.
Proof.
  intros Hne Heq. unfold _generate_id in Heq.
  apply (f_equal last_segment) in Heq.
  rewrite !last_segment_after_colon in Heq by apply py_str_nat_colon_free.
  apply py_str_inj in Heq. lia.
Qed.

(** X23: two identifiers built by [_generate_id] with different indices
    differ, whatever the chunks and sources: the index after the last colon
    makes the identifiers of one batch unique. *)
Theorem generate_id_distinct
    (path_parts : string -> list string) (path_name : string -> string)
    (c1 c2 : TypeScriptChunk) (i j : nat) (s1 s2 : option string) :
  i <> j ->
  _generate_id path_parts path_name c1 i s1
  <> _generate_id path_parts path_name c2 j s2.
Proof.
  intros Hne Heq. exact (generate_id_index _ _ _ _ _ _ _ _ Hne Heq).
Qed.

Lemma generate_id_distinct_witness :
  _generate_id posix_parts (fun p => p) class_foo 0 (Some "iwsdk")
  <> _generate_id posix_parts (fun p => p) class_foo 1 (Some "iwsdk").
Proof.
  apply generate_id_distinct. lia.
Defined.

Section AddChunksLaws.

Context (set_order : gset string -> list string).
Context (path_parts : string -> list string).
Context (path_name : string -> string).
Context {V W : Type}.
Context (tolist : V -> W).

Abbreviation add := (add_chunks set_order path_parts path_name tolist).
Abbreviation loop_step := (add_loop_step set_order path_parts path_name tolist).

Lemma add_loop_spec source items : forall ids vs ms ds,
  fold_left (loop_step source) items (ids, vs, ms, ds)
  = ((ids ++ map (fun it => _generate_id path_parts path_name
                              (fst (snd it)) (fst it) source) items)%list,
     (vs ++ map (fun it => tolist (snd (snd it))) items)%list,
     (ms ++ map (fun it => _create_metadata set_order path_parts
                             (fst (snd it)) source) items)%list,
     (ds ++ map (fun it => content (fst (snd it))) items)%list).
Proof.
  induction items as [|[i [c e]] items IH]; intros ids vs ms ds;
    cbn [fold_left map].
  - now rewrite !app_nil_r.
  - cbn [add_loop_step fst snd]. rewrite IH. cbn [fst snd].
    now rewrite <- !app_assoc.
Qed.

Lemma enumerate_from {A} (l : list A) : forall k,
  map fst (combine (seq k (length l)) l) = seq k (length l) /\
  map snd (combine (seq k (length l)) l) = l.
Proof.
  induction l as [|x l IH]; intros k; cbn; [auto|].
  destruct (IH (S k)) as [-> ->]. auto.
Qed.

Lemma combine_projections {A B} (l : list A) : forall l' : list B,
  length l = length l' ->
  map fst (combine l l') = l /\ map snd (combine l l') = l'.
Proof.
  induction l as [|x l IH]; intros [|y l'] Hlen; try discriminate; cbn; [auto|].
  destruct (IH l' ltac:(cbn in Hlen; lia)) as [-> ->]. auto.
Qed.

Lemma NoDup_map_by_index {A} (f : nat * A -> string) (items : list (nat * A)) :
  (forall x y, f x = f y -> fst x = fst y) ->
  NoDup (map fst items) -> NoDup (map f items).
Proof.
  intros Hf. induction items as [|x items IH]; cbn [map]; intros Hnd.
  - constructor.
  - apply NoDup_cons in Hnd as [Hnotin Hnd].
    apply NoDup_cons. split; [|exact (IH Hnd)].
    intros Hin. apply Hnotin.
    apply list_elem_of_In, in_map_iff in Hin as (y & Hy & Hin).
    apply list_elem_of_In, in_map_iff. exists y. split; [|exact Hin].
    symmetry. apply Hf. now symmetry.
Qed.

(** X24: [add_chunks] raises [ValueError] whenever the two lists differ in
    length (also when there are no chunks), does nothing for two empty
    lists, and otherwise hands the collection one batch in input order: one
    identifier, vector, metadata map and document per chunk, with pairwise
    distinct identifiers. *)
Theorem add_chunks_outcomes (chunks : list TypeScriptChunk)
    (embeddings : list V) (source : option string) :
  (length chunks <> length embeddings ->
   add chunks embeddings source = AddValueError) /\
  (chunks = [] -> embeddings = [] -> add chunks embeddings source = AddNothing) /\
  (length chunks = length embeddings -> chunks <> [] ->
   exists ids,
     add chunks embeddings source
     = AddBatch ids (map tolist embeddings)
         (map (fun c => _create_metadata set_order path_parts c source) chunks)
         (map content chunks) /\
     length ids = length chunks /\ NoDup ids).
Proof.
  unfold add_chunks. split; [|split].
  - intros Hne. apply Nat.eqb_neq in Hne. now rewrite Hne.
  - intros -> ->. reflexivity.
  - intros Hlen Hne. rewrite (proj2 (Nat.eqb_eq _ _) Hlen). cbn [negb].
    destruct chunks as [|c0 rest]; [congruence|].
    unfold enumerate. rewrite add_loop_spec. cbn [app].
    set (pairs := combine (c0 :: rest) embeddings).
    destruct (enumerate_from pairs 0) as [Hfst Hsnd].
    destruct (combine_projections (c0 :: rest) embeddings Hlen) as [Hcs Hes].
    fold pairs in Hcs, Hes.
    set (items := combine (seq 0 (length pairs)) pairs) in *.
    assert (Hchunks : map (fun it : nat * (TypeScriptChunk * V) => fst (snd it)) items
                      = c0 :: rest).
    { rewrite <- Hcs, <- Hsnd at 1. now rewrite map_map. }
    assert (Hembs : map (fun it : nat * (TypeScriptChunk * V) => snd (snd it)) items
                    = embeddings).
    { rewrite <- Hes, <- Hsnd at 1. now rewrite map_map. }
    eexists. split; [|split].
    + f_equal.
      * rewrite <- Hembs at 1. now rewrite map_map.
      * rewrite <- Hchunks at 1. now rewrite map_map.
      * rewrite <- Hchunks at 1. now rewrite map_map.
    + rewrite length_map. rewrite <- Hchunks at 1. now rewrite length_map.
    + apply NoDup_map_by_index.
      * intros x y Hxy. destruct (decide (fst x = fst y)) as [|Hd]; [assumption|].
        exfalso. exact (generate_id_index _ _ _ _ _ _ _ _ Hd Hxy).
      * rewrite Hfst. apply NoDup_seq.
Qed.

End AddChunksLaws.

Lemma add_chunks_outcomes_witness :
  add_chunks elements posix_parts (fun p => p) (fun v : nat => v)
    [class_foo] [] None = AddValueError /\
  exists ids,
    add_chunks elements posix_parts (fun p => p) (fun v : nat => v)
      [class_foo; class_foobar] [7%nat; 8%nat] None
    = AddBatch ids [7%nat; 8%nat]
        (map (fun c => _create_metadata elements posix_parts c None)
             [class_foo; class_foobar])
        ["" ; ""] /\
    length ids = 2%nat /\ NoDup ids.
Proof.
  destruct (add_chunks_outcomes elements posix_parts (fun p => p)
              (fun v : nat => v) [class_foo] [] None) as (Herr & _ & _).
  destruct (add_chunks_outcomes elements posix_parts (fun p => p)
              (fun v : nat => v) [class_foo; class_foobar] [7%nat; 8%nat] None)
    as (_ & _ & Hbatch).
  split; [apply Herr; cbn; lia|].
  apply Hbatch; [reflexivity | discriminate].
Defined.

(** ** From the parser to the store: the [webxr_api] entry *)

Lemma string_length_app (a b : string) :
  String.length (a ++ b) = (String.length a + String.length b)%nat.
Proof.
  induction a as [|c a IH]; [reflexivity|].
  change (String c a ++ b) with (String c (a ++ b)).
  cbn [String.length]. now rewrite IH.
Qed.

Lemma join_length_bound (n : nat) (l : list string) :
  Forall (fun x => (String.length x <= n)%nat) l -> l <> [] ->
  (String.length (PyStr.join "," l) + 1 <= (n + 1) * length l)%nat.
Proof.
  unfold PyStr.join. induction 1 as [|x l Hx Hl IH]; intros Hne; [congruence|].
  destruct l as [|y r].
  - cbn [String.concat length]. lia.
  - change (String.concat "," (x :: y :: r))
      with (x ++ "," ++ String.concat "," (y :: r)).
    rewrite !string_length_app.
    specialize (IH ltac:(discriminate)).
    change (String.length ",") with 1%nat.
    cbn [length] in *. lia.
Qed.

Lemma detect_webxr_usage_listed c x :
  x ∈ webxr_api_usage (_detect_webxr_patterns c) ->
  x ∈ webxr_api_usage c \/ In x webxr_apis.
Proof.
  unfold _detect_webxr_patterns.
  rewrite (fold_left_keeps webxr_api_usage
             (fun chunk pattern =>
                if PyStr.contains (content chunk) pattern
                then add_label "threejs_usage"
                       (set_three_js_usage (three_js_usage chunk ∪ {[ pattern ]}) chunk)
                else chunk))
    by (intros c' a; now destruct (PyStr.contains (content c') a)).
  intros Hx.
  apply (proj1 (proj2 (detect_loop_spec webxr_api_usage set_webxr_api_usage
                         "webxr_api" ltac:(reflexivity) ltac:(reflexivity)
                         ltac:(reflexivity) ltac:(reflexivity) webxr_apis c)))
    in Hx.
  destruct Hx as [H | [H _]]; auto.
Qed.

Lemma webxr_names_short : Forall (fun x => (String.length x <= 21)%nat) webxr_apis.
Proof. repeat constructor. Qed.

(** X25: for a chunk whose [webxr_api_usage] was filled by
    [_detect_webxr_patterns] alone, the stored [webxr_api] string has at
    most 109 characters, whatever the content: it joins at most five of the
    eight listed API names. *)
Theorem detected_webxr_metadata_bounded
    (set_order : gset string -> list string) (path_parts : string -> list string)
    (c0 : TypeScriptChunk) (source : option string) (s : string) :
  let c := _detect_webxr_patterns c0 in
  webxr_api_usage c0 = ∅ ->
  (forall x, In x (set_order (webxr_api_usage c)) -> x ∈ webxr_api_usage c) ->
  _create_metadata set_order path_parts c source !! "webxr_api" = Some (MStr s) ->
  PyStr.len s <= 109.
Proof.
  intros c Hfresh Horder Hlook. subst c.
  rewrite metadata_webxr_api in Hlook.
  apply if_some_inv in Hlook as [_ [= <-]].
  set (l := take 5 (set_order (webxr_api_usage (_detect_webxr_patterns c0)))).
  assert (Hshort : Forall (fun x => (String.length x <= 21)%nat) l).
  { apply Forall_forall. intros x Hx.
    apply (subseteq_take 5), list_elem_of_In, Horder in Hx.
    apply detect_webxr_usage_listed in Hx as [Hx | Hx].
    - rewrite Hfresh in Hx. exfalso. exact (not_elem_of_empty _ Hx).
    - pose proof webxr_names_short as Hall. rewrite Forall_forall in Hall.
      apply Hall, list_elem_of_In, Hx. }
  assert (Hlen : (length l <= 5)%nat) by (unfold l; rewrite length_take; lia).
  unfold PyStr.len. destruct l as [|x r] eqn:Hl; [cbn; lia|].
  pose proof (join_length_bound 21 (x :: r) Hshort ltac:(discriminate)) as Hb.
  lia.
Qed.

Lemma detected_webxr_metadata_bounded_witness :
  PyStr.len "XRSession" <= 109.
Proof.
  apply (detected_webxr_metadata_bounded elements posix_parts
           (new_chunk "let s: XRSession;" "function" "f" 1 1 "a.ts" "typescript" [])
           None).
  - reflexivity.
  - intros x Hx. apply elem_of_elements, list_elem_of_In. exact Hx.
  - vm_compute. reflexivity.
Defined.
